(** * Tracking, threat scoring and spatial audio of the assistive navigation core

  A shallow embedding of the parts of [object_manager.py],
  [mode_controller.py], [vision_module.py], [audio_hrtf.py] and
  [audio_module_multi.py] that decide the properties stated at the end of
  the file.

  Conventions.
  - Python [int] is [Z].  Pixel boxes are 4-tuples of [Z].
  - Python [float] is idealised as an exact number: a rational ([Q]) in the
    tracking code, where only field operations and comparisons occur, and a
    real ([R]) in the audio code, which needs [sqrt], [cos] and [sin].
  - [time.time()] is an explicit argument [now]; all clock readings taken
    during one call are modelled by that one value.
  - Objects mutated in place by the source are returned as updated values;
    a list of objects is updated position by position.
  - External OpenCV calls (tracker update, template matching) are oracles
    whose observable outcome, including a raised exception, is data. *)

From Stdlib Require Import ZArith QArith Qabs Qminmax Reals Lra Lia List String Ascii Bool.
From Stdlib Require Import Permutation Sorted.
From Stdlib Require Lqa.
Import ListNotations.

(** ** Python built-ins *)

Module Py.

Open Scope Q_scope.

(** [a < b] on floats. *)
Definition Qltb (a b : Q) : bool :=
  match a ?= b with Lt => true | _ => false end.

(** [min(a, b)]: the first argument unless the second is strictly smaller. *)
Definition min_Q (a b : Q) : Q := if Qltb b a then b else a.

(** [max(a, b)]: the first argument unless the second is strictly larger. *)
Definition max_Q (a b : Q) : Q := if Qltb a b then b else a.

(** [int(x)] on a float: truncation toward zero. *)
Definition int_Q (q : Q) : Z := Z.quot (Qnum q) (Zpos (Qden q)).

(** [int(a * b / 1000)] for integers [a], [b]: the true quotient is a float
    and [int] truncates it toward zero. *)
Definition int_div (a b : Z) : Z := Z.quot a b.

(** Truth value of an [Optional[float]]: [None] and [0.0] are falsy. *)
Definition truthy_time (t : option Q) : bool :=
  match t with
  | None => false
  | Some v => negb (Qeq_bool v 0)
  end.

(** [c.lower()] on an ASCII character. *)
Definition lower_ascii (c : ascii) : ascii :=
  let n := nat_of_ascii c in
  if (65 <=? n)%nat && (n <=? 90)%nat then ascii_of_nat (n + 32) else c.

(** [s.lower()] on an ASCII string. *)
Fixpoint lower (s : string) : string :=
  match s with
  | EmptyString => EmptyString
  | String c r => String (lower_ascii c) (lower r)
  end.

(** [s.split(" ")[-1]]: the text after the last space. *)
Fixpoint last_word_acc (acc s : string) : string :=
  match s with
  | EmptyString => acc
  | String c r =>
      if Ascii.eqb c " " then last_word_acc EmptyString r
      else last_word_acc (acc ++ String c EmptyString) r
  end.

Definition last_word (s : string) : string := last_word_acc EmptyString s.

(** Characters removed by [str.strip()] in the ASCII range. *)
Definition is_space (c : ascii) : bool :=
  let n := nat_of_ascii c in
  ((9 <=? n)%nat && (n <=? 13)%nat) || ((28 <=? n)%nat && (n <=? 32)%nat).

Fixpoint lstrip (s : string) : string :=
  match s with
  | EmptyString => EmptyString
  | String c r => if is_space c then lstrip r else s
  end.

Fixpoint rev_string_acc (acc s : string) : string :=
  match s with
  | EmptyString => acc
  | String c r => rev_string_acc (String c acc) r
  end.

Definition rev_string (s : string) : string := rev_string_acc EmptyString s.

(** [s.strip()]. *)
Definition strip (s : string) : string :=
  rev_string (lstrip (rev_string (lstrip s))).

(** [d.get(key, default)] on a dictionary kept as an association list. *)
Fixpoint dict_get {A : Type} (d : list (string * A)) (key : string) : option A :=
  match d with
  | [] => None
  | (k, v) :: r => if String.eqb k key then Some v else dict_get r key
  end.

Definition dict_get_default {A : Type} (d : list (string * A)) (key : string)
    (default : A) : A :=
  match dict_get d key with Some v => v | None => default end.

End Py.

(** ** config.py *)

Module config.

Open Scope Q_scope.

Record AudioSignature : Type := {
  sig_type : string;
  freq : Z;
  waveform : string
}.

Definition mk_sig (t : string) (f : Z) (w : string) : AudioSignature :=
  {| sig_type := t; freq := f; waveform := w |}.

Definition default_signature : AudioSignature := mk_sig "tone" 330 "sine".

Definition AUDIO_SIGNATURES : list (string * AudioSignature) :=
  [ ("person"%string, mk_sig "heartbeat" 80 "pulse");
    ("phone"%string, mk_sig "tone" 440 "sine");
    ("door"%string, mk_sig "hum" 120 "sine");
    ("chair"%string, mk_sig "click" 800 "square");
    ("table"%string, mk_sig "click" 600 "square");
    ("cup"%string, mk_sig "tone" 660 "sine");
    ("obstacle"%string, mk_sig "warning" 1000 "sawtooth");
    ("default"%string, default_signature) ].

Definition THREAT_PRIORITIES : list (string * Q) :=
  [ ("person"%string, 1.0); ("car"%string, 1.0); ("truck"%string, 1.0);
    ("bus"%string, 1.0); ("door"%string, 0.8); ("stairs"%string, 0.9);
    ("wall"%string, 0.7); ("tree"%string, 0.8); ("pole"%string, 0.8);
    ("obstacle"%string, 0.9); ("chair"%string, 0.4); ("table"%string, 0.4);
    ("couch"%string, 0.4); ("bed"%string, 0.4); ("tv"%string, 0.3);
    ("laptop"%string, 0.2); ("phone"%string, 0.1); ("cup"%string, 0.1);
    ("bottle"%string, 0.1); ("book"%string, 0.1); ("pen"%string, 0.05);
    ("default"%string, 0.3) ].

Definition MOTION_PREDICTION_ENABLED : bool := true.
Definition PREDICTION_HORIZON_SECONDS : Q := 0.5.
Definition MIN_VELOCITY_THRESHOLD : Q := 5.

Record Zone : Type := {
  zone_min : Q;
  zone_max : Q;
  zone_color : Z * Z * Z
}.

(** Kept in insertion order, the order in which [dict.items()] yields. *)
Definition PROXIMITY_ZONES : list (string * Zone) :=
  [ ("safe"%string, {| zone_min := 0.0; zone_max := 0.3; zone_color := (0, 255, 0)%Z |});
    ("caution"%string, {| zone_min := 0.3; zone_max := 0.6; zone_color := (0, 255, 255)%Z |});
    ("warning"%string, {| zone_min := 0.6; zone_max := 1.0; zone_color := (0, 0, 255)%Z |}) ].

Definition MAX_AZIMUTH_DEGREES : Z := 80.

End config.

(** ** object_manager.py *)

Module ObjectManager.

Open Scope Q_scope.

(** A bounding box [(x, y, w, h)] in pixels. *)
Definition BBox : Type := (Z * Z * Z * Z)%type.

Definition bx (b : BBox) : Z := let '(x, _, _, _) := b in x.
Definition by_ (b : BBox) : Z := let '(_, y, _, _) := b in y.
Definition bw (b : BBox) : Z := let '(_, _, w, _) := b in w.
Definition bh (b : BBox) : Z := let '(_, _, _, h) := b in h.

(** A video frame as the code reads it: [frame.shape[0]] (rows) and
    [frame.shape[1]] (columns).  Pixel contents only reach OpenCV. *)
Record Frame : Type := {
  shape0 : Z;
  shape1 : Z
}.

(** What one call of [tracker.update(frame)] does. *)
Inductive TrackerUpdate : Type :=
| UpdateOk (b : BBox)
| UpdateFail (b : BBox)
| UpdateRaise.

(** A [cv2.Tracker], observed through its [update]. *)
Definition Tracker : Type := Frame -> TrackerUpdate.

(** An image patch ([np.ndarray]); the code reads its [shape[:2]]. *)
Record Template : Type := {
  templ_shape0 : Z;
  templ_shape1 : Z
}.

Record TrackedObject : Type := {
  id : Z;
  label : string;
  bbox : BBox;
  tracker : option Tracker;
  confidence : Q;
  audio_signature : config.AudioSignature;
  color : Z * Z * Z;
  last_update : Q;
  velocity : option (Q * Q);
  predicted_bbox : option BBox;
  threat_score : Q;
  is_lost : bool;
  lost_time : option Q;
  template : option Template;
  last_template_update : Q;
  context : option string;
  last_verified : Q
}.

(** Attribute assignments [obj.field = v]. *)

Definition set_bbox (o : TrackedObject) (v : BBox) : TrackedObject :=
  {| id := id o; label := label o; bbox := v; tracker := tracker o;
     confidence := confidence o; audio_signature := audio_signature o;
     color := color o; last_update := last_update o; velocity := velocity o;
     predicted_bbox := predicted_bbox o; threat_score := threat_score o;
     is_lost := is_lost o; lost_time := lost_time o; template := template o;
     last_template_update := last_template_update o; context := context o;
     last_verified := last_verified o |}.

Definition set_last_update (o : TrackedObject) (v : Q) : TrackedObject :=
  {| id := id o; label := label o; bbox := bbox o; tracker := tracker o;
     confidence := confidence o; audio_signature := audio_signature o;
     color := color o; last_update := v; velocity := velocity o;
     predicted_bbox := predicted_bbox o; threat_score := threat_score o;
     is_lost := is_lost o; lost_time := lost_time o; template := template o;
     last_template_update := last_template_update o; context := context o;
     last_verified := last_verified o |}.

Definition set_velocity (o : TrackedObject) (v : option (Q * Q)) : TrackedObject :=
  {| id := id o; label := label o; bbox := bbox o; tracker := tracker o;
     confidence := confidence o; audio_signature := audio_signature o;
     color := color o; last_update := last_update o; velocity := v;
     predicted_bbox := predicted_bbox o; threat_score := threat_score o;
     is_lost := is_lost o; lost_time := lost_time o; template := template o;
     last_template_update := last_template_update o; context := context o;
     last_verified := last_verified o |}.

Definition set_predicted_bbox (o : TrackedObject) (v : option BBox) : TrackedObject :=
  {| id := id o; label := label o; bbox := bbox o; tracker := tracker o;
     confidence := confidence o; audio_signature := audio_signature o;
     color := color o; last_update := last_update o; velocity := velocity o;
     predicted_bbox := v; threat_score := threat_score o;
     is_lost := is_lost o; lost_time := lost_time o; template := template o;
     last_template_update := last_template_update o; context := context o;
     last_verified := last_verified o |}.

Definition set_threat_score (o : TrackedObject) (v : Q) : TrackedObject :=
  {| id := id o; label := label o; bbox := bbox o; tracker := tracker o;
     confidence := confidence o; audio_signature := audio_signature o;
     color := color o; last_update := last_update o; velocity := velocity o;
     predicted_bbox := predicted_bbox o; threat_score := v;
     is_lost := is_lost o; lost_time := lost_time o; template := template o;
     last_template_update := last_template_update o; context := context o;
     last_verified := last_verified o |}.

Definition set_is_lost (o : TrackedObject) (v : bool) : TrackedObject :=
  {| id := id o; label := label o; bbox := bbox o; tracker := tracker o;
     confidence := confidence o; audio_signature := audio_signature o;
     color := color o; last_update := last_update o; velocity := velocity o;
     predicted_bbox := predicted_bbox o; threat_score := threat_score o;
     is_lost := v; lost_time := lost_time o; template := template o;
     last_template_update := last_template_update o; context := context o;
     last_verified := last_verified o |}.

Definition set_lost_time (o : TrackedObject) (v : option Q) : TrackedObject :=
  {| id := id o; label := label o; bbox := bbox o; tracker := tracker o;
     confidence := confidence o; audio_signature := audio_signature o;
     color := color o; last_update := last_update o; velocity := velocity o;
     predicted_bbox := predicted_bbox o; threat_score := threat_score o;
     is_lost := is_lost o; lost_time := v; template := template o;
     last_template_update := last_template_update o; context := context o;
     last_verified := last_verified o |}.

Definition set_context (o : TrackedObject) (v : option string) : TrackedObject :=
  {| id := id o; label := label o; bbox := bbox o; tracker := tracker o;
     confidence := confidence o; audio_signature := audio_signature o;
     color := color o; last_update := last_update o; velocity := velocity o;
     predicted_bbox := predicted_bbox o; threat_score := threat_score o;
     is_lost := is_lost o; lost_time := lost_time o; template := template o;
     last_template_update := last_template_update o; context := v;
     last_verified := last_verified o |}.

Definition set_last_verified (o : TrackedObject) (v : Q) : TrackedObject :=
  {| id := id o; label := label o; bbox := bbox o; tracker := tracker o;
     confidence := confidence o; audio_signature := audio_signature o;
     color := color o; last_update := last_update o; velocity := velocity o;
     predicted_bbox := predicted_bbox o; threat_score := threat_score o;
     is_lost := is_lost o; lost_time := lost_time o; template := template o;
     last_template_update := last_template_update o; context := context o;
     last_verified := v |}.

(** [TrackedObject.update_velocity].  [self.bbox] is a 4-tuple, hence
    truthy, so the velocity branch is always taken. *)
Definition update_velocity (now : Q) (o : TrackedObject) (new_bbox : BBox)
    : TrackedObject :=
  let old_center_x := inject_Z (bx (bbox o)) + inject_Z (bw (bbox o)) / 2 in
  let old_center_y := inject_Z (by_ (bbox o)) + inject_Z (bh (bbox o)) / 2 in
  let new_center_x := inject_Z (bx new_bbox) + inject_Z (bw new_bbox) / 2 in
  let new_center_y := inject_Z (by_ new_bbox) + inject_Z (bh new_bbox) / 2 in
  let vx := new_center_x - old_center_x in
  let vy := new_center_y - old_center_y in
  let o1 := set_velocity o (Some (vx, vy)) in
  let o2 := set_bbox o1 new_bbox in
  set_last_update o2 now.

(** [TrackedObject.predict_position]. *)
Definition predict_position (horizon_seconds : Q) (o : TrackedObject)
    : TrackedObject :=
  match velocity o with
  | None => set_predicted_bbox o (Some (bbox o))
  | Some (vx, vy) =>
      if Py.Qltb (Qabs vx) config.MIN_VELOCITY_THRESHOLD
         && Py.Qltb (Qabs vy) config.MIN_VELOCITY_THRESHOLD
      then set_predicted_bbox o (Some (bbox o))
      else
        let frames_ahead := horizon_seconds * 30 in
        let pred_x := inject_Z (bx (bbox o)) + vx * frames_ahead in
        let pred_y := inject_Z (by_ (bbox o)) + vy * frames_ahead in
        set_predicted_bbox o
          (Some (Py.int_Q pred_x, Py.int_Q pred_y, bw (bbox o), bh (bbox o)))
  end.

(** The manager's own state: [self.objects] and [self.next_id]. *)
Record t : Type := {
  objects : list TrackedObject;
  next_id : Z
}.

Definition init : t := {| objects := []; next_id := 0 |}.

Definition color_palette : list (Z * Z * Z) :=
  [ (255, 0, 0); (0, 255, 0); (0, 0, 255);
    (255, 255, 0); (255, 0, 255); (0, 255, 255) ]%Z.

(** [add_object]: the new object and the manager after the append. *)
Definition add_object (now : Q) (om : t) (lbl : string) (b : BBox)
    (conf : Q) (ctx : option string) : t * TrackedObject :=
  let audio_sig :=
    Py.dict_get_default config.AUDIO_SIGNATURES lbl config.default_signature in
  let col :=
    nth (Z.to_nat (next_id om mod Z.of_nat (List.length color_palette)))
        color_palette (0, 0, 0)%Z in
  let obj :=
    {| id := next_id om; label := lbl; bbox := b; tracker := None;
       confidence := conf; audio_signature := audio_sig; color := col;
       last_update := now; velocity := None; predicted_bbox := None;
       threat_score := 0.0; is_lost := false; lost_time := None;
       template := None; last_template_update := 0.0; context := ctx;
       last_verified := now |} in
  ({| objects := objects om ++ [obj]; next_id := (next_id om + 1)%Z |}, obj).

(** [remove_object]. *)
Definition remove_object (om : t) (obj_id : Z) : t :=
  {| objects := filter (fun obj => negb (id obj =? obj_id)%Z) (objects om);
     next_id := next_id om |}.

(** The threat score of one tick, as [update_trackers] computes it from
    the box the tracker returned.  [None] is the [ZeroDivisionError] that
    Python raises on an empty frame ([x / 0.0]). *)
Definition tick_threat (lbl : string) (b : BBox) (frame : Frame) : option Q :=
  let area := (bw b * bh b)%Z in
  let frame_area := (shape0 frame * shape1 frame)%Z in
  if Qeq_bool (inject_Z frame_area * 0.5) 0 then None
  else
    let size_score := Py.min_Q 1.0 (inject_Z area / (inject_Z frame_area * 0.5)) in
    let label_key := Py.last_word (Py.lower lbl) in
    let semantic_score :=
      Py.dict_get_default config.THREAT_PRIORITIES label_key 0.3 in
    let center_x := inject_Z (bx b) + inject_Z (bw b) / 2 in
    let frame_center_x := inject_Z (shape1 frame) / 2 in
    if Qeq_bool (inject_Z (shape1 frame) / 2) 0 then None
    else
      let dist_from_center :=
        Qabs (center_x - frame_center_x) / (inject_Z (shape1 frame) / 2) in
      let centrality_score := 1.0 - Py.min_Q 1.0 dist_from_center in
      Some ((size_score * 0.7) + (centrality_score * 0.3)).

Definition mark_lost (now : Q) (o : TrackedObject) : TrackedObject :=
  if is_lost o then o
  else set_lost_time (set_is_lost o true) (Some now).

(** The body of the loop of [update_trackers] for one object: the object
    after the iteration and whether it was appended to [tracked]. *)
Definition update_one (now : Q) (frame : Frame) (o : TrackedObject)
    : TrackedObject * bool :=
  match tracker o with
  | None => (mark_lost now o, false)
  | Some trk =>
      match trk frame with
      | UpdateRaise => (o, false)
      | UpdateFail _ => (mark_lost now o, false)
      | UpdateOk b =>
          let o1 := update_velocity now o b in
          let o2 := set_lost_time (set_is_lost o1 false) None in
          let o3 :=
            if config.MOTION_PREDICTION_ENABLED
            then predict_position config.PREDICTION_HORIZON_SECONDS o2
            else o2 in
          match tick_threat (label o3) b frame with
          | None => (o3, false)
          | Some score => (set_threat_score o3 score, true)
          end
      end
  end.

(** [update_trackers]: the objects after the tick and the returned list
    of successfully tracked objects. *)
Definition update_trackers (now : Q) (frame : Frame) (om : t)
    : t * list TrackedObject :=
  let results := map (update_one now frame) (objects om) in
  ({| objects := map fst results; next_id := next_id om |},
   map fst (filter snd results)).

(** [compute_iou]. *)
Definition compute_iou (box1 box2 : BBox) : Q :=
  let '(x1, y1, w1, h1) := box1 in
  let '(x2, y2, w2, h2) := box2 in
  let xA := Z.max x1 x2 in
  let yA := Z.max y1 y2 in
  let xB := Z.min (x1 + w1) (x2 + w2) in
  let yB := Z.min (y1 + h1) (y2 + h2) in
  let interArea := (Z.max 0 (xB - xA) * Z.max 0 (yB - yA))%Z in
  let box1Area := (w1 * h1)%Z in
  let box2Area := (w2 * h2)%Z in
  if (box1Area + box2Area - interArea =? 0)%Z then 0.0
  else inject_Z interArea / inject_Z (box1Area + box2Area - interArea).

(** [cleanup_stale_trackers]. *)
Definition cleanup_stale_trackers (now : Q) (max_age : Q) (om : t) : t * bool :=
  let active_count := List.length (objects om) in
  let kept :=
    filter (fun obj => Py.Qltb (now - last_verified obj) max_age) (objects om) in
  let removed := (Z.of_nat active_count - Z.of_nat (List.length kept))%Z in
  ({| objects := kept; next_id := next_id om |}, (0 <? removed)%Z).

(** The loop of [get_proximity_zone] over the zone table. *)
Fixpoint first_zone (zones : list (string * config.Zone)) (size_ratio : Q)
    : option string :=
  match zones with
  | [] => None
  | (zone_name, zone_config) :: rest =>
      if Qle_bool (config.zone_min zone_config) size_ratio
         && Py.Qltb size_ratio (config.zone_max zone_config)
      then Some zone_name
      else first_zone rest size_ratio
  end.

(** [get_proximity_zone].  [obj.bbox] is a 4-tuple, so the guard
    [if not obj.bbox] never fires.  [None] is the [ZeroDivisionError] of
    [obj_area / frame_area] on a frame of area zero. *)
Definition get_proximity_zone (obj : TrackedObject) (frame_width frame_height : Z)
    : option string :=
  let obj_area := (bw (bbox obj) * bh (bbox obj))%Z in
  let frame_area := (frame_width * frame_height)%Z in
  if (frame_area =? 0)%Z then None
  else
    let size_ratio := inject_Z obj_area / inject_Z frame_area in
    match first_zone config.PROXIMITY_ZONES size_ratio with
    | Some zone_name => Some zone_name
    | None => Some "safe"%string
    end.

End ObjectManager.

(** ** mode_controller.py *)

Module ModeController.

Import ObjectManager.
Open Scope Q_scope.

(** One record of a detection batch.  [box_2d] is
    [det.get("box_2d", [])]; [det_label] is [None] when the key is absent,
    in which case the code reads ["unknown"]. *)
Record Detection : Type := {
  box_2d : list Z;
  det_label : option string
}.

Definition newline : ascii := ascii_of_nat 10.

(** The tail [(.*?)\]] of the context pattern: the text before the first
    closing bracket, if no line break comes first. *)
Fixpoint until_close (s : string) : option string :=
  match s with
  | EmptyString => None
  | String c r =>
      if Ascii.eqb c "]" then Some EmptyString
      else if Ascii.eqb c newline then None
      else option_map (String c) (until_close r)
  end.

(** [re.search(r"^(.*?)\[(.*?)\]", label)]: groups 1 and 2 of the match.
    Group 1 grows lazily; an opening bracket that cannot be closed is
    taken into group 1 and the search goes on. *)
Fixpoint search_context (s : string) : option (string * string) :=
  match s with
  | EmptyString => None
  | String c r =>
      let extend := option_map (fun pq => (String c (fst pq), snd pq)) in
      if Ascii.eqb c "[" then
        match until_close r with
        | Some q => Some (EmptyString, q)
        | None => extend (search_context r)
        end
      else if Ascii.eqb c newline then None
      else extend (search_context r)
  end.

(** The clean label and the context of a detection label. *)
Definition parse_label (lbl : string) : string * option string :=
  match search_context lbl with
  | Some (p, q) => (Py.strip p, Some (Py.strip q))
  | None => (lbl, None)
  end.

(** Conversion of a normalised box to pixels, clamped to the frame.
    [None] is a [continue]: a box without four coordinates, or one smaller
    than 5x5 after the conversion. *)
Definition convert_box (frame : Frame) (box : list Z) : option BBox :=
  let frame_height := shape0 frame in
  let frame_width := shape1 frame in
  match box with
  | [y_min; x_min; y_max; x_max] =>
      let x := Py.int_div (x_min * frame_width) 1000 in
      let y := Py.int_div (y_min * frame_height) 1000 in
      let w := Py.int_div ((x_max - x_min) * frame_width) 1000 in
      let h := Py.int_div ((y_max - y_min) * frame_height) 1000 in
      let x := Z.max 0 (Z.min x (frame_width - 1)) in
      let y := Z.max 0 (Z.min y (frame_height - 1)) in
      let w := Z.max 1 (Z.min w (frame_width - x)) in
      let h := Z.max 1 (Z.min h (frame_height - y)) in
      if (w <? 5)%Z || (h <? 5)%Z then None
      else Some (x, y, w, h)
  | _ => None
  end.

(** The metadata refresh applied to a matched object. *)
Definition refresh (now : Q) (ctx : option string) (o : TrackedObject)
    : TrackedObject :=
  set_lost_time
    (set_is_lost (set_context (set_last_verified o now) ctx) false) None.

(** One visit of the inner loop to an object with the detection's label:
    the object afterwards and whether the loop breaks ([matched]). *)
Definition reconcile (now : Q) (ctx : option string) (new_bbox : BBox)
    (existing_obj : TrackedObject) : TrackedObject * bool :=
  let iou := compute_iou (bbox existing_obj) new_bbox in
  let should_update_bbox :=
    if is_lost existing_obj then Py.Qltb 0.1 iou else Py.Qltb 0.6 iou in
  let o1 :=
    if should_update_bbox then set_bbox existing_obj new_bbox
    else existing_obj in
  if Py.Qltb 0.1 iou then (refresh now ctx o1, true)
  else (o1, false).

(** The inner loop over [self.object_manager.objects]: the objects after
    the loop and the final value of [matched]. *)
Fixpoint match_existing (now : Q) (lbl : string) (ctx : option string)
    (new_bbox : BBox) (objs : list TrackedObject)
    : list TrackedObject * bool :=
  match objs with
  | [] => ([], false)
  | existing_obj :: rest =>
      if String.eqb (label existing_obj) lbl then
        let '(o', matched) := reconcile now ctx new_bbox existing_obj in
        if matched then (o' :: rest, true)
        else
          let '(rest', m) := match_existing now lbl ctx new_bbox rest in
          (o' :: rest', m)
      else
        let '(rest', m) := match_existing now lbl ctx new_bbox rest in
        (existing_obj :: rest', m)
  end.

(** The body of the outer loop for one detection: the manager afterwards
    and the number of objects added (0 or 1). *)
Definition process_detection (now : Q) (frame : Frame) (om : t)
    (det : Detection) : t * Z :=
  let lbl0 :=
    match det_label det with Some l => l | None => "unknown"%string end in
  match convert_box frame (box_2d det) with
  | None => (om, 0%Z)
  | Some new_bbox =>
      let '(lbl, ctx) := parse_label lbl0 in
      let '(objs', matched) :=
        match_existing now lbl ctx new_bbox (objects om) in
      let om1 := {| objects := objs'; next_id := next_id om |} in
      if matched then (om1, 0%Z)
      else (fst (add_object now om1 lbl new_bbox 1.0 ctx), 1%Z)
  end.

(** [process_detections]: the manager afterwards and the returned count. *)
Fixpoint process_detections_from (now : Q) (frame : Frame) (om : t)
    (count : Z) (detections : list Detection) : t * Z :=
  match detections with
  | [] => (om, count)
  | det :: rest =>
      let '(om', added) := process_detection now frame om det in
      process_detections_from now frame om' (count + added)%Z rest
  end.

Definition process_detections (now : Q) (frame : Frame) (om : t)
    (detections : list Detection) : t * Z :=
  process_detections_from now frame om 0%Z detections.

(** [sorted(objs, key=lambda o: o.threat_score, reverse=True)]: descending
    by key; Python's sort is stable, also under [reverse], so objects of
    equal score keep their order. *)
Fixpoint insert_by_threat (o : TrackedObject) (sorted : list TrackedObject)
    : list TrackedObject :=
  match sorted with
  | [] => [o]
  | p :: rest =>
      if Py.Qltb (threat_score o) (threat_score p)
      then p :: insert_by_threat o rest
      else o :: p :: rest
  end.

Fixpoint sorted_by_threat (objs : list TrackedObject) : list TrackedObject :=
  match objs with
  | [] => []
  | o :: rest => insert_by_threat o (sorted_by_threat rest)
  end.

(** [get_main_threat]. *)
Definition get_main_threat (om : t) : option TrackedObject :=
  match objects om with
  | [] => None
  | _ => hd_error (sorted_by_threat (objects om))
  end.

(** [check_lost_threats]: the manager afterwards and the returned flag. *)
Definition check_lost_threats (now : Q) (om : t) : t * bool :=
  match get_main_threat om with
  | None => (om, false)
  | Some main_threat =>
      if is_lost main_threat && Py.truthy_time (lost_time main_threat) then
        let elapsed :=
          now - match lost_time main_threat with Some v => v | None => 0 end in
        if Py.Qltb 0.3 (threat_score main_threat) && Py.Qltb 2.0 elapsed
        then (remove_object om (id main_threat), true)
        else (om, false)
      else (om, false)
  end.

End ModeController.

(** ** vision_module.py *)

Module VisionModule.

Import ObjectManager.
Open Scope Q_scope.

(** [cv2.matchTemplate] followed by [cv2.minMaxLoc]: the best score and
    its location [(x, y)], or [None] when OpenCV raises. *)
Definition Matcher : Type := Frame -> Template -> option (Q * (Z * Z)).

(** [attempt_local_recovery]: the pair [(success, bbox)]. *)
Definition attempt_local_recovery (matchTemplate : Matcher) (frame : Frame)
    (tracked_object : TrackedObject) : bool * option BBox :=
  match template tracked_object with
  | None => (false, None)
  | Some templ =>
      let h_templ := templ_shape0 templ in
      let w_templ := templ_shape1 templ in
      let h_frame := shape0 frame in
      let w_frame := shape1 frame in
      if (h_frame <? h_templ)%Z || (w_frame <? w_templ)%Z then (false, None)
      else
        match matchTemplate frame templ with
        | None => (false, None)
        | Some (max_val, max_loc) =>
            if Py.Qltb 0.7 max_val
            then (true, Some (fst max_loc, snd max_loc, w_templ, h_templ))
            else (false, None)
        end
  end.

End VisionModule.

(** ** audio_hrtf.py *)

Module AudioHrtf.

Open Scope R_scope.

(** What [_update_scene] reads of an object of the snapshot.
    [threat_score] is [None] when [hasattr(obj, 'threat_score')] is false. *)
Record SceneObject : Type := {
  id : Z;
  label : string;
  bbox : ObjectManager.BBox;
  threat_score : option R
}.

(** What [_update_scene] sends to OpenAL for one source: the arguments of
    [alSourcefv(source, AL_POSITION, ...)] and [alSourcef(source, AL_GAIN, ...)]. *)
Record SourceUpdate : Type := {
  source_of : Z;
  al_position : R * R * R;
  al_gain : R
}.

Definition width : R := 1280.
Definition height : R := 720.

(** The distance estimate and the distance gain of a box.  [None] stands
    for the exception Python raises when [area + 1] is zero
    ([ZeroDivisionError]) or negative ([math.sqrt] of a negative number). *)
Definition spatial_gain (b : ObjectManager.BBox) : option (R * R) :=
  let area := (ObjectManager.bw b * ObjectManager.bh b)%Z in
  let max_area := width * height * 0.5 in
  if (area + 1 <=? 0)%Z then None
  else
    let dist := Rmax 0.5 (Rmin 10.0 (sqrt (max_area / (IZR area + 1)))) in
    let ref_dist := 1.0 in
    let gain := Rmin 1.0 (ref_dist / (dist * 0.5)) in
    let gain := Rmax 0.1 gain in
    Some (dist, gain).

(** The maximum found by the loop [for o in objects], started at [0.0]. *)
Definition max_threat_of (objects : list SceneObject) : R :=
  fold_left
    (fun max_threat o =>
       match threat_score o with
       | Some s => Rmax max_threat s
       | None => max_threat
       end)
    objects 0.0.

(** The ducking step: [final_gain] from [base_gain]. *)
Definition duck (max_threat : R) (obj : SceneObject) (base_gain : R) : R :=
  match threat_score obj with
  | Some s =>
      if Rlt_dec s (max_threat * 0.8) then base_gain * 0.3 else base_gain
  | None => base_gain
  end.

(** One iteration of the loop of [_update_scene].  [obj.bbox] is a
    4-tuple, so the guard [if not obj.bbox] never fires. *)
Definition scene_entry (objects : list SceneObject) (obj : SceneObject)
    : option SourceUpdate :=
  let cx := IZR (ObjectManager.bx (bbox obj)) + IZR (ObjectManager.bw (bbox obj)) / 2 in
  let cy := IZR (ObjectManager.by_ (bbox obj)) + IZR (ObjectManager.bh (bbox obj)) / 2 in
  let norm_x := (cx / width) * 2 - 1 in
  let norm_y := - ((cy / height) * 2 - 1) in
  match spatial_gain (bbox obj) with
  | None => None
  | Some (dist, gain) =>
      let pos_x := norm_x * dist * 2.0 in
      let pos_y := norm_y * dist in
      let pos_z := - dist in
      let base_gain := gain in
      let max_threat := max_threat_of objects in
      let final_gain := duck max_threat obj base_gain in
      Some {| source_of := id obj;
              al_position := (pos_x, pos_y, pos_z);
              al_gain := final_gain |}
  end.

Fixpoint scene_loop (objects rest : list SceneObject)
    : option (list SourceUpdate) :=
  match rest with
  | [] => Some []
  | obj :: rest' =>
      match scene_entry objects obj with
      | None => None
      | Some e => option_map (cons e) (scene_loop objects rest')
      end
  end.

(** [_update_scene] with OpenAL available: the updates sent, in order, or
    [None] when an exception leaves the loop. *)
Definition update_scene (objects : list SceneObject)
    : option (list SourceUpdate) :=
  scene_loop objects objects.

End AudioHrtf.

(** ** audio_module_multi.py *)

Module AudioModuleMulti.

Open Scope R_scope.

(** One entry of [self.sources]. *)
Record Source : Type := {
  azimuth : R;
  volume : R;
  signature : string;
  position : Z
}.

(** [self.signatures]: a waveform per signature name. *)
Definition Signatures : Type := list (string * list R).

(** [np.clip(x, lo, hi)]. *)
Definition clip (x lo hi : R) : R := Rmin (Rmax x lo) hi.

(** [self.signatures.get(name, self.signatures["default"])].  The default
    is evaluated first: a table without ["default"] raises [KeyError]. *)
Definition get_signature (sigs : Signatures) (name : string)
    : option (list R) :=
  match Py.dict_get sigs "default" with
  | None => None
  | Some d => Some (Py.dict_get_default sigs name d)
  end.

(** The sampling loop [for i in range(frames)], looping over the
    signature. *)
Fixpoint sample_loop (frames : nat) (sig : list R) (pos : Z) : list R :=
  match frames with
  | O => []
  | S k =>
      nth (Z.to_nat (pos mod Z.of_nat (List.length sig))) sig 0
      :: sample_loop k sig (pos + 1)
  end.

(** [channel += samples * gain]. *)
Definition mix_into (channel samples : list R) (gain : R) : list R :=
  map (fun cs => fst cs + snd cs * gain) (combine channel samples).

(** The mixing loop over [self.sources.items()]: the two channels and the
    sources with their advanced positions.  [None] is an exception: a
    missing default signature, or [position % 0] on an empty waveform. *)
Fixpoint mix_sources (frames : nat) (sigs : Signatures)
    (sources : list (Z * Source)) (left_channel right_channel : list R)
    : option (list R * list R * list (Z * Source)) :=
  match sources with
  | [] => Some (left_channel, right_channel, [])
  | (obj_id, source_data) :: rest =>
      match get_signature sigs (signature source_data) with
      | None => None
      | Some sig =>
          let pan :=
            clip (azimuth source_data / IZR config.MAX_AZIMUTH_DEGREES)
                 (-1.0) 1.0 in
          let angle := (pan + 1.0) * PI / 4 in
          let left_gain := cos angle * volume source_data in
          let right_gain := sin angle * volume source_data in
          if (0 <? frames)%nat && (List.length sig =? 0)%nat then None
          else
            let samples := sample_loop frames sig (position source_data) in
            let source_data' :=
              {| azimuth := azimuth source_data;
                 volume := volume source_data;
                 signature := signature source_data;
                 position := (position source_data + Z.of_nat frames)%Z |} in
            match
              mix_sources frames sigs rest
                (mix_into left_channel samples left_gain)
                (mix_into right_channel samples right_gain)
            with
            | None => None
            | Some (l, r, rest') => Some (l, r, (obj_id, source_data') :: rest')
            end
      end
  end.

(** [np.abs(channel).max()]; [None] on an empty array, where numpy raises. *)
Fixpoint abs_max (channel : list R) : option R :=
  match channel with
  | [] => None
  | x :: rest =>
      match abs_max rest with
      | None => Some (Rabs x)
      | Some m => Some (Rmax (Rabs x) m)
      end
  end.

(** [_audio_callback]: the two columns written to [outdata] and the
    sources afterwards. *)
Definition audio_callback (frames : nat) (sigs : Signatures)
    (sources : list (Z * Source))
    : option (list R * list R * list (Z * Source)) :=
  let left_channel := repeat 0.0 frames in
  let right_channel := repeat 0.0 frames in
  match mix_sources frames sigs sources left_channel right_channel with
  | None => None
  | Some (left_channel, right_channel, sources') =>
      match abs_max left_channel, abs_max right_channel with
      | Some ml, Some mr =>
          let max_val := Rmax ml mr in
          if Rlt_dec 1.0 max_val
          then Some (map (fun s => s / max_val) left_channel,
                     map (fun s => s / max_val) right_channel,
                     sources')
          else Some (left_channel, right_channel, sources')
      | _, _ => None
      end
  end.

End AudioModuleMulti.

(** ** Concrete scenes used by the examples below *)

Module Scenarios.

Import ObjectManager.
Open Scope Q_scope.

(** A tracked object given by the fields the examples vary; the others
    hold the values [add_object] gives a new object. *)
Definition tracked (i : Z) (lbl : string) (b : BBox) (lost : bool)
    (lost_at : option Q) (score verified : Q) : TrackedObject :=
  {| id := i; label := lbl; bbox := b; tracker := None;
     confidence := 1.0;
     audio_signature :=
       Py.dict_get_default config.AUDIO_SIGNATURES lbl config.default_signature;
     color := (255, 0, 0)%Z; last_update := verified; velocity := None;
     predicted_bbox := None; threat_score := score; is_lost := lost;
     lost_time := lost_at; template := None; last_template_update := 0.0;
     context := None; last_verified := verified |}.

Definition manager (objs : list TrackedObject) (next : Z) : t :=
  {| objects := objs; next_id := next |}.

(** A 640x480 frame. *)
Definition vga : Frame := {| shape0 := 480; shape1 := 640 |}.

(** The object [o] after [init_tracker] gave it a tracker that behaves as
    [trk]. *)
Definition with_tracker (o : TrackedObject) (trk : Tracker) : TrackedObject :=
  {| id := id o; label := label o; bbox := bbox o; tracker := Some trk;
     confidence := confidence o; audio_signature := audio_signature o;
     color := color o; last_update := last_update o; velocity := velocity o;
     predicted_bbox := predicted_bbox o; threat_score := threat_score o;
     is_lost := is_lost o; lost_time := lost_time o; template := template o;
     last_template_update := last_template_update o; context := context o;
     last_verified := last_verified o |}.

(** A cup whose tracker reports it at the centre of the frame. *)
Definition centred_cup : TrackedObject :=
  with_tracker (tracked 0 "cup" (260, 190, 100, 100)%Z false None 0 0)
               (fun _ => UpdateOk (270, 190, 100, 100)%Z).

(** A person lost since time 10 with threat score 0.5, and a cup in view
    with threat score 0.2. *)
Definition lost_person : TrackedObject :=
  tracked 0 "person" (200, 100, 200, 300)%Z true (Some 10) 0.5 9.

Definition small_cup : TrackedObject :=
  tracked 1 "cup" (50, 50, 40, 40)%Z false None 0.2 9.

Definition street : t := manager [lost_person; small_cup] 2.

(** A frame of 1000x1000 pixels, on which the normalised coordinates of
    a detection are its pixel coordinates. *)
Definition frame1000 : Frame := {| shape0 := 1000; shape1 := 1000 |}.

(** A cup at [(0, 0, 100, 100)], tracked or lost since time 7. *)
Definition active_cup : TrackedObject :=
  tracked 0 "cup" (0, 0, 100, 100)%Z false None 0 0.

Definition lost_cup : TrackedObject :=
  tracked 0 "cup" (0, 0, 100, 100)%Z true (Some 7) 0 0.

(** A second tracked cup, five pixels lower. *)
Definition shifted_cup : TrackedObject :=
  tracked 1 "cup" (0, 5, 100, 100)%Z false None 0 0.

(** A detected cup in the top-left corner, 100 pixels wide and [h] high. *)
Definition cup_at (h : Z) : ModeController.Detection :=
  {| ModeController.box_2d := [0; 0; h; 100]%Z;
     ModeController.det_label := Some "cup"%string |}.

(** A detected cup in the lower right quarter of the frame. *)
Definition far_cup : ModeController.Detection :=
  {| ModeController.box_2d := [500; 500; 1000; 1000]%Z;
     ModeController.det_label := Some "cup"%string |}.

(** Three objects of a snapshot with threat scores 1.0, 0.5 and 0.1. *)
Definition scored (i : Z) (lbl : string) (b : BBox) (score : R)
    : AudioHrtf.SceneObject :=
  {| AudioHrtf.id := i; AudioHrtf.label := lbl; AudioHrtf.bbox := b;
     AudioHrtf.threat_score := Some score |}.

Definition trio : list AudioHrtf.SceneObject :=
  [ scored 0 "person" (340, 60, 600, 600)%Z 1.0%R;
    scored 1 "chair" (100, 300, 200, 200)%Z 0.5%R;
    scored 2 "cup" (900, 500, 50, 50)%Z 0.1%R ].

End Scenarios.

(** ** Vocabulary of the statements *)

Module Spec.

Import ObjectManager.
Open Scope Q_scope.

(** [m] is the object of maximal threat score in [objs], the first one in
    list order when several share the maximum. *)
Definition first_max_threat (objs : list TrackedObject) (m : TrackedObject)
    : Prop :=
  exists pre post,
    objs = pre ++ m :: post
    /\ (forall p, In p pre -> threat_score p < threat_score m)
    /\ (forall q, In q post -> threat_score q <= threat_score m).

(** [o] carries the label [lbl] and overlaps [b] with an IoU above 0.1:
    the condition under which the reconciliation loop stops at [o]. *)
Definition matches (lbl : string) (b : BBox) (o : TrackedObject) : Prop :=
  label o = lbl /\ 0.1 < compute_iou (bbox o) b.

End Spec.

(** ** object_manager.py: look-up and maintenance of the object set *)

Module ObjectSet.

Import ObjectManager.
Open Scope Q_scope.

Definition set_template (o : TrackedObject) (v : option Template) : TrackedObject :=
  {| id := id o; label := label o; bbox := bbox o; tracker := tracker o;
     confidence := confidence o; audio_signature := audio_signature o;
     color := color o; last_update := last_update o; velocity := velocity o;
     predicted_bbox := predicted_bbox o; threat_score := threat_score o;
     is_lost := is_lost o; lost_time := lost_time o; template := v;
     last_template_update := last_template_update o; context := context o;
     last_verified := last_verified o |}.

Definition set_last_template_update (o : TrackedObject) (v : Q) : TrackedObject :=
  {| id := id o; label := label o; bbox := bbox o; tracker := tracker o;
     confidence := confidence o; audio_signature := audio_signature o;
     color := color o; last_update := last_update o; velocity := velocity o;
     predicted_bbox := predicted_bbox o; threat_score := threat_score o;
     is_lost := is_lost o; lost_time := lost_time o; template := template o;
     last_template_update := v; context := context o;
     last_verified := last_verified o |}.

(** [get_object]: the first object with the given id. *)
Definition get_object (om : t) (obj_id : Z) : option TrackedObject :=
  find (fun obj => (id obj =? obj_id)%Z) (objects om).

(** [get_objects_by_label]: the comparison is case-insensitive. *)
Definition get_objects_by_label (om : t) (lbl : string) : list TrackedObject :=
  filter (fun obj => String.eqb (Py.lower (label obj)) (Py.lower lbl))
         (objects om).

(** [clear]: the list is emptied, [next_id] is not reset. *)
Definition clear (om : t) : t := {| objects := []; next_id := next_id om |}.

(** One iteration of the loop of [get_closest_object] on the pair
    [(max_area, closest)]. *)
Definition closest_step (acc : Z * option TrackedObject) (obj : TrackedObject)
    : Z * option TrackedObject :=
  let area := (bw (bbox obj) * bh (bbox obj))%Z in
  if (fst acc <? area)%Z then (area, Some obj) else acc.

(** [get_closest_object].  Its two arguments are not read; [obj.bbox] is
    a 4-tuple, so the guard [if obj.bbox] always holds. *)
Definition get_closest_object (om : t) (frame_width frame_height : Z)
    : option TrackedObject :=
  match objects om with
  | [] => None
  | _ => snd (fold_left closest_step (objects om) (0%Z, None))
  end.

(** [filter_by_labels]. *)
Definition filter_by_labels (om : t) (labels : list string) : t :=
  let labels_lower := map Py.lower labels in
  {| objects :=
       filter (fun obj =>
                 existsb (fun l => String.eqb l (Py.lower (label obj)))
                         labels_lower)
              (objects om);
     next_id := next_id om |}.

(** [self.objects.sort(key=lambda o: o.confidence, reverse=True)]:
    descending by confidence, stable. *)
Fixpoint insert_by_confidence (o : TrackedObject) (sorted : list TrackedObject)
    : list TrackedObject :=
  match sorted with
  | [] => [o]
  | p :: rest =>
      if Py.Qltb (confidence o) (confidence p)
      then p :: insert_by_confidence o rest
      else o :: p :: rest
  end.

Fixpoint sorted_by_confidence (objs : list TrackedObject) : list TrackedObject :=
  match objs with
  | [] => []
  | o :: rest => insert_by_confidence o (sorted_by_confidence rest)
  end.

(** The slice [l[:n]]; a negative [n] counts from the end. *)
Definition slice_to {A : Type} (l : list A) (n : Z) : list A :=
  if (n <? 0)%Z
  then firstn (Z.to_nat (Z.of_nat (List.length l) + n)) l
  else firstn (Z.to_nat n) l.

(** [limit_objects]. *)
Definition limit_objects (om : t) (max_count : Z) : t :=
  if (max_count <? Z.of_nat (List.length (objects om)))%Z
  then {| objects := slice_to (sorted_by_confidence (objects om)) max_count;
          next_id := next_id om |}
  else om.

(** The length of the numpy slice [a[start:stop]] along an axis of length
    [n], for non-negative [start] and [stop]. *)
Definition slice_len (start stop n : Z) : Z :=
  Z.max 0 (Z.min stop n - Z.min start n).

(** [update_template]: the object afterwards.  The patch
    [frame[y:y+h, x:x+w]] is kept through its shape. *)
Definition update_template (now : Q) (obj : TrackedObject) (frame : Frame)
    : TrackedObject :=
  let '(x, y, w, h) := bbox obj in
  let h_frame := shape0 frame in
  let w_frame := shape1 frame in
  let x := Z.max 0 (Z.min x (w_frame - 1)) in
  let y := Z.max 0 (Z.min y (h_frame - 1)) in
  let w := Z.max 1 (Z.min w (w_frame - x)) in
  let h := Z.max 1 (Z.min h (h_frame - y)) in
  if (w <? 10)%Z || (h <? 10)%Z then obj
  else
    let templ :=
      {| templ_shape0 := slice_len y (y + h) h_frame;
         templ_shape1 := slice_len x (x + w) w_frame |} in
    set_last_template_update (set_template obj (Some templ)) now.

End ObjectSet.

(** ** config.py: the navigation modes *)

Module Modes.

(** The detection prompts, by the name of their constant. *)
Inductive Prompt : Type :=
| DETECTION_PROMPT_NAVIGATION
| DETECTION_PROMPT_MULTI_OBJECT
| DETECTION_PROMPT_OBSTACLE.

(** One entry of [MODE_CONFIGS]; [filter_labels] is [None] when the entry
    has no ["filter"] key. *)
Record ModeConfig : Type := {
  prompt : Prompt;
  max_objects : Z;
  audio_focus : string;
  filter_labels : option (list string);
  description : string
}.

Definition NAVIGATION : string := "navigation".
Definition OBSTACLE : string := "obstacle".
Definition SOCIAL : string := "social".
Definition EXPLORATION : string := "exploration".

Definition DEFAULT_MODE : string := EXPLORATION.

Definition MAX_TRACKED_OBJECTS : Z := 5.

Definition MODE_CONFIGS : list (string * ModeConfig) :=
  [ (NAVIGATION,
     {| prompt := DETECTION_PROMPT_NAVIGATION; max_objects := 1;
        audio_focus := "target"; filter_labels := None;
        description := "Track a specific object" |});
    (OBSTACLE,
     {| prompt := DETECTION_PROMPT_OBSTACLE; max_objects := 5;
        audio_focus := "closest"; filter_labels := None;
        description := "Avoid obstacles in your path" |});
    (SOCIAL,
     {| prompt := DETECTION_PROMPT_MULTI_OBJECT; max_objects := 5;
        audio_focus := "people"; filter_labels := Some ["person"%string];
        description := "Detect people around you" |});
    (EXPLORATION,
     {| prompt := DETECTION_PROMPT_MULTI_OBJECT; max_objects := 5;
        audio_focus := "all"; filter_labels := None;
        description := "Explore your environment" |}) ].

End Modes.

(** ** mode_controller.py: modes and the primary object *)

Module Controller.

Import ObjectManager.

(** The controller: its mode, its target, its object manager and the
    frame dimensions, absent until [set_frame_dimensions] is called. *)
Record t : Type := {
  current_mode : string;
  target_object : string;
  object_manager : ObjectManager.t;
  frame_dimensions : option (Z * Z)
}.

Definition init : t :=
  {| current_mode := Modes.DEFAULT_MODE; target_object := "phone";
     object_manager := ObjectManager.init; frame_dimensions := None |}.

(** [set_mode]: the controller afterwards and the returned flag. *)
Definition set_mode (mc : t) (mode : string) : t * bool :=
  match Py.dict_get Modes.MODE_CONFIGS mode with
  | None => (mc, false)
  | Some _ =>
      if String.eqb mode (current_mode mc) then (mc, true)
      else
        ({| current_mode := mode; target_object := target_object mc;
            object_manager := ObjectSet.clear (object_manager mc);
            frame_dimensions := frame_dimensions mc |}, true)
  end.

(** [get_mode_config]; [None] is the empty dictionary. *)
Definition get_mode_config (mc : t) : option Modes.ModeConfig :=
  Py.dict_get Modes.MODE_CONFIGS (current_mode mc).

(** [set_target_object]. *)
Definition set_target_object (mc : t) (obj_name : string) : t :=
  {| current_mode := current_mode mc; target_object := obj_name;
     object_manager :=
       if String.eqb (current_mode mc) Modes.NAVIGATION
       then ObjectSet.clear (object_manager mc)
       else object_manager mc;
     frame_dimensions := frame_dimensions mc |}.

(** [should_filter_objects]. *)
Definition should_filter_objects (mc : t) : bool :=
  match get_mode_config mc with
  | Some cfg =>
      match Modes.filter_labels cfg with Some _ => true | None => false end
  | None => false
  end.

(** [get_object_filter]. *)
Definition get_object_filter (mc : t) : list string :=
  match get_mode_config mc with
  | Some cfg =>
      match Modes.filter_labels cfg with Some l => l | None => [] end
  | None => []
  end.

(** [get_max_objects]. *)
Definition get_max_objects (mc : t) : Z :=
  match get_mode_config mc with
  | Some cfg => Modes.max_objects cfg
  | None => Modes.MAX_TRACKED_OBJECTS
  end.

(** [get_audio_focus_strategy]. *)
Definition get_audio_focus_strategy (mc : t) : string :=
  match get_mode_config mc with
  | Some cfg => Modes.audio_focus cfg
  | None => "all"%string
  end.

(** [set_frame_dimensions]. *)
Definition set_frame_dimensions (mc : t) (width height : Z) : t :=
  {| current_mode := current_mode mc; target_object := target_object mc;
     object_manager := object_manager mc;
     frame_dimensions := Some (width, height) |}.

(** What [get_primary_object] returns: [None], one object, or the whole
    list. *)
Inductive Primary : Type :=
| NoObject
| OneObject (o : TrackedObject)
| AllObjects (l : list TrackedObject).

Definition of_option (o : option TrackedObject) : Primary :=
  match o with Some x => OneObject x | None => NoObject end.

(** [get_primary_object]. *)
Definition get_primary_object (mc : t) : Primary :=
  let strategy := get_audio_focus_strategy mc in
  match objects (object_manager mc) with
  | [] => NoObject
  | first :: _ =>
      if String.eqb strategy "target" then
        match ObjectSet.get_objects_by_label (object_manager mc)
                (target_object mc) with
        | target :: _ => OneObject target
        | [] => OneObject first
        end
      else if String.eqb strategy "closest" then
        of_option
          (ObjectSet.get_closest_object (object_manager mc)
             (match frame_dimensions mc with Some d => fst d | None => 640%Z end)
             (match frame_dimensions mc with Some d => snd d | None => 480%Z end))
      else if String.eqb strategy "people" then
        match ObjectSet.get_objects_by_label (object_manager mc) "person" with
        | person :: _ => OneObject person
        | [] => NoObject
        end
      else if String.eqb strategy "all" then
        AllObjects (objects (object_manager mc))
      else NoObject
  end.

End Controller.

(** ** audio_hrtf.py: the table of OpenAL sources *)

Module SceneSources.

Import AudioHrtf.

(** [self.sources]: the OpenAL source of each object id, in insertion
    order. *)
Definition Sources : Type := list (Z * Z).

Definition has_key (sources : Sources) (obj_id : Z) : bool :=
  existsb (fun kv => (fst kv =? obj_id)%Z) sources.

Definition get (sources : Sources) (obj_id : Z) : option Z :=
  option_map snd (find (fun kv => (fst kv =? obj_id)%Z) sources).

(** The first loop of [_update_scene] on the source table.  [alGenSources]
    gives the handle of the [n]-th source it creates.  The result is the
    table, the number of sources created, [current_ids], and whether the loop
    ran to its end; it does not when the gain computation raises. *)
Fixpoint create_sources (alGenSources : nat -> Z) (objects : list SceneObject)
    (sources : Sources) (created : nat) (current_ids : list Z)
    : Sources * nat * list Z * bool :=
  match objects with
  | [] => (sources, created, current_ids, true)
  | obj :: rest =>
      let obj_id := id obj in
      let current_ids := obj_id :: current_ids in
      match spatial_gain (bbox obj) with
      | None => (sources, created, current_ids, false)
      | Some _ =>
          if has_key sources obj_id
          then create_sources alGenSources rest sources created current_ids
          else create_sources alGenSources rest
                 (sources ++ [(obj_id, alGenSources created)])
                 (S created) current_ids
      end
  end.

(** [_update_scene] on the source table: both loops.  The second loop
    deletes the sources whose id is not in [current_ids]; an exception in the
    first loop skips it. *)
Definition update_sources (alGenSources : nat -> Z)
    (objects : list SceneObject) (sources : Sources) : Sources * bool :=
  match create_sources alGenSources objects sources 0 [] with
  | (sources', _, current_ids, true) =>
      (filter (fun kv => existsb (Z.eqb (fst kv)) current_ids) sources', true)
  | (sources', _, _, false) => (sources', false)
  end.

End SceneSources.

(** ** audio_module_multi.py: the table of sources *)

Module SourceTable.

Import AudioModuleMulti.
Open Scope R_scope.

Definition get (sources : list (Z * Source)) (obj_id : Z) : option Source :=
  option_map snd (find (fun kv => (fst kv =? obj_id)%Z) sources).

(** [d[key] = value]: an existing key keeps its place, a new one is
    appended. *)
Fixpoint put (sources : list (Z * Source)) (obj_id : Z) (v : Source)
    : list (Z * Source) :=
  match sources with
  | [] => [(obj_id, v)]
  | (k, w) :: rest =>
      if (k =? obj_id)%Z then (k, v) :: rest
      else (k, w) :: put rest obj_id v
  end.

(** [update_source]. *)
Definition update_source (sources : list (Z * Source)) (obj_id : Z)
    (az vol : R) (signature_name : string) : list (Z * Source) :=
  let pos :=
    match get sources obj_id with
    | Some s => position s
    | None => 0%Z
    end in
  put sources obj_id
    {| azimuth :=
         clip az (- IZR config.MAX_AZIMUTH_DEGREES)
              (IZR config.MAX_AZIMUTH_DEGREES);
       volume := clip vol 0.0 1.0;
       signature := signature_name;
       position := pos |}.

(** [remove_source]. *)
Definition remove_source (sources : list (Z * Source)) (obj_id : Z)
    : list (Z * Source) :=
  filter (fun kv => negb (fst kv =? obj_id)%Z) sources.

(** [clear_sources]. *)
Definition clear_sources (sources : list (Z * Source)) : list (Z * Source) :=
  [].

(** The stereo gains [(left_gain, right_gain)] the mixing loop computes
    for a source. *)
Definition pan_gains (source_data : Source) : R * R :=
  let pan :=
    clip (azimuth source_data / IZR config.MAX_AZIMUTH_DEGREES) (-1.0) 1.0 in
  let angle := (pan + 1.0) * PI / 4 in
  (cos angle * volume source_data, sin angle * volume source_data).

End SourceTable.

(** ** Invariants of the object set *)

Module Invariants.

Import ObjectManager.
Open Scope Q_scope.

(** The ids of the live objects are pairwise distinct and were all handed
    out already: they lie below [next_id]. *)
Definition ids_fresh (om : t) : Prop :=
  NoDup (map id (objects om))
  /\ forall o, In o (objects om) -> (id o < next_id om)%Z.

(** Every threat score lies between 0 and 1. *)
Definition scores_in_range (objs : list TrackedObject) : Prop :=
  forall o, In o objs -> 0 <= threat_score o <= 1.

(** The area of the box of an object. *)
Definition area (o : TrackedObject) : Z := (bw (bbox o) * bh (bbox o))%Z.

(** The string neither starts nor ends with a blank. *)
Definition trimmed (s : string) : Prop :=
  Py.lstrip s = s /\ Py.lstrip (Py.rev_string s) = Py.rev_string s.

(** The character [c] does not occur in [s]. *)
Definition lacks (c : ascii) (s : string) : Prop :=
  ~ In c (list_ascii_of_string s).

(** The mode is one of the keys of [MODE_CONFIGS]. *)
Definition configured (mode : string) : Prop :=
  exists cfg, Py.dict_get Modes.MODE_CONFIGS mode = Some cfg.

(** The centre of a box. *)
Definition centre (b : BBox) : Q * Q :=
  (inject_Z (bx b) + inject_Z (bw b) / 2,
   inject_Z (by_ b) + inject_Z (bh b) / 2).

(** The sum of the magnitudes of the volumes of the sources. *)
Definition total_volume (sources : list (Z * AudioModuleMulti.Source)) : R :=
  fold_right (fun kv acc => (Rabs (AudioModuleMulti.volume (snd kv)) + acc)%R)
             0%R sources.

(** Every sample of every waveform has magnitude at most 1. *)
Definition waveforms_bounded (sigs : AudioModuleMulti.Signatures) : Prop :=
  forall name sig s, In (name, sig) sigs -> In s sig -> (Rabs s <= 1)%R.

(** Descending by confidence. *)
Definition by_confidence (a b : TrackedObject) : Prop :=
  confidence b <= confidence a.

End Invariants.

(** * Properties *)

(** ** Comparisons of the Python layer *)

Module PyFacts.

Open Scope Q_scope.

Lemma Qltb_true (a b : Q) : Py.Qltb a b = true <-> a < b.
Proof.
  unfold Py.Qltb. rewrite Qlt_alt.
  destruct (a ?= b); split; intro H; try reflexivity; discriminate H.
Qed.

Lemma Qltb_false (a b : Q) : Py.Qltb a b = false <-> b <= a.
Proof.
  split; intro H.
  - apply Qnot_lt_le. intro L. apply Qltb_true in L. congruence.
  - destruct (Py.Qltb a b) eqn:E; [ | reflexivity ].
    apply Qltb_true in E. exfalso. exact (Qlt_not_le _ _ E H).
Qed.

Lemma min_Q_le_l (a b : Q) : Py.min_Q a b <= a.
Proof.
  unfold Py.min_Q. destruct (Py.Qltb b a) eqn:E.
  - apply Qlt_le_weak, Qltb_true, E.
  - apply Qle_refl.
Qed.

Lemma min_Q_le_r (a b : Q) : Py.min_Q a b <= b.
Proof.
  unfold Py.min_Q. destruct (Py.Qltb b a) eqn:E.
  - apply Qle_refl.
  - apply Qltb_false, E.
Qed.

(** Order facts between a rational and decimal constants. *)
Ltac q_order := unfold Qlt, Qle, Qminus, Qplus, Qopp in *; simpl in *; nia.

Lemma min_Q_Qmin (a b : Q) : Py.min_Q a b == Qmin a b.
Proof.
  unfold Py.min_Q. destruct (Py.Qltb b a) eqn:E.
  - apply Qltb_true in E. symmetry. apply Q.min_r. apply Qlt_le_weak, E.
  - apply Qltb_false in E. symmetry. apply Q.min_l. exact E.
Qed.

End PyFacts.

(** ** Staleness eviction *)

Module CleanupProps.

Import ObjectManager.
Open Scope Q_scope.

Lemma filter_shorter {A : Type} (f : A -> bool) (l : list A) :
  (List.length (filter f l) < List.length l)%nat
  <-> exists x, In x l /\ f x = false.
Proof.
  induction l as [ | a l IH ]; simpl.
  - split; [ lia | intros (x & [] & _) ].
  - pose proof (filter_length_le f l) as Hle.
    destruct (f a) eqn:Fa; simpl.
    + split.
      * intro H. assert (H' : (List.length (filter f l) < List.length l)%nat) by lia.
        apply IH in H'. destruct H' as (x & Hx & Fx). exists x. auto.
      * intros (x & [ -> | Hx ] & Fx); [ congruence | ].
        assert (H' : (List.length (filter f l) < List.length l)%nat)
          by (apply IH; exists x; auto).
        lia.
    + split; [ intros _; exists a; auto | intros _; lia ].
Qed.

(** The objects a filter keeps are the objects at an increasing sequence of
    positions of the list, and a position is in the sequence exactly when
    the object there passes the filter. *)
Lemma kept_positions (keep : TrackedObject -> bool)
    (objs : list TrackedObject) :
  exists positions : list nat,
    StronglySorted Nat.lt positions
    /\ Forall2 (fun i o => nth_error objs i = Some o)
               positions (filter keep objs)
    /\ forall i o, nth_error objs i = Some o ->
                   (In i positions <-> keep o = true).
Proof.
  induction objs as [ | a rest IH ].
  - exists []. split; [ constructor | ]. split; [ constructor | ].
    intros i o H. destruct i; discriminate H.
  - destruct IH as (ps & Hs & Hf & Hi).
    assert (Hs' : StronglySorted Nat.lt (map S ps)).
    { clear - Hs. induction Hs as [ | p ps Hs IH Hall ]; cbn [map];
        constructor; [ exact IH | ].
      apply Forall_map. eapply Forall_impl; [ | exact Hall ].
      cbn. unfold Nat.lt. intros q Hq. lia. }
    assert (Hf' : Forall2 (fun i o => nth_error (a :: rest) i = Some o)
                          (map S ps) (filter keep rest)).
    { clear - Hf. induction Hf; cbn [map]; constructor; auto. }
    assert (Hshift : forall j, In (S j) (map S ps) <-> In j ps).
    { intro j. split.
      - intro H. apply in_map_iff in H. destruct H as (k & Hk & Hin).
        injection Hk as <-. exact Hin.
      - apply in_map. }
    assert (Hzero : ~ In 0%nat (map S ps)).
    { intro H. apply in_map_iff in H. destruct H as (k & Hk & _).
      discriminate Hk. }
    cbn [filter]. destruct (keep a) eqn:Ka.
    + exists (0%nat :: map S ps). split.
      { constructor; [ exact Hs' | ]. apply Forall_map, Forall_forall.
        unfold Nat.lt. intros q _. lia. }
      split; [ constructor; [ reflexivity | exact Hf' ] | ].
      intros i o Hn. destruct i as [ | j ]; cbn [nth_error] in Hn.
      * injection Hn as <-. split; [ intros _; exact Ka | ].
        intros _. left. reflexivity.
      * rewrite <- (Hi j o Hn), <- Hshift. split.
        -- intros [ H | H ]; [ discriminate H | exact H ].
        -- intro H. right. exact H.
    + exists (map S ps). split; [ exact Hs' | ]. split; [ exact Hf' | ].
      intros i o Hn. destruct i as [ | j ]; cbn [nth_error] in Hn.
      * injection Hn as <-. split; [ intro H; contradiction | congruence ].
      * rewrite <- (Hi j o Hn). apply Hshift.
Qed.

(** C5, as the code has it: [cleanup_stale_trackers] keeps, in order, exactly
    the objects verified less than [max_age] seconds before [now]; an object
    is removed exactly when its age [now - last_verified] is at least
    [max_age]; the flag returned is true if and only if an object was
    removed.  In order: the objects kept are the objects at an increasing
    sequence of positions of the list there was, and a position is in the
    sequence exactly when the object there was verified less than [max_age]
    seconds before [now]; so each object is kept as often as it occurs, and
    the survivors follow each other as they did. *)
Theorem cleanup_stale_trackers_spec (now max_age : Q) (om : t) :
  let om' := fst (cleanup_stale_trackers now max_age om) in
  let flag := snd (cleanup_stale_trackers now max_age om) in
  (forall o, In o (objects om') <->
             In o (objects om) /\ now - last_verified o < max_age)
  /\ (forall o, In o (objects om) ->
                (~ In o (objects om') <-> max_age <= now - last_verified o))
  /\ (flag = true <->
      exists o, In o (objects om) /\ ~ In o (objects om'))
  /\ next_id om' = next_id om
  /\ (exists positions : list nat,
        StronglySorted Nat.lt positions
        /\ Forall2 (fun i o => nth_error (objects om) i = Some o)
                   positions (objects om')
        /\ forall i o, nth_error (objects om) i = Some o ->
                       (In i positions <-> now - last_verified o < max_age)).
Proof.
  cbv zeta. unfold cleanup_stale_trackers. cbn [fst snd objects next_id].
  set (keep := fun obj => Py.Qltb (now - last_verified obj) max_age).
  assert (Hin : forall o, In o (filter keep (objects om)) <->
                          In o (objects om) /\ now - last_verified o < max_age).
  { intro o. rewrite filter_In. unfold keep. rewrite PyFacts.Qltb_true. tauto. }
  assert (Hout : forall o, In o (objects om) ->
                 (~ In o (filter keep (objects om)) <->
                  max_age <= now - last_verified o)).
  { intros o Ho. rewrite Hin. split.
    - intro H. apply Qnot_lt_le. tauto.
    - intros H [_ L]. exact (Qlt_not_le _ _ L H). }
  split; [ exact Hin | ]. split; [ exact Hout | ].
  split; [ | split; [ reflexivity | ] ].
  2: { destruct (kept_positions keep (objects om)) as (ps & Hs & Hf & Hi).
       exists ps. split; [ exact Hs | ]. split; [ exact Hf | ].
       intros i o Hn. rewrite (Hi i o Hn). unfold keep.
       apply PyFacts.Qltb_true. }
  split.
  - intro H. apply Z.ltb_lt in H.
    assert (L : (List.length (filter keep (objects om))
                 < List.length (objects om))%nat) by lia.
    apply filter_shorter in L. destruct L as (x & Hx & Fx).
    exists x. split; [ exact Hx | ].
    apply Hout; [ exact Hx | ]. apply PyFacts.Qltb_false. exact Fx.
  - intros (x & Hx & Nx). apply Z.ltb_lt.
    assert (L : (List.length (filter keep (objects om))
                 < List.length (objects om))%nat).
    { apply filter_shorter. exists x. split; [ exact Hx | ].
      apply PyFacts.Qltb_false. apply Hout; assumption. }
    lia.
Qed.

(** C5, as stated, fails on the boundary: an object verified exactly
    [max_age] seconds before [now] is not "more than [max_age] seconds"
    old, and it is removed all the same. *)
Lemma cleanup_stale_trackers_boundary :
  let o := Scenarios.tracked 0 "cup" (0, 0, 10, 10)%Z false None 0 0 in
  let om := Scenarios.manager [o] 1 in
  ~ (30 < 30 - last_verified o)
  /\ objects (fst (cleanup_stale_trackers 30 30 om)) = []
  /\ snd (cleanup_stale_trackers 30 30 om) = true.
Proof.
  cbv zeta. split; [ | split; reflexivity ].
  intro H. vm_compute in H. discriminate H.
Qed.

End CleanupProps.

(** ** Proximity zones *)

Module ProximityProps.

Import ObjectManager.
Open Scope Q_scope.

Lemma first_zone_none (zones : list (string * config.Zone)) (r : Q) :
  (forall name z, In (name, z) zones ->
     ~ (config.zone_min z <= r /\ r < config.zone_max z)) ->
  first_zone zones r = None.
Proof.
  induction zones as [ | [name z] zones IH ]; intro H; simpl.
  - reflexivity.
  - assert (Hrest : first_zone zones r = None).
    { apply IH. intros n' z' Hin. apply (H n' z'). right. exact Hin. }
    destruct (Qle_bool (config.zone_min z) r) eqn:Elo;
      destruct (Py.Qltb r (config.zone_max z)) eqn:Ehi; simpl;
      try exact Hrest.
    exfalso. apply (H name z); [ left; reflexivity | ].
    split; [ apply Qle_bool_iff, Elo | apply PyFacts.Qltb_true, Ehi ].
Qed.

Lemma zones_end_at_one (name : string) (z : config.Zone) :
  In (name, z) config.PROXIMITY_ZONES -> config.zone_max z <= 1.
Proof.
  unfold config.PROXIMITY_ZONES. simpl.
  intros [ H | [ H | [ H | [] ] ] ]; inversion H; subst; simpl;
    unfold Qle; simpl; lia.
Qed.

(** C10: on a frame of non-zero area, [get_proximity_zone] answers "safe"
    whenever the ratio of the box area to the frame area lies in none of the
    half-open intervals [min <= ratio < max] of [PROXIMITY_ZONES], and so
    whenever the ratio is at least 1.0: the interval of "warning" excludes
    its upper bound 1.0. *)
Theorem get_proximity_zone_outside_is_safe
    (obj : TrackedObject) (frame_width frame_height : Z) :
  (frame_width * frame_height <> 0)%Z ->
  let size_ratio :=
    inject_Z (bw (bbox obj) * bh (bbox obj))
    / inject_Z (frame_width * frame_height) in
  ((forall name z, In (name, z) config.PROXIMITY_ZONES ->
      ~ (config.zone_min z <= size_ratio /\ size_ratio < config.zone_max z)) ->
   get_proximity_zone obj frame_width frame_height = Some "safe"%string)
  /\ (1 <= size_ratio ->
      get_proximity_zone obj frame_width frame_height = Some "safe"%string)
  /\ (forall z, In ("warning"%string, z) config.PROXIMITY_ZONES ->
      ~ (1 < config.zone_max z)).
Proof.
  intros Harea. cbv zeta.
  assert (Hout : (forall name z, In (name, z) config.PROXIMITY_ZONES ->
      ~ (config.zone_min z
         <= inject_Z (bw (bbox obj) * bh (bbox obj))
            / inject_Z (frame_width * frame_height)
         /\ inject_Z (bw (bbox obj) * bh (bbox obj))
            / inject_Z (frame_width * frame_height) < config.zone_max z)) ->
   get_proximity_zone obj frame_width frame_height = Some "safe"%string).
  { intro H. unfold get_proximity_zone.
    destruct (frame_width * frame_height =? 0)%Z eqn:E.
    - apply Z.eqb_eq in E. contradiction.
    - rewrite (first_zone_none _ _ H). reflexivity. }
  split; [ exact Hout | ]. split.
  - intro Hge. apply Hout. intros name z Hin [_ Hlt].
    pose proof (zones_end_at_one name z Hin) as Hmax.
    apply (Qlt_not_le _ _ Hlt). eapply Qle_trans; eassumption.
  - intros z Hin Hlt.
    exact (Qlt_not_le _ _ Hlt (zones_end_at_one _ z Hin)).
Qed.

(** An object that fills a 640x480 frame is classified "safe". *)
Lemma full_frame_object_is_safe :
  (640 * 480 <> 0)%Z
  /\ 1 <= inject_Z (640 * 480) / inject_Z (640 * 480)
  /\ get_proximity_zone
       (Scenarios.tracked 0 "wall" (0, 0, 640, 480)%Z false None 0 0) 640 480
     = Some "safe"%string.
Proof.
  assert (Hne : (640 * 480 <> 0)%Z) by (intro H; discriminate H).
  assert (Hge : 1 <= inject_Z (640 * 480) / inject_Z (640 * 480))
    by (intro H; discriminate H).
  split; [ exact Hne | ]. split; [ exact Hge | ].
  exact (proj1 (proj2 (get_proximity_zone_outside_is_safe
           (Scenarios.tracked 0 "wall" (0, 0, 640, 480)%Z false None 0 0)
           640 480 Hne)) Hge).
Defined.

End ProximityProps.

(** ** Local recovery by template matching *)

Module RecoveryProps.

Import ObjectManager VisionModule.
Open Scope Q_scope.

(** C9: [attempt_local_recovery] fails when the template is absent or
    exceeds the frame in either dimension; otherwise it succeeds exactly when
    the best correlation score exceeds 0.7, and then returns the box at the
    best-match position with the width and height of the template. *)
Theorem attempt_local_recovery_spec
    (matchTemplate : Matcher) (frame : Frame) (obj : TrackedObject) :
  (template obj = None ->
   attempt_local_recovery matchTemplate frame obj = (false, None))
  /\ (forall templ, template obj = Some templ ->
      (shape0 frame < templ_shape0 templ \/ shape1 frame < templ_shape1 templ)%Z ->
      attempt_local_recovery matchTemplate frame obj = (false, None))
  /\ (forall templ max_val x y, template obj = Some templ ->
      (templ_shape0 templ <= shape0 frame)%Z ->
      (templ_shape1 templ <= shape1 frame)%Z ->
      matchTemplate frame templ = Some (max_val, (x, y)) ->
      (0.7 < max_val ->
       attempt_local_recovery matchTemplate frame obj
       = (true, Some (x, y, templ_shape1 templ, templ_shape0 templ)))
      /\ (max_val <= 0.7 ->
          attempt_local_recovery matchTemplate frame obj = (false, None)))
  /\ (forall templ, template obj = Some templ ->
      matchTemplate frame templ = None ->
      attempt_local_recovery matchTemplate frame obj = (false, None)).
Proof.
  unfold attempt_local_recovery. repeat split.
  - intros ->. reflexivity.
  - intros templ -> Hbig.
    destruct (shape0 frame <? templ_shape0 templ)%Z eqn:E0; [ reflexivity | ].
    destruct (shape1 frame <? templ_shape1 templ)%Z eqn:E1; [ reflexivity | ].
    apply Z.ltb_ge in E0, E1. lia.
  - intros Hgt. rewrite H.
    apply Z.ltb_ge in H0, H1. rewrite H0, H1. simpl. rewrite H2.
    apply PyFacts.Qltb_true in Hgt. rewrite Hgt. reflexivity.
  - intros Hle. rewrite H.
    apply Z.ltb_ge in H0, H1. rewrite H0, H1. simpl. rewrite H2.
    apply PyFacts.Qltb_false in Hle. rewrite Hle. reflexivity.
  - intros templ -> Hraise. rewrite Hraise.
    destruct (_ || _); reflexivity.
Qed.

End RecoveryProps.

(** ** The per-tick threat score *)

Module ThreatProps.

Import ObjectManager.
Open Scope Q_scope.

Lemma predict_position_fields (h : Q) (o : TrackedObject) :
  id (predict_position h o) = id o
  /\ label (predict_position h o) = label o
  /\ bbox (predict_position h o) = bbox o
  /\ threat_score (predict_position h o) = threat_score o
  /\ is_lost (predict_position h o) = is_lost o
  /\ lost_time (predict_position h o) = lost_time o.
Proof.
  unfold predict_position.
  destruct (velocity o) as [ [vx vy] | ]; [ | repeat split ].
  destruct (_ && _); repeat split.
Qed.

Lemma mark_lost_fields (now : Q) (o : TrackedObject) :
  id (mark_lost now o) = id o
  /\ bbox (mark_lost now o) = bbox o
  /\ threat_score (mark_lost now o) = threat_score o
  /\ is_lost (mark_lost now o) = true.
Proof.
  unfold mark_lost. destruct (is_lost o) eqn:E; repeat split; exact E.
Qed.

Lemma half_area_nonzero (a : Z) : (0 < a)%Z -> Qeq_bool (inject_Z a * 0.5) 0 = false.
Proof.
  intro Ha. destruct (Qeq_bool (inject_Z a * 0.5) 0) eqn:E; [ | reflexivity ].
  apply Qeq_bool_eq in E. unfold Qeq in E. simpl in E. lia.
Qed.

Lemma half_width_nonzero (a : Z) : (0 < a)%Z -> Qeq_bool (inject_Z a / 2) 0 = false.
Proof.
  intro Ha. destruct (Qeq_bool (inject_Z a / 2) 0) eqn:E; [ | reflexivity ].
  apply Qeq_bool_eq in E. unfold Qeq in E. simpl in E. lia.
Qed.

(** The score of a tick does not read the label. *)
Lemma tick_threat_ignores_label (lbl1 lbl2 : string) (b : BBox) (frame : Frame) :
  tick_threat lbl1 b frame = tick_threat lbl2 b frame.
Proof. reflexivity. Qed.

Lemma tick_threat_value (lbl : string) (b : BBox) (frame : Frame) :
  (0 < shape0 frame)%Z -> (0 < shape1 frame)%Z ->
  exists score,
    tick_threat lbl b frame = Some score
    /\ score ==
       0.7 * Qmin 1.0 (inject_Z (bw b * bh b)
                       / (inject_Z (shape0 frame * shape1 frame) * 0.5))
       + 0.3 * (1.0 - Qmin 1.0
                  (Qabs (inject_Z (bx b) + inject_Z (bw b) / 2
                         - inject_Z (shape1 frame) / 2)
                   / (inject_Z (shape1 frame) / 2))).
Proof.
  intros H0 H1. unfold tick_threat.
  rewrite (half_area_nonzero _ (Z.mul_pos_pos _ _ H0 H1)).
  rewrite (half_width_nonzero _ H1).
  eexists. split; [ reflexivity | ].
  rewrite !PyFacts.min_Q_Qmin. ring.
Qed.

(** The loop body of [update_trackers] on one object. *)
Lemma update_one_threat (now : Q) (frame : Frame) (o : TrackedObject) :
  (0 < shape0 frame)%Z -> (0 < shape1 frame)%Z ->
  let o' := fst (update_one now frame o) in
  id o' = id o
  /\ match tracker o with
     | None => threat_score o' = threat_score o
     | Some trk =>
         match trk frame with
         | UpdateOk b =>
             threat_score o' ==
               0.7 * Qmin 1.0 (inject_Z (bw b * bh b)
                               / (inject_Z (shape0 frame * shape1 frame) * 0.5))
               + 0.3 * (1.0 - Qmin 1.0
                          (Qabs (inject_Z (bx b) + inject_Z (bw b) / 2
                                 - inject_Z (shape1 frame) / 2)
                           / (inject_Z (shape1 frame) / 2)))
             /\ bbox o' = b
             /\ snd (update_one now frame o) = true
         | UpdateFail _ | UpdateRaise =>
             threat_score o' = threat_score o
             /\ snd (update_one now frame o) = false
         end
     end.
Proof.
  intros H0 H1. cbv zeta. unfold update_one.
  destruct (tracker o) as [ trk | ].
  - destruct (trk frame) as [ b | b | ].
    + unfold config.MOTION_PREDICTION_ENABLED.
      set (o2 := set_lost_time (set_is_lost (update_velocity now o b) false) None).
      destruct (predict_position_fields config.PREDICTION_HORIZON_SECONDS o2)
        as (Pid & Plbl & Pbb & _).
      destruct (tick_threat_value (label (predict_position
                  config.PREDICTION_HORIZON_SECONDS o2)) b frame H0 H1)
        as (score & -> & Hs).
      cbn [fst snd id threat_score bbox set_threat_score].
      rewrite Pid, Pbb. repeat split. exact Hs.
    + destruct (mark_lost_fields now o) as (Mid & _ & Mth & _).
      cbn [fst snd]. auto.
    + cbn [fst snd]. auto.
  - destruct (mark_lost_fields now o) as (Mid & _ & Mth & _).
    cbn [fst snd]. auto.
Qed.

(** C2: on a non-empty frame, one call of [update_trackers] sets the
    threat score of every object whose tracker update succeeds to
    [0.7 * size_score + 0.3 * centrality_score], computed from the box the
    tracker returned; the label (the semantic term) does not enter; an object
    whose update fails or raises, and an object without a tracker, keeps the
    score it had. *)
Theorem update_trackers_threat_score (now : Q) (frame : Frame) (om : t) :
  (0 < shape0 frame)%Z -> (0 < shape1 frame)%Z ->
  let om' := fst (update_trackers now frame om) in
  (forall n o, nth_error (objects om) n = Some o ->
     exists o', nth_error (objects om') n = Some o'
       /\ id o' = id o
       /\ match tracker o with
          | None => threat_score o' = threat_score o
          | Some trk =>
              match trk frame with
              | UpdateOk b =>
                  let size_score :=
                    Qmin 1.0 (inject_Z (bw b * bh b)
                              / (inject_Z (shape0 frame * shape1 frame) * 0.5)) in
                  let center_x := inject_Z (bx b) + inject_Z (bw b) / 2 in
                  let frame_center_x := inject_Z (shape1 frame) / 2 in
                  let centrality_score :=
                    1.0 - Qmin 1.0 (Qabs (center_x - frame_center_x)
                                    / (inject_Z (shape1 frame) / 2)) in
                  threat_score o' == 0.7 * size_score + 0.3 * centrality_score
                  /\ bbox o' = b
                  /\ In o' (snd (update_trackers now frame om))
              | UpdateFail _ | UpdateRaise => threat_score o' = threat_score o
              end
          end)
  /\ (forall lbl1 lbl2 b, tick_threat lbl1 b frame = tick_threat lbl2 b frame).
Proof.
  intros H0 H1. cbv zeta. split; [ | intros; reflexivity ].
  intros n o Hn. unfold update_trackers. cbn [fst snd objects].
  exists (fst (update_one now frame o)).
  split.
  { rewrite map_map.
    exact (map_nth_error (fun x => fst (update_one now frame x)) n _ Hn). }
  pose proof (update_one_threat now frame o H0 H1) as Hone.
  cbv zeta in Hone. destruct Hone as [Hid Hcase].
  split; [ exact Hid | ].
  destruct (tracker o) as [ trk | ]; [ | exact Hcase ].
  destruct (trk frame) as [ b | b | ].
  - destruct Hcase as (Hs & Hb & Htracked).
    split; [ exact Hs | ]. split; [ exact Hb | ].
    apply (in_map fst). apply filter_In. split; [ | exact Htracked ].
    apply (in_map (update_one now frame)). eapply nth_error_In. exact Hn.
  - apply Hcase.
  - apply Hcase.
Qed.

(** A cup tracked to the centre of a 640x480 frame, 100x100 pixels large,
    gets the score [0.7 * (10000 / 153600) + 0.3 * 1]. *)
Lemma centred_cup_threat_score :
  (0 < shape0 Scenarios.vga)%Z /\ (0 < shape1 Scenarios.vga)%Z
  /\ exists o',
       nth_error
         (objects (fst (update_trackers 1 Scenarios.vga
                          (Scenarios.manager [Scenarios.centred_cup] 1)))) 0
       = Some o'
       /\ threat_score o' == 0.7 * (25 # 384) + 0.3.
Proof.
  split; [ reflexivity | ]. split; [ reflexivity | ].
  destruct (proj1 (update_trackers_threat_score 1 Scenarios.vga
                     (Scenarios.manager [Scenarios.centred_cup] 1)
                     eq_refl eq_refl)
                  0%nat Scenarios.centred_cup eq_refl)
    as (o' & Hn & _ & Hs & _).
  exists o'. split; [ exact Hn | ].
  rewrite Hs. reflexivity.
Defined.

End ThreatProps.

(** ** The main threat and its timeout *)

Module LostThreatProps.

Import ObjectManager ModeController.
Open Scope Q_scope.

Lemma insert_by_threat_head (o m : TrackedObject) (s : list TrackedObject) :
  hd_error (insert_by_threat o (m :: s))
  = Some (if Py.Qltb (threat_score o) (threat_score m) then m else o).
Proof.
  simpl. destruct (Py.Qltb (threat_score o) (threat_score m)); reflexivity.
Qed.

Lemma insert_by_threat_nonempty (o : TrackedObject) (s : list TrackedObject) :
  insert_by_threat o s <> [].
Proof.
  destruct s as [ | p s ]; simpl; [ discriminate | ].
  destruct (Py.Qltb _ _); discriminate.
Qed.

(** The head of the sorted list is the first object of maximal score. *)
Lemma sorted_by_threat_head (objs : list TrackedObject) :
  objs <> [] ->
  exists m, hd_error (sorted_by_threat objs) = Some m
            /\ Spec.first_max_threat objs m.
Proof.
  induction objs as [ | o rest IH ]; intro Hne; [ congruence | ].
  destruct rest as [ | r rest' ].
  - exists o. split; [ reflexivity | ].
    exists [], []. repeat split; intros x [].
  - destruct IH as (m & Hhd & pre & post & Hsplit & Hpre & Hpost);
      [ discriminate | ].
    change (sorted_by_threat (o :: r :: rest'))
      with (insert_by_threat o (sorted_by_threat (r :: rest'))).
    destruct (sorted_by_threat (r :: rest')) as [ | m0 s ] eqn:Es;
      [ discriminate Hhd | ].
    simpl in Hhd. injection Hhd as ->.
    rewrite insert_by_threat_head.
    destruct (Py.Qltb (threat_score o) (threat_score m)) eqn:E.
    + exists m. split; [ reflexivity | ].
      exists (o :: pre), post. rewrite Hsplit. repeat split.
      * intros p [ <- | Hp ]; [ apply PyFacts.Qltb_true, E | apply Hpre, Hp ].
      * exact Hpost.
    + apply PyFacts.Qltb_false in E.
      exists o. split; [ reflexivity | ].
      exists [], (r :: rest'). repeat split; [ intros x [] | ].
      intros q Hq. rewrite Hsplit in Hq.
      apply in_app_or in Hq. destruct Hq as [ Hq | [ <- | Hq ] ].
      * apply Qlt_le_weak. eapply Qlt_le_trans; [ apply Hpre, Hq | exact E ].
      * exact E.
      * eapply Qle_trans; [ apply Hpost, Hq | exact E ].
Qed.

Lemma get_main_threat_first_max (om : t) (m : TrackedObject) :
  get_main_threat om = Some m -> Spec.first_max_threat (objects om) m.
Proof.
  unfold get_main_threat. intro H.
  destruct (objects om) as [ | o rest ] eqn:Eo; [ discriminate H | ].
  destruct (sorted_by_threat_head (o :: rest)) as (m' & Hhd & Hmax);
    [ discriminate | ].
  rewrite Hhd in H. injection H as ->. exact Hmax.
Qed.

Lemma get_main_threat_some (om : t) :
  objects om <> [] -> exists m, get_main_threat om = Some m.
Proof.
  unfold get_main_threat. intro Hne.
  destruct (objects om) as [ | o rest ] eqn:Eo; [ congruence | ].
  destruct (sorted_by_threat_head (o :: rest)) as (m & Hhd & _);
    [ discriminate | ].
  exists m. exact Hhd.
Qed.

Lemma first_max_threat_In (objs : list TrackedObject) (m : TrackedObject) :
  Spec.first_max_threat objs m -> In m objs.
Proof.
  intros (pre & post & -> & _). apply in_or_app. right. left. reflexivity.
Qed.

Lemma remove_object_spec (om : t) (i : Z) (o : TrackedObject) :
  In o (objects (remove_object om i)) <-> In o (objects om) /\ id o <> i.
Proof.
  unfold remove_object. cbn [objects]. rewrite filter_In.
  rewrite negb_true_iff, Z.eqb_neq. tauto.
Qed.

Lemma truthy_time_positive (v : Q) : 0 < v -> Py.truthy_time (Some v) = true.
Proof.
  intro Hv. simpl. destruct (Qeq_bool v 0) eqn:E; [ | reflexivity ].
  apply Qeq_bool_eq in E. rewrite E in Hv. discriminate Hv.
Qed.

(** C4: with lost times that are clock readings (positive),
    [check_lost_threats] returns true exactly when the object of maximal
    threat score is lost with a lost time more than 2 seconds before [now]
    and has a score above 0.3.  On true that object is removed from the live
    set, so that no later call can flag it; on false nothing is removed. *)
Theorem check_lost_threats_spec (now : Q) (om : t) :
  (forall o v, In o (objects om) -> lost_time o = Some v -> 0 < v) ->
  let om' := fst (check_lost_threats now om) in
  let flag := snd (check_lost_threats now om) in
  (forall m, get_main_threat om = Some m -> Spec.first_max_threat (objects om) m)
  /\ (objects om <> [] -> exists m, get_main_threat om = Some m)
  /\ (flag = true <->
      exists m v, get_main_threat om = Some m
        /\ is_lost m = true /\ lost_time m = Some v
        /\ 2 < now - v /\ 0.3 < threat_score m)
  /\ (flag = true ->
      exists m, get_main_threat om = Some m
        /\ om' = remove_object om (id m)
        /\ (forall o, In o (objects om') <-> In o (objects om) /\ id o <> id m)
        /\ (NoDup (map id (objects om)) ->
            forall o, In o (objects om') <-> In o (objects om) /\ o <> m)
        /\ (forall later m',
              get_main_threat om' = Some m'
              \/ (snd (check_lost_threats later om') = true
                  /\ In m' (objects om')) ->
              id m' <> id m))
  /\ (flag = false -> om' = om).
Proof.
  intros Hclock. cbv zeta.
  split; [ intros m Hm; apply get_main_threat_first_max, Hm | ].
  split; [ apply get_main_threat_some | ].
  unfold check_lost_threats.
  destruct (get_main_threat om) as [ m | ] eqn:Em.
  2:{ cbn [fst snd]. split; [ | split; [ discriminate | reflexivity ] ].
      split; [ discriminate | intros (m & v & H & _); discriminate H ]. }
  pose proof (get_main_threat_first_max om m Em) as Hmax.
  pose proof (first_max_threat_In _ _ Hmax) as Hin.
  destruct (is_lost m) eqn:El; cbn [andb].
  2:{ cbn [fst snd]. split; [ | split; [ discriminate | reflexivity ] ].
      split; [ discriminate | ].
      intros (m' & v & H & Hl & _). injection H as <-. congruence. }
  destruct (lost_time m) as [ v | ] eqn:Et.
  2:{ cbn [Py.truthy_time fst snd].
      split; [ | split; [ discriminate | reflexivity ] ].
      split; [ discriminate | ].
      intros (m' & v & H & _ & Hv & _). injection H as <-. congruence. }
  rewrite (truthy_time_positive v (Hclock m v Hin Et)).
  destruct (Py.Qltb 0.3 (threat_score m)) eqn:Es; cbn [andb].
  2:{ cbn [fst snd]. split; [ | split; [ discriminate | reflexivity ] ].
      split; [ discriminate | ].
      intros (m' & v' & H & _ & _ & _ & Hs). injection H as <-.
      apply PyFacts.Qltb_true in Hs. congruence. }
  destruct (Py.Qltb 2.0 (now - v)) eqn:Ee.
  2:{ cbn [fst snd]. split; [ | split; [ discriminate | reflexivity ] ].
      split; [ discriminate | ].
      intros (m' & v' & H & _ & Hv & He & _). injection H as <-.
      rewrite Et in Hv. injection Hv as <-.
      apply PyFacts.Qltb_false in Ee.
      exfalso. apply (Qlt_irrefl 2). eapply Qlt_le_trans; [ exact He | ].
      eapply Qle_trans; [ exact Ee | ]. discriminate. }
  cbn [fst snd]. split; [ | split; [ | discriminate ] ].
  - split; [ intros _ | reflexivity ].
    exists m, v. split; [ reflexivity | ]. split; [ exact El | ].
    split; [ exact Et | ]. split.
    + apply PyFacts.Qltb_true in Ee.
      eapply Qle_lt_trans; [ | exact Ee ]. discriminate.
    + apply PyFacts.Qltb_true, Es.
  - intros _. exists m. split; [ reflexivity | ]. split; [ reflexivity | ].
    split; [ intro o; apply remove_object_spec | ]. split.
    + intros Hnd o. rewrite remove_object_spec.
      split; intros [Ho Hne]; (split; [ exact Ho | ]).
      * intros ->. apply Hne. reflexivity.
      * intro Hid. apply Hne.
        destruct Hmax as (pre & post & Hsplit & _).
        rewrite Hsplit in Hnd, Ho.
        rewrite map_app in Hnd. cbn [map] in Hnd.
        apply NoDup_remove_2 in Hnd.
        apply in_app_or in Ho. destruct Ho as [ Ho | [ Ho | Ho ] ].
        -- exfalso. apply Hnd. apply in_or_app. left.
           rewrite <- Hid. apply in_map, Ho.
        -- symmetry. exact Ho.
        -- exfalso. apply Hnd. apply in_or_app. right.
           rewrite <- Hid. apply in_map, Ho.
    + intros later m' Hm'.
      assert (Hin' : In m' (objects (remove_object om (id m)))).
      { destruct Hm' as [ Hm' | [_ Hm'] ]; [ | exact Hm' ].
        apply get_main_threat_first_max, first_max_threat_In in Hm'.
        exact Hm'. }
      apply remove_object_spec in Hin'. apply Hin'.
Qed.

(** Three seconds after the person of threat score 0.5 was lost, the check
    asks for a re-scan and drops the person; the cup stays. *)
Lemma lost_person_triggers_rescan :
  (forall o v, In o (objects Scenarios.street) -> lost_time o = Some v -> 0 < v)
  /\ snd (check_lost_threats 13 Scenarios.street) = true
  /\ objects (fst (check_lost_threats 13 Scenarios.street))
     = [Scenarios.small_cup].
Proof.
  assert (Hclock : forall o v, In o (objects Scenarios.street) ->
                               lost_time o = Some v -> 0 < v).
  { intros o v [ <- | [ <- | [] ] ] H; simpl in H; inversion H. reflexivity. }
  pose proof (check_lost_threats_spec 13 Scenarios.street Hclock) as Hspec.
  cbv zeta in Hspec. destruct Hspec as (_ & _ & Hflag & Hdrop & _).
  assert (Htrue : snd (check_lost_threats 13 Scenarios.street) = true).
  { apply Hflag. exists Scenarios.lost_person, 10.
    repeat split. }
  split; [ exact Hclock | ]. split; [ exact Htrue | ].
  destruct (Hdrop Htrue) as (m & Hm & -> & _).
  injection Hm as <-. reflexivity.
Defined.

End LostThreatProps.

(** ** Reconciliation of a detection batch *)

Module ReconcileProps.

Import ObjectManager ModeController.
Open Scope Q_scope.

Lemma refresh_fields (now : Q) (ctx : option string) (o : TrackedObject) :
  id (refresh now ctx o) = id o
  /\ label (refresh now ctx o) = label o
  /\ bbox (refresh now ctx o) = bbox o
  /\ threat_score (refresh now ctx o) = threat_score o
  /\ is_lost (refresh now ctx o) = false
  /\ lost_time (refresh now ctx o) = None
  /\ context (refresh now ctx o) = ctx
  /\ last_verified (refresh now ctx o) = now.
Proof. repeat split. Qed.

(** A visit that does not match leaves the object as it was. *)
Lemma reconcile_no_match (now : Q) (ctx : option string) (b : BBox)
    (o : TrackedObject) :
  compute_iou (bbox o) b <= 0.1 -> reconcile now ctx b o = (o, false).
Proof.
  intro Hlow. unfold reconcile.
  assert (H1 : Py.Qltb 0.1 (compute_iou (bbox o) b) = false)
    by (apply PyFacts.Qltb_false; exact Hlow).
  assert (H6 : Py.Qltb 0.6 (compute_iou (bbox o) b) = false).
  { apply PyFacts.Qltb_false. eapply Qle_trans; [ exact Hlow | discriminate ]. }
  rewrite H1, H6. destruct (is_lost o); reflexivity.
Qed.

(** A visit that matches refreshes the object, and replaces its box when
    the object is lost or the IoU exceeds 0.6. *)
Lemma reconcile_match (now : Q) (ctx : option string) (b : BBox)
    (o : TrackedObject) :
  0.1 < compute_iou (bbox o) b ->
  reconcile now ctx b o
  = (refresh now ctx
       (if is_lost o || Py.Qltb 0.6 (compute_iou (bbox o) b)
        then set_bbox o b else o),
     true).
Proof.
  intro Hhigh. unfold reconcile.
  apply PyFacts.Qltb_true in Hhigh. rewrite Hhigh.
  destruct (is_lost o); reflexivity.
Qed.

Lemma matches_dec (lbl : string) (b : BBox) (o : TrackedObject) :
  {Spec.matches lbl b o} + {~ Spec.matches lbl b o}.
Proof.
  unfold Spec.matches.
  destruct (String.eqb (label o) lbl) eqn:El.
  - apply String.eqb_eq in El.
    destruct (Py.Qltb 0.1 (compute_iou (bbox o) b)) eqn:Ei.
    + left. split; [ exact El | apply PyFacts.Qltb_true, Ei ].
    + right. intros [_ H]. apply PyFacts.Qltb_true in H. congruence.
  - right. intros [H _]. apply String.eqb_neq in El. contradiction.
Qed.

Lemma match_existing_cons_skip (now : Q) (lbl : string) (ctx : option string)
    (b : BBox) (o : TrackedObject) (rest : list TrackedObject) :
  ~ Spec.matches lbl b o ->
  match_existing now lbl ctx b (o :: rest)
  = (o :: fst (match_existing now lbl ctx b rest),
     snd (match_existing now lbl ctx b rest)).
Proof.
  intro Hno. simpl.
  destruct (String.eqb (label o) lbl) eqn:El.
  - apply String.eqb_eq in El.
    rewrite reconcile_no_match.
    + destruct (match_existing now lbl ctx b rest); reflexivity.
    + apply Qnot_lt_le. intro H. apply Hno. split; assumption.
  - destruct (match_existing now lbl ctx b rest); reflexivity.
Qed.

Lemma match_existing_cons_hit (now : Q) (lbl : string) (ctx : option string)
    (b : BBox) (o : TrackedObject) (rest : list TrackedObject) :
  Spec.matches lbl b o ->
  match_existing now lbl ctx b (o :: rest)
  = (refresh now ctx
       (if is_lost o || Py.Qltb 0.6 (compute_iou (bbox o) b)
        then set_bbox o b else o) :: rest,
     true).
Proof.
  intros [Hl Hi]. simpl.
  apply String.eqb_eq in Hl. rewrite Hl.
  rewrite (reconcile_match now ctx b o Hi). reflexivity.
Qed.

(** The loop stops at the first matching object and touches nothing else. *)
Lemma match_existing_first (now : Q) (lbl : string) (ctx : option string)
    (b : BBox) (pre post : list TrackedObject) (o : TrackedObject) :
  (forall p, In p pre -> ~ Spec.matches lbl b p) ->
  Spec.matches lbl b o ->
  match_existing now lbl ctx b (pre ++ o :: post)
  = (pre ++ refresh now ctx
              (if is_lost o || Py.Qltb 0.6 (compute_iou (bbox o) b)
               then set_bbox o b else o) :: post,
     true).
Proof.
  intros Hpre Ho. induction pre as [ | p pre IH ].
  - apply match_existing_cons_hit. exact Ho.
  - cbn [app]. rewrite match_existing_cons_skip by (apply Hpre; left; reflexivity).
    rewrite IH by (intros q Hq; apply Hpre; right; exact Hq).
    reflexivity.
Qed.

(** Without a matching object the loop changes nothing. *)
Lemma match_existing_none (now : Q) (lbl : string) (ctx : option string)
    (b : BBox) (objs : list TrackedObject) :
  (forall o, In o objs -> ~ Spec.matches lbl b o) ->
  match_existing now lbl ctx b objs = (objs, false).
Proof.
  induction objs as [ | o rest IH ]; intro Hno; [ reflexivity | ].
  rewrite match_existing_cons_skip by (apply Hno; left; reflexivity).
  rewrite IH by (intros q Hq; apply Hno; right; exact Hq).
  reflexivity.
Qed.

(** Every list splits at its first matching object, if it has one. *)
Lemma first_match_split (lbl : string) (b : BBox) (objs : list TrackedObject) :
  (exists o, In o objs /\ Spec.matches lbl b o) ->
  exists pre o post,
    objs = pre ++ o :: post
    /\ (forall p, In p pre -> ~ Spec.matches lbl b p)
    /\ Spec.matches lbl b o.
Proof.
  induction objs as [ | a rest IH ]; intros (o & Hin & Hm); [ destruct Hin | ].
  destruct (matches_dec lbl b a) as [ Ha | Ha ].
  - exists [], a, rest. repeat split; [ intros p [] | apply Ha | apply Ha ].
  - destruct Hin as [ -> | Hin ]; [ contradiction | ].
    destruct IH as (pre & o' & post & -> & Hpre & Ho'); [ exists o; auto | ].
    exists (a :: pre), o', post. repeat split; try apply Ho'.
    intros p [ <- | Hp ]; [ exact Ha | apply Hpre, Hp ].
Qed.

Lemma match_existing_flag (now : Q) (lbl : string) (ctx : option string)
    (b : BBox) (objs : list TrackedObject) :
  snd (match_existing now lbl ctx b objs) = true
  <-> exists o, In o objs /\ Spec.matches lbl b o.
Proof.
  split.
  - intro H.
    destruct (Exists_dec (Spec.matches lbl b) objs (matches_dec lbl b))
      as [ He | He ].
    + apply Exists_exists in He. exact He.
    + rewrite match_existing_none in H; [ discriminate H | ].
      intros o Ho Hm. apply He. apply Exists_exists. exists o. auto.
  - intro H. apply first_match_split in H.
    destruct H as (pre & o & post & -> & Hpre & Ho).
    rewrite (match_existing_first now lbl ctx b pre post o Hpre Ho).
    reflexivity.
Qed.

Lemma match_existing_ids (now : Q) (lbl : string) (ctx : option string)
    (b : BBox) (objs : list TrackedObject) :
  map id (fst (match_existing now lbl ctx b objs)) = map id objs.
Proof.
  destruct (Exists_dec (Spec.matches lbl b) objs (matches_dec lbl b))
    as [ He | He ].
  - apply Exists_exists in He. apply first_match_split in He.
    destruct He as (pre & o & post & -> & Hpre & Ho).
    rewrite (match_existing_first now lbl ctx b pre post o Hpre Ho).
    cbn [fst]. rewrite !map_app. cbn [map].
    destruct (_ || _); reflexivity.
  - rewrite match_existing_none; [ reflexivity | ].
    intros o Ho Hm. apply He. apply Exists_exists. exists o. auto.
Qed.

(** C1, as the code has it.  [process_detections] folds the step
    [process_detection] over the batch.  For a detection that survives the
    conversion, the first object in list order that carries the detection's
    clean label and overlaps the converted box with an IoU above 0.1 is the
    one reconciled: it is refreshed ([is_lost] cleared, [lost_time] reset to
    [None]), and its box is replaced by the converted box if it was lost, or
    if it was tracked and the IoU exceeds 0.6; a tracked object with an IoU of
    at most 0.6 keeps its box.  All other objects stay as they were, and no
    object is added. *)
Theorem process_detection_reconciles_first_match
    (now : Q) (frame : Frame) (om : t) (det : Detection)
    (b : BBox) (lbl : string) (ctx : option string)
    (pre post : list TrackedObject) (o : TrackedObject) :
  convert_box frame (box_2d det) = Some b ->
  parse_label
    (match det_label det with Some l => l | None => "unknown"%string end)
  = (lbl, ctx) ->
  objects om = pre ++ o :: post ->
  (forall p, In p pre -> ~ Spec.matches lbl b p) ->
  Spec.matches lbl b o ->
  exists o',
    objects (fst (process_detection now frame om det)) = pre ++ o' :: post
    /\ snd (process_detection now frame om det) = 0%Z
    /\ id o' = id o /\ label o' = label o
    /\ threat_score o' = threat_score o
    /\ is_lost o' = false /\ lost_time o' = None
    /\ context o' = ctx /\ last_verified o' = now
    /\ (is_lost o = true -> bbox o' = b)
    /\ (is_lost o = false -> 0.6 < compute_iou (bbox o) b -> bbox o' = b)
    /\ (is_lost o = false -> compute_iou (bbox o) b <= 0.6 ->
        bbox o' = bbox o).
Proof.
  intros Hconv Hparse Hobjs Hpre Ho.
  unfold process_detection. rewrite Hconv, Hparse, Hobjs.
  rewrite (match_existing_first now lbl ctx b pre post o Hpre Ho).
  cbn [fst snd objects].
  eexists. split; [ reflexivity | ]. split; [ reflexivity | ].
  destruct (is_lost o) eqn:El; cbn [orb].
  - repeat split; try discriminate.
  - destruct (Py.Qltb 0.6 (compute_iou (bbox o) b)) eqn:E6.
    + repeat split; try discriminate.
      intros _ Hle. apply PyFacts.Qltb_true in E6.
      exfalso. exact (Qlt_not_le _ _ E6 Hle).
    + repeat split; try discriminate.
      intros _ Hgt. apply PyFacts.Qltb_true in Hgt. congruence.
Qed.

(** The three cases of the reconciliation policy on one cup at
    [(0, 0, 100, 100)]: tracked at IoU 0.5 it keeps its box, tracked at IoU
    0.8 it takes the detected box, lost at IoU 0.2 it takes the detected box
    and is no longer lost. *)
Lemma reconciliation_thresholds :
  (compute_iou (0, 0, 100, 100)%Z (0, 0, 100, 50)%Z == 0.5
   /\ map bbox
        (objects (fst (process_detection 1 Scenarios.frame1000
                         (Scenarios.manager [Scenarios.active_cup] 1)
                         (Scenarios.cup_at 50))))
      = [(0, 0, 100, 100)%Z])
  /\ (compute_iou (0, 0, 100, 100)%Z (0, 0, 100, 80)%Z == 0.8
      /\ map bbox
           (objects (fst (process_detection 1 Scenarios.frame1000
                            (Scenarios.manager [Scenarios.active_cup] 1)
                            (Scenarios.cup_at 80))))
         = [(0, 0, 100, 80)%Z])
  /\ (compute_iou (0, 0, 100, 100)%Z (0, 0, 100, 20)%Z == 0.2
      /\ map (fun o => (bbox o, is_lost o, lost_time o))
           (objects (fst (process_detection 1 Scenarios.frame1000
                            (Scenarios.manager [Scenarios.lost_cup] 1)
                            (Scenarios.cup_at 20))))
         = [((0, 0, 100, 20)%Z, false, None)]).
Proof.
  split; [ | split ]; (split; [ reflexivity | ]).
  - destruct (process_detection_reconciles_first_match 1 Scenarios.frame1000
                (Scenarios.manager [Scenarios.active_cup] 1)
                (Scenarios.cup_at 50) (0, 0, 100, 50)%Z "cup" None
                [] [] Scenarios.active_cup
                eq_refl eq_refl eq_refl
                (fun p (H : In p []) => match H with end)
                (conj eq_refl eq_refl))
      as (o' & -> & _ & _ & _ & _ & _ & _ & _ & _ & _ & _ & Hkeep).
    cbn [app map]. rewrite Hkeep; [ reflexivity | reflexivity | discriminate ].
  - destruct (process_detection_reconciles_first_match 1 Scenarios.frame1000
                (Scenarios.manager [Scenarios.active_cup] 1)
                (Scenarios.cup_at 80) (0, 0, 100, 80)%Z "cup" None
                [] [] Scenarios.active_cup
                eq_refl eq_refl eq_refl
                (fun p (H : In p []) => match H with end)
                (conj eq_refl eq_refl))
      as (o' & -> & _ & _ & _ & _ & _ & _ & _ & _ & _ & Htake & _).
    cbn [app map]. rewrite Htake; reflexivity.
  - destruct (process_detection_reconciles_first_match 1 Scenarios.frame1000
                (Scenarios.manager [Scenarios.lost_cup] 1)
                (Scenarios.cup_at 20) (0, 0, 100, 20)%Z "cup" None
                [] [] Scenarios.lost_cup
                eq_refl eq_refl eq_refl
                (fun p (H : In p []) => match H with end)
                (conj eq_refl eq_refl))
      as (o' & -> & _ & _ & _ & _ & Hlost & Htime & _ & _ & Htake & _).
    cbn [app map]. rewrite Hlost, Htime, Htake; reflexivity.
Defined.

(** C1, as stated, fails for a second object of the same label: the loop
    stops at the first match.  Two tracked cups overlap the detected box with
    an IoU above 0.6; the first takes the detected box, the second keeps its
    own. *)
Lemma later_same_label_object_not_updated :
  convert_box Scenarios.frame1000 (box_2d (Scenarios.cup_at 100))
  = Some (0, 0, 100, 100)%Z
  /\ label Scenarios.shifted_cup = fst (parse_label "cup")
  /\ is_lost Scenarios.shifted_cup = false
  /\ 0.6 < compute_iou (bbox Scenarios.shifted_cup) (0, 0, 100, 100)%Z
  /\ nth_error
       (objects (fst (process_detections 1 Scenarios.frame1000
                        (Scenarios.manager
                           [Scenarios.active_cup; Scenarios.shifted_cup] 2)
                        [Scenarios.cup_at 100]))) 1
     = Some Scenarios.shifted_cup
  /\ bbox Scenarios.shifted_cup <> (0, 0, 100, 100)%Z.
Proof.
  repeat split. discriminate.
Qed.

Lemma process_detection_length (now : Q) (frame : Frame) (om : t)
    (det : Detection) :
  snd (process_detection now frame om det)
  = (Z.of_nat (List.length (objects (fst (process_detection now frame om det))))
     - Z.of_nat (List.length (objects om)))%Z.
Proof.
  unfold process_detection.
  destruct (convert_box frame (box_2d det)) as [ b | ];
    [ | cbn [fst snd]; lia ].
  destruct (parse_label _) as [lbl ctx].
  pose proof (match_existing_ids now lbl ctx b (objects om)) as Hids.
  apply (f_equal (@List.length Z)) in Hids. rewrite !length_map in Hids.
  destruct (match_existing now lbl ctx b (objects om)) as [objs' matched].
  cbn [fst] in Hids.
  destruct matched; cbn [fst snd objects add_object].
  - lia.
  - rewrite length_app. cbn [List.length]. lia.
Qed.

Lemma process_detections_from_count (now : Q) (frame : Frame)
    (detections : list Detection) (om : t) (count : Z) :
  snd (process_detections_from now frame om count detections)
  = (count
     + Z.of_nat (List.length
                   (objects (fst (process_detections_from now frame om count
                                    detections))))
     - Z.of_nat (List.length (objects om)))%Z.
Proof.
  revert om count. induction detections as [ | det rest IH ]; intros om count.
  - cbn [process_detections_from fst snd]. lia.
  - cbn [process_detections_from].
    pose proof (process_detection_length now frame om det) as Hstep.
    destruct (process_detection now frame om det) as [om1 added].
    cbn [fst snd] in Hstep. rewrite IH.
    assert (Hobjs :
      forall c c', objects (fst (process_detections_from now frame om1 c rest))
                   = objects (fst (process_detections_from now frame om1 c' rest))).
    { clear. revert om1. induction rest as [ | d r IHr ]; intros om1 c c'.
      - reflexivity.
      - cbn [process_detections_from].
        destruct (process_detection now frame om1 d) as [om2 a]. apply IHr. }
    lia.
Qed.

(** C3, as the code has it.  A record without four coordinates, or smaller
    than 5x5 after the conversion, changes nothing.  For any other record,
    [process_detections] creates an object exactly when no existing object
    both carries the clean label of the record and overlaps its converted box
    with an IoU above 0.1.  The new object is appended with the id
    [next_id], the colour of the palette at [next_id mod 6] and the audio
    signature registered for its label, and counts as one.  When an existing
    object matches, none is created.  The count returned for a batch is the
    number of objects created. *)
Theorem process_detection_creates_iff_no_match
    (now : Q) (frame : Frame) (om : t) (det : Detection) :
  (convert_box frame (box_2d det) = None ->
   process_detection now frame om det = (om, 0%Z))
  /\ (forall b lbl ctx,
        convert_box frame (box_2d det) = Some b ->
        parse_label
          (match det_label det with Some l => l | None => "unknown"%string end)
        = (lbl, ctx) ->
        let om' := fst (process_detection now frame om det) in
        let added := snd (process_detection now frame om det) in
        (added = 1%Z <->
         ~ exists o, In o (objects om) /\ label o = lbl
                     /\ 0.1 < compute_iou (bbox o) b)
        /\ (added = 0%Z <->
            exists o, In o (objects om) /\ label o = lbl
                      /\ 0.1 < compute_iou (bbox o) b)
        /\ (added = 1%Z ->
            exists new,
              objects om' = objects om ++ [new]
              /\ id new = next_id om
              /\ label new = lbl /\ bbox new = b /\ context new = ctx
              /\ color new
                 = nth (Z.to_nat (next_id om mod 6)) color_palette (0, 0, 0)%Z
              /\ audio_signature new
                 = Py.dict_get_default config.AUDIO_SIGNATURES lbl
                     config.default_signature
              /\ next_id om' = (next_id om + 1)%Z
              /\ ((forall o, In o (objects om) -> (id o < next_id om)%Z) ->
                  forall o, In o (objects om) -> id o <> id new))
        /\ (added = 0%Z ->
            map id (objects om') = map id (objects om)
            /\ next_id om' = next_id om))
  /\ (forall detections,
        snd (process_detections now frame om detections)
        = (Z.of_nat (List.length
                       (objects (fst (process_detections now frame om
                                        detections))))
           - Z.of_nat (List.length (objects om)))%Z).
Proof.
  split; [ | split ].
  - intro Hconv. unfold process_detection. rewrite Hconv. reflexivity.
  - intros b lbl ctx Hconv Hparse. cbv zeta.
    unfold process_detection. rewrite Hconv, Hparse.
    pose proof (match_existing_flag now lbl ctx b (objects om)) as Hflag.
    pose proof (match_existing_ids now lbl ctx b (objects om)) as Hids.
    destruct (match_existing now lbl ctx b (objects om)) as [objs' matched] eqn:Em.
    cbn [fst snd] in Hflag, Hids.
    destruct matched; cbn [fst snd objects next_id add_object].
    + pose proof (proj1 Hflag eq_refl) as Hex.
      split; [ split; [ discriminate | intro H; contradiction ] | ].
      split; [ split; [ intros _; exact Hex | reflexivity ] | ].
      split; [ discriminate | ]. intros _. split; [ exact Hids | reflexivity ].
    + assert (Hno : ~ exists o, In o (objects om) /\ Spec.matches lbl b o).
      { intro H. apply Hflag in H. discriminate H. }
      split; [ split; [ intros _; exact Hno | reflexivity ] | ].
      split; [ split; [ discriminate | intro H; contradiction ] | ].
      split; [ | discriminate ].
      intros _.
      assert (Heq : objs' = objects om).
      { rewrite match_existing_none in Em.
        - injection Em as <-. reflexivity.
        - intros o Ho Hm. apply Hno. exists o. auto. }
      rewrite Heq. eexists. split; [ reflexivity | ].
      cbn [id label bbox context color audio_signature].
      repeat split.
      intros Hinv o Ho Hsame. specialize (Hinv o Ho). lia.
  - intro detections. unfold process_detections.
    rewrite process_detections_from_count. lia.
Qed.

(** A detected cup that no tracked object explains is added as object 1,
    with the signature of a cup. *)
Lemma far_cup_is_added :
  snd (process_detection 1 Scenarios.frame1000
         (Scenarios.manager [Scenarios.active_cup] 1) Scenarios.far_cup)
  = 1%Z
  /\ exists new,
       objects (fst (process_detection 1 Scenarios.frame1000
                       (Scenarios.manager [Scenarios.active_cup] 1)
                       Scenarios.far_cup))
       = [Scenarios.active_cup; new]
       /\ id new = 1%Z /\ bbox new = (500, 500, 500, 500)%Z
       /\ config.freq (audio_signature new) = 660%Z.
Proof.
  destruct (proj1 (proj2 (process_detection_creates_iff_no_match
                            1 Scenarios.frame1000
                            (Scenarios.manager [Scenarios.active_cup] 1)
                            Scenarios.far_cup))
                  (500, 500, 500, 500)%Z "cup"%string None eq_refl eq_refl)
    as (_ & _ & Hnew & _).
  assert (Hadded : snd (process_detection 1 Scenarios.frame1000
                          (Scenarios.manager [Scenarios.active_cup] 1)
                          Scenarios.far_cup) = 1%Z) by reflexivity.
  split; [ exact Hadded | ].
  destruct (Hnew Hadded) as (new & Hobjs & Hid & _ & Hb & _ & _ & Hsig & _).
  exists new. split; [ exact Hobjs | ]. split; [ exact Hid | ].
  split; [ exact Hb | ]. rewrite Hsig. reflexivity.
Defined.

(** C3, as stated, fails: a tracked cup exists, its label is identical to
    the label of the detection, and the detection, which does not overlap it,
    creates a second cup all the same. *)
Lemma same_label_without_overlap_creates_object :
  (exists o, In o (objects (Scenarios.manager [Scenarios.active_cup] 1))
             /\ label o = fst (parse_label "cup"))
  /\ snd (process_detections 1 Scenarios.frame1000
            (Scenarios.manager [Scenarios.active_cup] 1) [Scenarios.far_cup])
     = 1%Z
  /\ map (fun o => (id o, label o, bbox o))
       (objects (fst (process_detections 1 Scenarios.frame1000
                        (Scenarios.manager [Scenarios.active_cup] 1)
                        [Scenarios.far_cup])))
     = [ (0%Z, "cup"%string, (0, 0, 100, 100)%Z);
         (1%Z, "cup"%string, (500, 500, 500, 500)%Z) ].
Proof.
  split; [ | split; reflexivity ].
  exists Scenarios.active_cup. split; [ left; reflexivity | reflexivity ].
Qed.

End ReconcileProps.

(** ** Distance gain and threat ducking *)

Module SceneProps.

Import AudioHrtf.
Open Scope R_scope.

(** The gain of a box of non-negative area, as a function of the area. *)
Lemma spatial_gain_value (b : ObjectManager.BBox) :
  (0 <= ObjectManager.bw b * ObjectManager.bh b)%Z ->
  spatial_gain b
  = Some (Rmax 0.5 (Rmin 10.0
            (sqrt (width * height * 0.5
                   / (IZR (ObjectManager.bw b * ObjectManager.bh b) + 1)))),
          Rmax 0.1 (Rmin 1.0
            (1.0 / (Rmax 0.5 (Rmin 10.0
               (sqrt (width * height * 0.5
                      / (IZR (ObjectManager.bw b * ObjectManager.bh b) + 1))))
                    * 0.5)))).
Proof.
  intro Harea. unfold spatial_gain.
  destruct (ObjectManager.bw b * ObjectManager.bh b + 1 <=? 0)%Z eqn:E.
  - apply Z.leb_le in E. lia.
  - reflexivity.
Qed.

Lemma div_mul_cancel (t : R) : t <> 0 -> 1.0 / t * t = 1.
Proof.
  intro Ht. unfold Rdiv. rewrite Rmult_assoc, Rinv_l by exact Ht. lra.
Qed.

Lemma sqrt_between (x lo hi : R) :
  0 <= lo -> lo * lo < x -> x < hi * hi -> 0 <= hi -> lo < sqrt x < hi.
Proof.
  intros Hlo Hx1 Hx2 Hhi. split.
  - rewrite <- (sqrt_square lo Hlo). apply sqrt_lt_1_alt. nra.
  - rewrite <- (sqrt_square hi Hhi). apply sqrt_lt_1_alt. nra.
Qed.

(** The gain of a box of distance estimate [s] between 2 and 10. *)
Lemma mid_range_gain (s : R) :
  2 < s < 10 ->
  Rmax 0.5 (Rmin 10.0 s) = s
  /\ Rmax 0.1 (Rmin 1.0 (1.0 / (s * 0.5))) = 1.0 / (s * 0.5)
  /\ 0.2 < 1.0 / (s * 0.5) < 1.
Proof.
  intros [Hlo Hhi].
  assert (Hg : 0.2 < 1.0 / (s * 0.5) < 1).
  { assert (Hpos : 0 < s * 0.5) by lra.
    assert (Hinv : 1.0 / (s * 0.5) * (s * 0.5) = 1)
      by (apply div_mul_cancel; lra).
    split; nra. }
  split; [ | split; [ | exact Hg ] ].
  - rewrite Rmin_right by lra. apply Rmax_right. lra.
  - rewrite Rmin_right by lra. apply Rmax_right. lra.
Qed.

(** C6: against the 1280x720 reference frame, the gains of boxes of
    600x600, 200x200 and 50x50 pixels are strictly decreasing; the largest is
    1.0 and the smallest 0.2, each within 0.2 of 1.0 and of 0.1. *)
Theorem gain_decreases_with_box_size (x y : Z) :
  exists d600 g600 d200 g200 d50 g50,
    spatial_gain (x, y, 600, 600)%Z = Some (d600, g600)
    /\ spatial_gain (x, y, 200, 200)%Z = Some (d200, g200)
    /\ spatial_gain (x, y, 50, 50)%Z = Some (d50, g50)
    /\ g600 > g200 /\ g200 > g50
    /\ Rabs (g600 - 1.0) < 0.2
    /\ Rabs (g50 - 0.1) < 0.2
    /\ g600 = 1 /\ g50 = 0.2.
Proof.
  do 6 eexists.
  split; [ apply spatial_gain_value; cbn; lia | ].
  split; [ apply spatial_gain_value; cbn; lia | ].
  split; [ apply spatial_gain_value; cbn; lia | ].
  cbn [ObjectManager.bw ObjectManager.bh].
  change (600 * 600)%Z with 360000%Z.
  change (200 * 200)%Z with 40000%Z.
  change (50 * 50)%Z with 2500%Z.
  unfold width, height.
  set (s600 := sqrt (1280 * 720 * 0.5 / (360000 + 1))).
  set (s200 := sqrt (1280 * 720 * 0.5 / (40000 + 1))).
  set (s50 := sqrt (1280 * 720 * 0.5 / (2500 + 1))).
  assert (H600 : 0 <= s600 <= 2).
  { split; [ apply sqrt_pos | ].
    rewrite <- (sqrt_square 2) by lra. apply sqrt_le_1_alt. lra. }
  assert (H200 : 2 < s200 < 10) by (apply sqrt_between; lra).
  assert (H50 : 10 <= s50).
  { rewrite <- (sqrt_square 10) by lra. apply sqrt_le_1_alt. lra. }
  assert (G600 : Rmax 0.1 (Rmin 1.0 (1.0 / (Rmax 0.5 (Rmin 10.0 s600) * 0.5))) = 1).
  { rewrite (Rmin_right 10.0 s600) by lra.
    set (d := Rmax 0.5 s600).
    assert (Hd : 0.5 <= d <= 2).
    { unfold d, Rmax. destruct (Rle_dec 0.5 s600); lra. }
    assert (Hinv : 1.0 / (d * 0.5) * (d * 0.5) = 1)
      by (apply div_mul_cancel; lra).
    rewrite Rmin_left by nra. rewrite Rmax_right by lra. lra. }
  assert (G50 : Rmax 0.1 (Rmin 1.0 (1.0 / (Rmax 0.5 (Rmin 10.0 s50) * 0.5))) = 0.2).
  { rewrite (Rmin_left 10.0 s50) by lra.
    rewrite (Rmax_right 0.5 10.0) by lra.
    replace (1.0 / (10.0 * 0.5)) with 0.2 by lra.
    rewrite Rmin_right by lra. apply Rmax_right. lra. }
  destruct (mid_range_gain s200 H200) as (D200 & G200 & Hg).
  rewrite G600, G50, D200, G200.
  replace (1 - 1.0) with 0 by lra. replace (0.2 - 0.1) with 0.1 by lra.
  rewrite Rabs_R0, (Rabs_right 0.1) by lra.
  repeat split; lra.
Qed.

Lemma max_threat_fold (objects : list SceneObject) (init : R) :
  let step := fun max_threat o =>
                match threat_score o with
                | Some s => Rmax max_threat s
                | None => max_threat
                end in
  init <= fold_left step objects init
  /\ (forall o s, In o objects -> threat_score o = Some s ->
                  s <= fold_left step objects init)
  /\ (fold_left step objects init = init
      \/ exists o, In o objects
                   /\ threat_score o = Some (fold_left step objects init)).
Proof.
  cbv zeta. revert init.
  induction objects as [ | a rest IH ]; intro init; cbn [fold_left].
  - split; [ lra | ]. split; [ intros o s [] | left; reflexivity ].
  - set (init' := match threat_score a with
                  | Some s => Rmax init s
                  | None => init
                  end).
    destruct (IH init') as (Hlow & Hall & Hwho).
    assert (Hinit : init <= init').
    { unfold init'. destruct (threat_score a); [ apply Rmax_l | lra ]. }
    split; [ lra | ]. split.
    + intros o s [ <- | Ho ] Hs.
      * assert (Hs' : s <= init')
          by (unfold init'; rewrite Hs; apply Rmax_r).
        lra.
      * exact (Hall o s Ho Hs).
    + destruct Hwho as [ Heq | (o & Ho & Hs) ].
      * rewrite Heq. unfold init'.
        destruct (threat_score a) as [ s | ] eqn:Ea; [ | left; reflexivity ].
        unfold Rmax. destruct (Rle_dec init s).
        -- right. exists a. split; [ left; reflexivity | exact Ea ].
        -- left. reflexivity.
      * right. exists o. split; [ right; exact Ho | exact Hs ].
Qed.

Lemma max_threat_of_nonneg (objects : list SceneObject) :
  0 <= max_threat_of objects.
Proof.
  unfold max_threat_of.
  pose proof (max_threat_fold objects 0.0) as H. cbv zeta in H.
  destruct H as (H & _). lra.
Qed.

Lemma scene_loop_spec (objects rest : list SceneObject) :
  (forall o, In o rest ->
     (0 <= ObjectManager.bw (bbox o) * ObjectManager.bh (bbox o))%Z) ->
  exists updates,
    scene_loop objects rest = Some updates
    /\ map source_of updates = map id rest
    /\ forall n obj, nth_error rest n = Some obj ->
         exists u dist base_gain,
           nth_error updates n = Some u
           /\ spatial_gain (bbox obj) = Some (dist, base_gain)
           /\ al_gain u = duck (max_threat_of objects) obj base_gain.
Proof.
  induction rest as [ | a rest IH ]; intro Harea.
  - exists []. split; [ reflexivity | ]. split; [ reflexivity | ].
    intros [ | n ] obj H; discriminate H.
  - destruct IH as (updates & Hloop & Hids & Hnth).
    { intros o Ho. apply Harea. right. exact Ho. }
    pose proof (spatial_gain_value (bbox a) (Harea a (or_introl eq_refl)))
      as Hgain.
    cbn [scene_loop]. unfold scene_entry. rewrite Hgain, Hloop.
    cbn [option_map]. eexists. split; [ reflexivity | ].
    split; [ cbn [map source_of]; rewrite Hids; reflexivity | ].
    intros [ | n ] obj Hn.
    + injection Hn as <-. do 3 eexists.
      split; [ reflexivity | ]. split; [ exact Hgain | reflexivity ].
    + exact (Hnth n obj Hn).
Qed.

(** C7: in one scene update over objects of non-negative box area that
    carry non-negative threat scores, [max_threat] is the maximum score of the
    snapshot; an object whose score is below [0.8 * max_threat] gets its
    distance gain multiplied by 0.3, and an object whose score is at least
    [0.8 * max_threat], the object of maximal score among them, keeps its
    distance gain. *)
Theorem threat_ducking (objects : list SceneObject) :
  (forall o, In o objects ->
     (0 <= ObjectManager.bw (bbox o) * ObjectManager.bh (bbox o))%Z) ->
  (forall o, In o objects -> exists s, threat_score o = Some s /\ 0 <= s) ->
  let max_threat := max_threat_of objects in
  (forall o s, In o objects -> threat_score o = Some s -> s <= max_threat)
  /\ (objects <> [] ->
      exists o, In o objects /\ threat_score o = Some max_threat)
  /\ exists updates,
       update_scene objects = Some updates
       /\ map source_of updates = map id objects
       /\ forall n obj, nth_error objects n = Some obj ->
            exists u dist base_gain s,
              nth_error updates n = Some u
              /\ spatial_gain (bbox obj) = Some (dist, base_gain)
              /\ threat_score obj = Some s
              /\ (s < 0.8 * max_threat -> al_gain u = base_gain * 0.3)
              /\ (0.8 * max_threat <= s -> al_gain u = base_gain)
              /\ (s = max_threat -> al_gain u = base_gain).
Proof.
  intros Harea Hscore. cbv zeta.
  pose proof (max_threat_fold objects 0.0) as Hfold. cbv zeta in Hfold.
  fold (max_threat_of objects) in Hfold.
  destruct Hfold as (Hlow & Hall & Hwho).
  split; [ exact Hall | ]. split.
  - intro Hne. destruct Hwho as [ Hzero | Hex ]; [ | exact Hex ].
    destruct objects as [ | a rest ]; [ congruence | ].
    destruct (Hscore a (or_introl eq_refl)) as (s & Hs & Hpos).
    exists a. split; [ left; reflexivity | ].
    pose proof (Hall a s (or_introl eq_refl) Hs) as Hup.
    rewrite Hs. f_equal. lra.
  - destruct (scene_loop_spec objects objects Harea)
      as (updates & Hloop & Hids & Hnth).
    exists updates. split; [ exact Hloop | ]. split; [ exact Hids | ].
    intros n obj Hn.
    destruct (Hnth n obj Hn) as (u & dist & base_gain & Hu & Hg & Hduck).
    destruct (Hscore obj (nth_error_In _ _ Hn)) as (s & Hs & Hpos).
    exists u, dist, base_gain, s.
    split; [ exact Hu | ]. split; [ exact Hg | ]. split; [ exact Hs | ].
    rewrite Hduck. unfold duck. rewrite Hs.
    replace (max_threat_of objects * 0.8) with (0.8 * max_threat_of objects)
      by lra.
    destruct (Rlt_dec s (0.8 * max_threat_of objects)) as [ Hlt | Hge ].
    + split; [ reflexivity | ]. split; intro H; exfalso; lra.
    + split; [ intro H; contradiction | ]. split; reflexivity.
Qed.

Lemma trio_max_threat : max_threat_of Scenarios.trio = 1.
Proof.
  unfold max_threat_of, Scenarios.trio, Scenarios.scored.
  cbn [fold_left threat_score].
  rewrite (Rmax_right 0.0 1.0) by lra.
  rewrite (Rmax_left 1.0 0.5) by lra.
  rewrite (Rmax_left 1.0 0.1) by lra. lra.
Qed.

(** With threat scores 1.0, 0.5 and 0.1 the person keeps its distance gain,
    and the chair and the cup are ducked to 0.3 of theirs. *)
Lemma trio_is_ducked :
  (forall o, In o Scenarios.trio ->
     (0 <= ObjectManager.bw (bbox o) * ObjectManager.bh (bbox o))%Z)
  /\ (forall o, In o Scenarios.trio ->
        exists s, threat_score o = Some s /\ 0 <= s)
  /\ exists updates,
       update_scene Scenarios.trio = Some updates
       /\ (exists u d g, nth_error updates 0 = Some u
              /\ spatial_gain (340, 60, 600, 600)%Z = Some (d, g)
              /\ al_gain u = g)
       /\ (exists u d g, nth_error updates 1 = Some u
              /\ spatial_gain (100, 300, 200, 200)%Z = Some (d, g)
              /\ al_gain u = g * 0.3)
       /\ (exists u d g, nth_error updates 2 = Some u
              /\ spatial_gain (900, 500, 50, 50)%Z = Some (d, g)
              /\ al_gain u = g * 0.3).
Proof.
  assert (Harea : forall o, In o Scenarios.trio ->
     (0 <= ObjectManager.bw (bbox o) * ObjectManager.bh (bbox o))%Z).
  { intros o [ <- | [ <- | [ <- | [] ] ] ]; cbn; lia. }
  assert (Hscore : forall o, In o Scenarios.trio ->
     exists s, threat_score o = Some s /\ 0 <= s).
  { intros o [ <- | [ <- | [ <- | [] ] ] ];
      (eexists; split; [ reflexivity | lra ]). }
  split; [ exact Harea | ]. split; [ exact Hscore | ].
  destruct (threat_ducking Scenarios.trio Harea Hscore)
    as (_ & _ & updates & Hscene & _ & Hnth).
  rewrite trio_max_threat in Hnth.
  exists updates. split; [ exact Hscene | ]. split; [ | split ].
  - destruct (Hnth 0%nat _ eq_refl)
      as (u & d & g & s & Hu & Hg & Hs & _ & _ & Hmax).
    exists u, d, g. split; [ exact Hu | ]. split; [ exact Hg | ].
    apply Hmax. injection Hs as <-. lra.
  - destruct (Hnth 1%nat _ eq_refl)
      as (u & d & g & s & Hu & Hg & Hs & Hduck & _).
    exists u, d, g. split; [ exact Hu | ]. split; [ exact Hg | ].
    apply Hduck. injection Hs as <-. lra.
  - destruct (Hnth 2%nat _ eq_refl)
      as (u & d & g & s & Hu & Hg & Hs & Hduck & _).
    exists u, d, g. split; [ exact Hu | ]. split; [ exact Hg | ].
    apply Hduck. injection Hs as <-. lra.
Defined.

End SceneProps.

(** ** The stereo mix *)

Module MixProps.

Import AudioModuleMulti.
Open Scope R_scope.

Lemma abs_max_bound (channel : list R) (m : R) :
  abs_max channel = Some m -> forall s, In s channel -> Rabs s <= m.
Proof.
  revert m. induction channel as [ | x rest IH ]; intros m Hm s Hs.
  - destruct Hs.
  - cbn [abs_max] in Hm. destruct (abs_max rest) as [ m' | ] eqn:Er.
    + injection Hm as <-. destruct Hs as [ <- | Hs ].
      * apply Rmax_l.
      * eapply Rle_trans; [ apply (IH m' eq_refl s Hs) | apply Rmax_r ].
    + injection Hm as <-. destruct Hs as [ <- | Hs ]; [ lra | ].
      destruct rest; [ destruct Hs | ].
      cbn [abs_max] in Er. destruct (abs_max rest); discriminate Er.
Qed.

Lemma abs_max_some (channel : list R) :
  channel <> [] -> exists m, abs_max channel = Some m.
Proof.
  destruct channel as [ | x rest ]; intro Hne; [ congruence | ].
  cbn [abs_max]. destruct (abs_max rest); eexists; reflexivity.
Qed.

Lemma sample_loop_length (frames : nat) (sig : list R) (pos : Z) :
  List.length (sample_loop frames sig pos) = frames.
Proof.
  revert pos. induction frames as [ | k IH ]; intro pos; cbn [sample_loop].
  - reflexivity.
  - cbn [List.length]. rewrite IH. reflexivity.
Qed.

Lemma mix_into_length (channel samples : list R) (gain : R) :
  List.length channel = List.length samples ->
  List.length (mix_into channel samples gain) = List.length channel.
Proof.
  intro H. unfold mix_into. rewrite length_map, length_combine, H.
  apply Nat.min_id.
Qed.

Lemma mix_sources_length (frames : nat) (sigs : Signatures)
    (sources : list (Z * Source)) :
  forall left_channel right_channel l r sources',
    List.length left_channel = frames ->
    List.length right_channel = frames ->
    mix_sources frames sigs sources left_channel right_channel
    = Some (l, r, sources') ->
    List.length l = frames /\ List.length r = frames.
Proof.
  induction sources as [ | [obj_id src] rest IH ];
    intros lc rc l r sources' Hl Hr Hmix; cbn [mix_sources] in Hmix.
  - injection Hmix as <- <- _. auto.
  - destruct (get_signature sigs (signature src)) as [ sig | ];
      [ | discriminate Hmix ].
    destruct ((0 <? frames)%nat && (List.length sig =? 0)%nat);
      [ discriminate Hmix | ].
    match type of Hmix with
    | match mix_sources _ _ _ ?lc' ?rc' with _ => _ end = _ =>
        destruct (mix_sources frames sigs rest lc' rc')
          as [ [ [l' r'] rest' ] | ] eqn:Erest; [ | discriminate Hmix ];
        apply IH in Erest
    end.
    + injection Hmix as <- <- _. exact Erest.
    + rewrite mix_into_length; [ exact Hl | ].
      rewrite sample_loop_length. exact Hl.
    + rewrite mix_into_length; [ exact Hr | ].
      rewrite sample_loop_length. exact Hr.
Qed.

Lemma dict_get_In {A : Type} (d : list (string * A)) (key : string) (v : A) :
  Py.dict_get d key = Some v -> In (key, v) d.
Proof.
  induction d as [ | [k w] rest IH ]; cbn [Py.dict_get]; intro H.
  - discriminate H.
  - destruct (String.eqb k key) eqn:E.
    + apply String.eqb_eq in E. injection H as <-. left. congruence.
    + right. apply IH, H.
Qed.

Lemma get_signature_some (sigs : Signatures) (name : string) :
  (exists d, Py.dict_get sigs "default" = Some d) ->
  (forall n sig, In (n, sig) sigs -> sig <> []) ->
  exists sig, get_signature sigs name = Some sig /\ sig <> [].
Proof.
  intros (d & Hd) Hne. unfold get_signature, Py.dict_get_default.
  rewrite Hd. destruct (Py.dict_get sigs name) as [ v | ] eqn:Ev.
  - exists v. split; [ reflexivity | ].
    exact (Hne _ _ (dict_get_In _ _ _ Ev)).
  - exists d. split; [ reflexivity | ].
    exact (Hne _ _ (dict_get_In _ _ _ Hd)).
Qed.

Lemma mix_sources_total (frames : nat) (sigs : Signatures)
    (sources : list (Z * Source)) :
  (exists d, Py.dict_get sigs "default" = Some d) ->
  (forall n sig, In (n, sig) sigs -> sig <> []) ->
  forall left_channel right_channel,
    exists out,
      mix_sources frames sigs sources left_channel right_channel = Some out.
Proof.
  intros Hd Hne.
  induction sources as [ | [obj_id src] rest IH ]; intros lc rc;
    cbn [mix_sources].
  - eexists. reflexivity.
  - destruct (get_signature_some sigs (signature src) Hd Hne)
      as (sig & -> & Hsig).
    assert (Hlen : (List.length sig =? 0)%nat = false).
    { apply Nat.eqb_neq. destruct sig; [ congruence | discriminate ]. }
    rewrite Hlen, andb_false_r.
    match goal with
    | |- exists _, match mix_sources _ _ _ ?lc' ?rc' with _ => _ end = _ =>
        destruct (IH lc' rc') as ([ [l r] rest' ] & ->)
    end.
    eexists. reflexivity.
Qed.

Lemma scaled_sample_bound (x m : R) : 1 < m -> Rabs x <= m -> Rabs (x / m) <= 1.
Proof.
  intros Hm Hx. unfold Rdiv.
  rewrite Rabs_mult, Rabs_inv, (Rabs_right m) by lra.
  assert (Hinv : / m * m = 1) by (apply Rinv_l; lra).
  assert (Hpos : 0 < / m) by (apply Rinv_0_lt_compat; lra).
  pose proof (Rabs_pos x). nra.
Qed.

(** C8: whatever the sources, their azimuths, volumes and signatures, every
    sample of the two channels written by one call of [_audio_callback] has
    magnitude at most 1.0.  When the peak of the summed channels exceeds 1.0,
    both channels are divided by that peak, sample by sample, and otherwise
    they are written as summed; no sample is clamped.  With a block of at
    least one frame and non-empty waveforms the callback does write its
    block. *)
Theorem audio_callback_never_clips (frames : nat) (sigs : Signatures)
    (sources : list (Z * Source)) :
  (forall l r sources',
     audio_callback frames sigs sources = Some (l, r, sources') ->
     (forall s, In s l \/ In s r -> Rabs s <= 1)
     /\ List.length l = frames /\ List.length r = frames
     /\ exists l0 r0 ml mr,
          mix_sources frames sigs sources (repeat 0.0 frames) (repeat 0.0 frames)
          = Some (l0, r0, sources')
          /\ abs_max l0 = Some ml /\ abs_max r0 = Some mr
          /\ (1 < Rmax ml mr ->
              l = map (fun s => s / Rmax ml mr) l0
              /\ r = map (fun s => s / Rmax ml mr) r0)
          /\ (Rmax ml mr <= 1 -> l = l0 /\ r = r0))
  /\ ((0 < frames)%nat ->
      (exists d, Py.dict_get sigs "default" = Some d) ->
      (forall n sig, In (n, sig) sigs -> sig <> []) ->
      exists out, audio_callback frames sigs sources = Some out).
Proof.
  split.
  - intros l r sources' Hcall. unfold audio_callback in Hcall.
    destruct (mix_sources frames sigs sources (repeat 0.0 frames)
                (repeat 0.0 frames)) as [ [ [l0 r0] srcs ] | ] eqn:Emix;
      [ | discriminate Hcall ].
    destruct (mix_sources_length frames sigs sources _ _ _ _ _
                (repeat_length _ _) (repeat_length _ _) Emix) as [Hl0 Hr0].
    destruct (abs_max l0) as [ ml | ] eqn:El; [ | discriminate Hcall ].
    destruct (abs_max r0) as [ mr | ] eqn:Er; [ | discriminate Hcall ].
    pose proof (abs_max_bound l0 ml El) as Bl.
    pose proof (abs_max_bound r0 mr Er) as Br.
    pose proof (Rmax_l ml mr) as Ml. pose proof (Rmax_r ml mr) as Mr.
    destruct (Rlt_dec 1.0 (Rmax ml mr)) as [ Hbig | Hsmall ];
      injection Hcall as <- <- <-.
    + split.
      { intros s [ Hs | Hs ]; apply in_map_iff in Hs;
          destruct Hs as (x & <- & Hx); apply scaled_sample_bound; try lra.
        - specialize (Bl x Hx). lra.
        - specialize (Br x Hx). lra. }
      rewrite !length_map. split; [ exact Hl0 | ]. split; [ exact Hr0 | ].
      exists l0, r0, ml, mr. split; [ reflexivity | ].
      split; [ exact El | ]. split; [ exact Er | ].
      split; [ intros _; split; reflexivity | intro H; exfalso; lra ].
    + split.
      { intros s [ Hs | Hs ].
        - specialize (Bl s Hs). lra.
        - specialize (Br s Hs). lra. }
      split; [ exact Hl0 | ]. split; [ exact Hr0 | ].
      exists l0, r0, ml, mr. split; [ reflexivity | ].
      split; [ exact El | ]. split; [ exact Er | ].
      split; [ intro H; exfalso; lra | intros _; split; reflexivity ].
  - intros Hframes Hd Hne. unfold audio_callback.
    destruct (mix_sources_total frames sigs sources Hd Hne
                (repeat 0.0 frames) (repeat 0.0 frames))
      as ([ [l0 r0] srcs ] & Emix).
    rewrite Emix.
    destruct (mix_sources_length frames sigs sources _ _ _ _ _
                (repeat_length _ _) (repeat_length _ _) Emix) as [Hl0 Hr0].
    destruct (abs_max_some l0) as (ml & ->);
      [ intros ->; cbn in Hl0; lia | ].
    destruct (abs_max_some r0) as (mr & ->);
      [ intros ->; cbn in Hr0; lia | ].
    destruct (Rlt_dec 1.0 (Rmax ml mr)); eexists; reflexivity.
Qed.

End MixProps.

(** ** Intersection over union *)

Module IouProps.

Import ObjectManager.
Open Scope Q_scope.

Lemma ratio_bounds (i u : Z) :
  (0 <= i <= u)%Z -> (0 < u)%Z -> 0 <= inject_Z i / inject_Z u <= 1.
Proof.
  intros Hi Hu. destruct u as [ | p | p ]; try lia.
  unfold Qle, Qdiv, Qmult, Qinv, inject_Z. simpl. lia.
Qed.

Lemma ratio_self (u : Z) : (0 < u)%Z -> inject_Z u / inject_Z u == 1.
Proof.
  intro Hu. destruct u as [ | p | p ]; try lia.
  unfold Qeq, Qdiv, Qmult, Qinv, inject_Z. simpl. lia.
Qed.

Lemma ratio_zero (u : Z) : inject_Z 0 / inject_Z u == 0.
Proof.
  unfold Qdiv. rewrite Qmult_0_l. reflexivity.
Qed.

(** The overlap of two boxes of non-negative size is at most either box. *)
Lemma intersection_le (x1 y1 w1 h1 x2 y2 w2 h2 : Z) :
  (0 <= w1)%Z -> (0 <= h1)%Z -> (0 <= w2)%Z -> (0 <= h2)%Z ->
  let inter :=
    (Z.max 0 (Z.min (x1 + w1) (x2 + w2) - Z.max x1 x2)
     * Z.max 0 (Z.min (y1 + h1) (y2 + h2) - Z.max y1 y2))%Z in
  (0 <= inter <= w1 * h1)%Z /\ (inter <= w2 * h2)%Z.
Proof.
  intros Hw1 Hh1 Hw2 Hh2. cbv zeta.
  set (dx := Z.max 0 (Z.min (x1 + w1) (x2 + w2) - Z.max x1 x2)).
  set (dy := Z.max 0 (Z.min (y1 + h1) (y2 + h2) - Z.max y1 y2)).
  assert (Hdx : (0 <= dx <= w1 /\ dx <= w2)%Z) by (unfold dx; lia).
  assert (Hdy : (0 <= dy <= h1 /\ dy <= h2)%Z) by (unfold dy; lia).
  nia.
Qed.

(** X1: [compute_iou] does not depend on the order of its arguments. *)
Theorem compute_iou_symmetric (box1 box2 : BBox) :
  compute_iou box1 box2 = compute_iou box2 box1.
Proof.
  destruct box1 as [ [ [x1 y1] w1 ] h1 ], box2 as [ [ [x2 y2] w2 ] h2 ].
  unfold compute_iou.
  rewrite (Z.max_comm x2 x1), (Z.max_comm y2 y1).
  rewrite (Z.min_comm (x2 + w2)), (Z.min_comm (y2 + h2)).
  rewrite (Z.add_comm (w2 * h2)).
  reflexivity.
Qed.

(** X2: for boxes of non-negative width and height the IoU is a ratio
    between 0 and 1. *)
Theorem compute_iou_range (box1 box2 : BBox) :
  (0 <= bw box1)%Z -> (0 <= bh box1)%Z ->
  (0 <= bw box2)%Z -> (0 <= bh box2)%Z ->
  0 <= compute_iou box1 box2 <= 1.
Proof.
  destruct box1 as [ [ [x1 y1] w1 ] h1 ], box2 as [ [ [x2 y2] w2 ] h2 ].
  cbn [bw bh]. intros Hw1 Hh1 Hw2 Hh2. unfold compute_iou.
  pose proof (intersection_le x1 y1 w1 h1 x2 y2 w2 h2 Hw1 Hh1 Hw2 Hh2) as Hi.
  cbv zeta in Hi.
  set (inter := (Z.max 0 (Z.min (x1 + w1) (x2 + w2) - Z.max x1 x2)
                 * Z.max 0 (Z.min (y1 + h1) (y2 + h2) - Z.max y1 y2))%Z) in *.
  destruct (w1 * h1 + w2 * h2 - inter =? 0)%Z eqn:E.
  - split; discriminate.
  - apply Z.eqb_neq in E. apply ratio_bounds; lia.
Qed.

Lemma compute_iou_range_example :
  0 <= compute_iou (0, 0, 10, 10)%Z (5, 5, 10, 10)%Z <= 1.
Proof.
  apply compute_iou_range; cbn; lia.
Defined.

(** X3: a box of positive area has IoU 1 with itself. *)
Theorem compute_iou_identical (box : BBox) :
  (0 < bw box)%Z -> (0 < bh box)%Z -> compute_iou box box == 1.
Proof.
  destruct box as [ [ [x y] w ] h ]. cbn [bw bh]. intros Hw Hh.
  unfold compute_iou.
  rewrite !Z.max_id, !Z.min_id.
  replace (x + w - x)%Z with w by lia. replace (y + h - y)%Z with h by lia.
  rewrite !Z.max_r by lia.
  replace (w * h + w * h - w * h)%Z with (w * h)%Z by lia.
  assert (Hpos : (0 < w * h)%Z) by nia.
  destruct (w * h =? 0)%Z eqn:E; [ apply Z.eqb_eq in E; lia | ].
  apply ratio_self. exact Hpos.
Qed.

Lemma compute_iou_identical_example :
  compute_iou (3, 4, 50, 60)%Z (3, 4, 50, 60)%Z == 1.
Proof.
  apply compute_iou_identical; cbn; lia.
Defined.

(** X4: two boxes of which one ends before the other begins, along either
    axis, have IoU 0. *)
Theorem compute_iou_disjoint (box1 box2 : BBox) :
  (bx box1 + bw box1 <= bx box2 \/ bx box2 + bw box2 <= bx box1
   \/ by_ box1 + bh box1 <= by_ box2 \/ by_ box2 + bh box2 <= by_ box1)%Z ->
  compute_iou box1 box2 == 0.
Proof.
  destruct box1 as [ [ [x1 y1] w1 ] h1 ], box2 as [ [ [x2 y2] w2 ] h2 ].
  cbn [bx by_ bw bh]. intro Hsep. unfold compute_iou.
  assert (Hinter :
    (Z.max 0 (Z.min (x1 + w1) (x2 + w2) - Z.max x1 x2)
     * Z.max 0 (Z.min (y1 + h1) (y2 + h2) - Z.max y1 y2) = 0)%Z).
  { destruct Hsep as [ H | [ H | [ H | H ] ] ].
    - rewrite (Z.max_l 0 (Z.min (x1 + w1) (x2 + w2) - Z.max x1 x2)) by lia. lia.
    - rewrite (Z.max_l 0 (Z.min (x1 + w1) (x2 + w2) - Z.max x1 x2)) by lia. lia.
    - rewrite (Z.max_l 0 (Z.min (y1 + h1) (y2 + h2) - Z.max y1 y2)) by lia. lia.
    - rewrite (Z.max_l 0 (Z.min (y1 + h1) (y2 + h2) - Z.max y1 y2)) by lia. lia. }
  rewrite Hinter.
  destruct (w1 * h1 + w2 * h2 - 0 =? 0)%Z; [ reflexivity | apply ratio_zero ].
Qed.

Lemma compute_iou_disjoint_example :
  compute_iou (0, 0, 10, 10)%Z (10, 0, 10, 10)%Z == 0.
Proof.
  apply compute_iou_disjoint. cbn. lia.
Defined.

End IouProps.

(** ** Identity of the tracked objects *)

Module IdentityProps.

Import ObjectManager ModeController.
Open Scope Q_scope.

Lemma ids_fresh_iff (om : t) :
  Invariants.ids_fresh om
  <-> NoDup (map id (objects om))
      /\ Forall (fun i => (i < next_id om)%Z) (map id (objects om)).
Proof.
  unfold Invariants.ids_fresh. rewrite Forall_forall. split.
  - intros [Hnd Hlt]. split; [ exact Hnd | ].
    intros i Hi. apply in_map_iff in Hi. destruct Hi as (o & <- & Ho).
    apply Hlt, Ho.
  - intros [Hnd Hlt]. split; [ exact Hnd | ].
    intros o Ho. apply Hlt. apply in_map, Ho.
Qed.

(** Dropping entries of a table keeps its keys pairwise distinct. *)
Lemma filter_keeps_keys_distinct {V K : Type} (key : V -> K)
    (keep : V -> bool) (entries : list V)
    (Hdistinct : NoDup (map key entries)) :
  NoDup (map key (filter keep entries)).
Proof.
  induction entries as [ | e rest IH ]; cbn [map filter]; [ constructor | ].
  cbn [map] in Hdistinct. apply NoDup_cons_iff in Hdistinct.
  destruct Hdistinct as [Hfresh Hrest].
  destruct (keep e); [ | exact (IH Hrest) ].
  cbn [map]. apply NoDup_cons; [ | exact (IH Hrest) ].
  intro Hin. apply Hfresh. apply in_map_iff in Hin.
  destruct Hin as (x & Hx & Hin). apply filter_In in Hin.
  rewrite <- Hx. apply in_map. apply Hin.
Qed.

(** Keeping a part of the objects keeps the ids fresh. *)
Lemma ids_fresh_filter (om : t) (p : TrackedObject -> bool) :
  Invariants.ids_fresh om ->
  Invariants.ids_fresh
    {| objects := filter p (objects om); next_id := next_id om |}.
Proof.
  intros [Hnd Hlt]. split; cbn [objects next_id].
  - apply filter_keeps_keys_distinct, Hnd.
  - intros o Ho. apply filter_In in Ho. apply Hlt, Ho.
Qed.

(** The reconciliation loop changes neither ids nor labels. *)
Lemma match_existing_id_label (now : Q) (lbl : string) (ctx : option string)
    (b : BBox) (objs : list TrackedObject) :
  map (fun o => (id o, label o)) (fst (match_existing now lbl ctx b objs))
  = map (fun o => (id o, label o)) objs.
Proof.
  destruct (Exists_dec (Spec.matches lbl b) objs
              (ReconcileProps.matches_dec lbl b)) as [ He | He ].
  - apply Exists_exists in He. apply ReconcileProps.first_match_split in He.
    destruct He as (pre & o & post & -> & Hpre & Ho).
    rewrite (ReconcileProps.match_existing_first now lbl ctx b pre post o Hpre Ho).
    cbn [fst]. rewrite !map_app. cbn [map].
    destruct (_ || _); reflexivity.
  - rewrite ReconcileProps.match_existing_none; [ reflexivity | ].
    intros o Ho Hm. apply He. apply Exists_exists. exists o. auto.
Qed.

(** One detection leaves the tracked objects their ids and labels, and
    appends at most one object, whose id is [next_id]. *)
Lemma process_detection_id_label (now : Q) (frame : Frame) (om : t)
    (det : Detection) :
  let om' := fst (process_detection now frame om det) in
  (map (fun o => (id o, label o)) (objects om')
   = map (fun o => (id o, label o)) (objects om)
   /\ next_id om' = next_id om)
  \/ (exists lbl,
        map (fun o => (id o, label o)) (objects om')
        = map (fun o => (id o, label o)) (objects om) ++ [(next_id om, lbl)]
        /\ next_id om' = (next_id om + 1)%Z).
Proof.
  cbv zeta. unfold process_detection.
  destruct (convert_box frame (box_2d det)) as [ b | ]; [ | left; auto ].
  destruct (parse_label _) as [lbl ctx].
  pose proof (match_existing_id_label now lbl ctx b (objects om)) as Hids.
  destruct (match_existing now lbl ctx b (objects om)) as [objs' matched].
  cbn [fst] in Hids.
  destruct matched; cbn [fst objects next_id add_object].
  - left. auto.
  - right. exists lbl. rewrite map_app, Hids. auto.
Qed.

Lemma ids_fresh_step (om om' : t) :
  Invariants.ids_fresh om ->
  (map id (objects om') = map id (objects om) /\ next_id om' = next_id om)
  \/ (map id (objects om') = map id (objects om) ++ [next_id om]
      /\ next_id om' = (next_id om + 1)%Z) ->
  Invariants.ids_fresh om'.
Proof.
  intros Hf Hstep. apply ids_fresh_iff in Hf. destruct Hf as [Hnd Hlt].
  apply ids_fresh_iff.
  destruct Hstep as [ [Hids Hnext] | [Hids Hnext] ]; rewrite Hids, Hnext.
  - auto.
  - split.
    + apply NoDup_app; [ exact Hnd | constructor; [ intros [] | constructor ]
                       | ].
      intros i Hi [ <- | [] ].
      rewrite Forall_forall in Hlt. specialize (Hlt _ Hi). lia.
    + apply Forall_app. split.
      * eapply Forall_impl; [ | exact Hlt ]. cbn. intros. lia.
      * constructor; [ lia | constructor ].
Qed.

Lemma map_fst_pairs (objs : list TrackedObject) :
  map fst (map (fun o => (id o, label o)) objs) = map id objs.
Proof. rewrite map_map. reflexivity. Qed.

(** X5: a detection batch keeps the ids of the live set pairwise distinct
    and below [next_id]; [next_id] does not decrease; the objects tracked
    before the batch are all still there, in their order and with their ids
    and labels, and the objects created follow them. *)
Theorem process_detections_keeps_identity (now : Q) (frame : Frame)
    (detections : list Detection) (om : t) :
  Invariants.ids_fresh om ->
  let om' := fst (process_detections now frame om detections) in
  Invariants.ids_fresh om'
  /\ (next_id om <= next_id om')%Z
  /\ exists created,
       map (fun o => (id o, label o)) (objects om')
       = map (fun o => (id o, label o)) (objects om) ++ created
       /\ Forall (fun il => (next_id om <= fst il)%Z) created.
Proof.
  cbv zeta. unfold process_detections. generalize 0%Z as count.
  revert om. induction detections as [ | det rest IH ]; intros om count Hf.
  - cbn [process_detections_from fst]. split; [ exact Hf | ].
    split; [ lia | ]. exists []. rewrite app_nil_r. auto.
  - cbn [process_detections_from].
    pose proof (process_detection_id_label now frame om det) as Hstep.
    cbv zeta in Hstep.
    destruct (process_detection now frame om det) as [om1 added].
    cbn [fst] in Hstep.
    assert (Hf1 : Invariants.ids_fresh om1).
    { apply (ids_fresh_step om om1 Hf).
      destruct Hstep as [ [Hm Hn] | (lbl & Hm & Hn) ]; [ left | right ];
        (split; [ | exact Hn ]);
        apply (f_equal (map fst)) in Hm; rewrite ?map_app, !map_fst_pairs in Hm;
        exact Hm. }
    destruct (IH om1 (count + added)%Z Hf1) as (Hf' & Hnext & created & Hm' & Hc).
    split; [ exact Hf' | ].
    destruct Hstep as [ [Hm Hn] | (lbl & Hm & Hn) ].
    + split; [ lia | ]. exists created. rewrite Hm', Hm.
      split; [ reflexivity | ]. rewrite Hn in Hc. exact Hc.
    + split; [ lia | ]. exists ((next_id om, lbl) :: created).
      rewrite Hm', Hm, <- app_assoc. split; [ reflexivity | ].
      constructor; [ cbn; lia | ].
      eapply Forall_impl; [ | exact Hc ]. cbn. intros. lia.
Qed.

Lemma far_cup_batch_keeps_identity :
  Invariants.ids_fresh
    (fst (process_detections 1 Scenarios.frame1000
            (Scenarios.manager [Scenarios.active_cup] 1)
            [Scenarios.far_cup; Scenarios.far_cup]))
  /\ (1 <= next_id
             (fst (process_detections 1 Scenarios.frame1000
                     (Scenarios.manager [Scenarios.active_cup] 1)
                     [Scenarios.far_cup; Scenarios.far_cup])))%Z.
Proof.
  assert (Hf : Invariants.ids_fresh
                 (Scenarios.manager [Scenarios.active_cup] 1)).
  { split.
    - repeat constructor; cbn; intuition discriminate.
    - intros o [ <- | [] ]; reflexivity. }
  pose proof (process_detections_keeps_identity 1 Scenarios.frame1000
                [Scenarios.far_cup; Scenarios.far_cup]
                (Scenarios.manager [Scenarios.active_cup] 1) Hf) as H.
  cbv zeta in H.
  split; [ exact (proj1 H) | exact (proj1 (proj2 H)) ].
Defined.

End IdentityProps.

(** ** Limiting the object set *)

Module LimitProps.

Import ObjectManager ObjectSet.
Open Scope Q_scope.

Lemma insert_by_confidence_perm (o : TrackedObject) (s : list TrackedObject) :
  Permutation (insert_by_confidence o s) (o :: s).
Proof.
  induction s as [ | p s IH ]; cbn [insert_by_confidence].
  - apply Permutation_refl.
  - destruct (Py.Qltb (confidence o) (confidence p)).
    + eapply Permutation_trans; [ apply perm_skip, IH | apply perm_swap ].
    + apply Permutation_refl.
Qed.

Lemma sorted_by_confidence_perm (objs : list TrackedObject) :
  Permutation (sorted_by_confidence objs) objs.
Proof.
  induction objs as [ | o objs IH ]; cbn [sorted_by_confidence].
  - apply perm_nil.
  - eapply Permutation_trans; [ apply insert_by_confidence_perm | ].
    apply perm_skip, IH.
Qed.

Lemma insert_by_confidence_sorted (o : TrackedObject) (s : list TrackedObject) :
  StronglySorted Invariants.by_confidence s ->
  StronglySorted Invariants.by_confidence (insert_by_confidence o s).
Proof.
  induction s as [ | p s IH ]; intro Hs; cbn [insert_by_confidence].
  - constructor; [ constructor | constructor ].
  - inversion Hs as [ | x xs Hxs Hall ]; subst.
    destruct (Py.Qltb (confidence o) (confidence p)) eqn:E.
    + constructor; [ apply IH, Hxs | ].
      assert (Hperm := insert_by_confidence_perm o s).
      rewrite Forall_forall. intros q Hq.
      apply (Permutation_in _ Hperm) in Hq. destruct Hq as [ <- | Hq ].
      * unfold Invariants.by_confidence.
        apply Qlt_le_weak, PyFacts.Qltb_true, E.
      * rewrite Forall_forall in Hall. apply Hall, Hq.
    + apply PyFacts.Qltb_false in E.
      constructor; [ exact Hs | ].
      constructor; [ exact E | ].
      eapply Forall_impl; [ | exact Hall ].
      unfold Invariants.by_confidence. intros q Hq.
      eapply Qle_trans; eassumption.
Qed.

Lemma sorted_by_confidence_sorted (objs : list TrackedObject) :
  StronglySorted Invariants.by_confidence (sorted_by_confidence objs).
Proof.
  induction objs as [ | o objs IH ]; cbn [sorted_by_confidence].
  - constructor.
  - apply insert_by_confidence_sorted, IH.
Qed.

Lemma sorted_split {A : Type} (R : A -> A -> Prop) (l1 l2 : list A) :
  StronglySorted R (l1 ++ l2) ->
  forall a b, In a l1 -> In b l2 -> R a b.
Proof.
  induction l1 as [ | x l1 IH ]; intros Hs a b Ha Hb; [ destruct Ha | ].
  cbn [app] in Hs. inversion Hs as [ | y ys Hys Hall ]; subst.
  destruct Ha as [ <- | Ha ].
  - rewrite Forall_forall in Hall. apply Hall. apply in_or_app. right. exact Hb.
  - exact (IH Hys a b Ha Hb).
Qed.

Lemma limit_objects_split (om : t) (max_count : Z) :
  exists dropped,
    Permutation (objects (limit_objects om max_count) ++ dropped) (objects om)
    /\ forall k d,
         In k (objects (limit_objects om max_count)) -> In d dropped ->
         confidence d <= confidence k.
Proof.
  unfold limit_objects.
  pose proof (sorted_by_confidence_perm (objects om)) as Hperm.
  destruct (max_count <? Z.of_nat (List.length (objects om)))%Z.
  - cbn [objects].
    assert (Hslice : exists n,
              slice_to (sorted_by_confidence (objects om)) max_count
              = firstn n (sorted_by_confidence (objects om))).
    { unfold slice_to. destruct (max_count <? 0)%Z; eexists; reflexivity. }
    destruct Hslice as (n & ->).
    exists (skipn n (sorted_by_confidence (objects om))). split.
    + rewrite firstn_skipn. exact Hperm.
    + intros k d Hk Hd.
      apply (sorted_split Invariants.by_confidence
               (firstn n (sorted_by_confidence (objects om)))
               (skipn n (sorted_by_confidence (objects om)))); try assumption.
      rewrite firstn_skipn. apply sorted_by_confidence_sorted.
  - exists []. rewrite app_nil_r. split; [ apply Permutation_refl | ].
    intros k d _ [].
Qed.

Lemma limit_objects_next_id (om : t) (max_count : Z) :
  next_id (limit_objects om max_count) = next_id om.
Proof.
  unfold limit_objects. destruct (_ <? _)%Z; reflexivity.
Qed.

(** X6: [limit_objects] with a non-negative limit leaves a set within the
    limit untouched, order included; a larger set is cut to exactly
    [max_count] objects, and every object kept is at least as confident as
    every object dropped; the objects kept and dropped together are the
    objects there were.  A negative limit counts from the end of the sorted
    list, as a Python slice does. *)
Theorem limit_objects_keeps_most_confident (om : t) (max_count : Z) :
  ((Z.of_nat (List.length (objects om)) <= max_count)%Z ->
   limit_objects om max_count = om)
  /\ ((0 <= max_count < Z.of_nat (List.length (objects om)))%Z ->
      List.length (objects (limit_objects om max_count)) = Z.to_nat max_count)
  /\ ((max_count < 0)%Z ->
      List.length (objects (limit_objects om max_count))
      = Z.to_nat (Z.of_nat (List.length (objects om)) + max_count))
  /\ (exists dropped,
        Permutation (objects (limit_objects om max_count) ++ dropped)
                    (objects om)
        /\ forall k d,
             In k (objects (limit_objects om max_count)) -> In d dropped ->
             confidence d <= confidence k)
  /\ next_id (limit_objects om max_count) = next_id om.
Proof.
  pose proof (limit_objects_split om max_count) as Hsplit.
  pose proof (limit_objects_next_id om max_count) as Hnext.
  revert Hsplit Hnext. unfold limit_objects.
  pose proof (sorted_by_confidence_perm (objects om)) as Hperm.
  pose proof (Permutation_length Hperm) as Hlen.
  destruct (max_count <? Z.of_nat (List.length (objects om)))%Z eqn:E;
    intros Hsplit Hnext.
  - apply Z.ltb_lt in E. cbn [objects next_id].
    split; [ intro H; lia | ].
    split; [ | split; [ | split; [ exact Hsplit | reflexivity ] ] ].
    + intros [H0 _]. unfold slice_to.
      destruct (max_count <? 0)%Z eqn:En; [ apply Z.ltb_lt in En; lia | ].
      rewrite length_firstn, Hlen. lia.
    + intro Hneg. unfold slice_to.
      destruct (max_count <? 0)%Z eqn:En; [ | apply Z.ltb_ge in En; lia ].
      rewrite length_firstn, Hlen. lia.
  - apply Z.ltb_ge in E.
    split; [ reflexivity | ]. split; [ intro H; lia | ].
    split; [ intro H; lia | ]. split; [ exact Hsplit | reflexivity ].
Qed.

End LimitProps.

(** ** Maintenance of the object set *)

Module MaintenanceProps.

Import ObjectManager ObjectSet ModeController.
Open Scope Q_scope.

Lemma update_one_id (now : Q) (frame : Frame) (o : TrackedObject) :
  id (fst (update_one now frame o)) = id o
  /\ label (fst (update_one now frame o)) = label o.
Proof.
  unfold update_one. destruct (tracker o) as [ trk | ].
  - destruct (trk frame) as [ b | b | ].
    + unfold config.MOTION_PREDICTION_ENABLED.
      set (o2 := set_lost_time (set_is_lost (update_velocity now o b) false) None).
      destruct (ThreatProps.predict_position_fields
                  config.PREDICTION_HORIZON_SECONDS o2) as (Pid & Plbl & _).
      destruct (tick_threat _ b frame); cbn [fst id label set_threat_score];
        rewrite Pid, Plbl; split; reflexivity.
    + unfold mark_lost. destruct (is_lost o); split; reflexivity.
    + split; reflexivity.
  - unfold mark_lost. destruct (is_lost o); split; reflexivity.
Qed.

Lemma update_trackers_ids (now : Q) (frame : Frame) (om : t) :
  map id (objects (fst (update_trackers now frame om))) = map id (objects om).
Proof.
  unfold update_trackers. cbn [fst objects]. rewrite !map_map.
  apply map_ext. intro o. apply update_one_id.
Qed.

Lemma ids_fresh_same_ids (om om' : t) :
  map id (objects om') = map id (objects om) ->
  next_id om' = next_id om ->
  Invariants.ids_fresh om -> Invariants.ids_fresh om'.
Proof.
  intros Hids Hnext Hf. apply IdentityProps.ids_fresh_iff.
  apply IdentityProps.ids_fresh_iff in Hf. rewrite Hids, Hnext. exact Hf.
Qed.

Lemma ids_fresh_permuted_part (om : t) (kept dropped : list TrackedObject) :
  Permutation (kept ++ dropped) (objects om) ->
  Invariants.ids_fresh om ->
  Invariants.ids_fresh {| objects := kept; next_id := next_id om |}.
Proof.
  intros Hperm [Hnd Hlt]. split; cbn [objects next_id].
  - apply (Permutation_map id) in Hperm. rewrite map_app in Hperm.
    apply Permutation_sym in Hperm.
    apply (Permutation_NoDup Hperm) in Hnd.
    apply NoDup_app_remove_r in Hnd. exact Hnd.
  - intros o Ho. apply Hlt. apply (Permutation_in _ Hperm).
    apply in_or_app. left. exact Ho.
Qed.

(** X7: the operations that run between detection batches keep the ids of
    the live set pairwise distinct and below [next_id]: the tracker tick, the
    staleness cleanup, the lost-threat check, removal by id, clearing,
    filtering by label, limiting, and the addition of an object. *)
Theorem maintenance_keeps_ids_fresh (om : t) :
  Invariants.ids_fresh om ->
  (forall now frame,
     Invariants.ids_fresh (fst (update_trackers now frame om)))
  /\ (forall now max_age,
        Invariants.ids_fresh (fst (cleanup_stale_trackers now max_age om)))
  /\ (forall now, Invariants.ids_fresh (fst (check_lost_threats now om)))
  /\ (forall obj_id, Invariants.ids_fresh (remove_object om obj_id))
  /\ Invariants.ids_fresh (clear om)
  /\ (forall labels, Invariants.ids_fresh (filter_by_labels om labels))
  /\ (forall max_count, Invariants.ids_fresh (limit_objects om max_count))
  /\ (forall now lbl b conf ctx,
        Invariants.ids_fresh (fst (add_object now om lbl b conf ctx))).
Proof.
  intro Hf.
  split; [ | split; [ | split; [ | split; [ | split; [ | split; [ | split ] ] ] ] ] ].
  - intros now frame.
    apply (ids_fresh_same_ids om); [ apply update_trackers_ids | reflexivity | exact Hf ].
  - intros now max_age. unfold cleanup_stale_trackers. cbn [fst].
    apply IdentityProps.ids_fresh_filter, Hf.
  - intro now. unfold check_lost_threats.
    destruct (get_main_threat om) as [ m | ]; [ | exact Hf ].
    destruct (_ && _); [ | exact Hf ].
    destruct (_ && _); [ | exact Hf ].
    cbn [fst]. apply IdentityProps.ids_fresh_filter, Hf.
  - intro obj_id. apply IdentityProps.ids_fresh_filter, Hf.
  - split; cbn [clear objects map]; [ constructor | intros o [] ].
  - intro labels. apply IdentityProps.ids_fresh_filter, Hf.
  - intro max_count.
    destruct (LimitProps.limit_objects_split om max_count)
      as (dropped & Hperm & _).
    pose proof (LimitProps.limit_objects_next_id om max_count) as Hnext.
    pose proof (ids_fresh_permuted_part om _ dropped Hperm Hf) as H.
    destruct H as [Hnd Hlt]. split.
    + exact Hnd.
    + rewrite Hnext. exact Hlt.
  - intros now lbl b conf ctx.
    apply (IdentityProps.ids_fresh_step om); [ exact Hf | ].
    right. cbn [add_object fst objects next_id]. rewrite map_app.
    split; reflexivity.
Qed.

Lemma street_maintenance_keeps_ids_fresh :
  Invariants.ids_fresh (remove_object Scenarios.street 0)
  /\ Invariants.ids_fresh (limit_objects Scenarios.street 1)
  /\ Invariants.ids_fresh
       (fst (update_trackers 5 Scenarios.vga Scenarios.street)).
Proof.
  assert (Hf : Invariants.ids_fresh Scenarios.street).
  { split.
    - repeat constructor; cbn; intuition discriminate.
    - intros o [ <- | [ <- | [] ] ]; reflexivity. }
  pose proof (maintenance_keeps_ids_fresh Scenarios.street Hf)
    as (Hu & _ & _ & Hr & _ & _ & Hl & _).
  split; [ exact (Hr 0%Z) | ].
  split; [ exact (Hl 1%Z) | exact (Hu 5 Scenarios.vga) ].
Defined.

End MaintenanceProps.

(** ** Look-up by id *)

Module LookupProps.

Import ObjectManager ObjectSet.
Open Scope Q_scope.

Lemma find_none_iff {A : Type} (p : A -> bool) (l : list A) :
  find p l = None <-> forall x, In x l -> p x = false.
Proof.
  split; [ apply find_none | ].
  induction l as [ | a l IH ]; intro H; cbn [find]; [ reflexivity | ].
  rewrite (H a (or_introl eq_refl)). apply IH.
  intros x Hx. apply H. right. exact Hx.
Qed.

Lemma find_append {A : Type} (p : A -> bool) (l1 l2 : list A) :
  find p (l1 ++ l2)
  = match find p l1 with Some y => Some y | None => find p l2 end.
Proof.
  induction l1 as [ | a l1 IH ]; cbn [app find]; [ reflexivity | ].
  destruct (p a); [ reflexivity | exact IH ].
Qed.

Lemma find_in_filter (objs : list TrackedObject) (i j : Z) :
  j <> i ->
  find (fun obj => (id obj =? j)%Z)
       (filter (fun obj => negb (id obj =? i)%Z) objs)
  = find (fun obj => (id obj =? j)%Z) objs.
Proof.
  intro Hne. induction objs as [ | a objs IH ]; cbn [filter find];
    [ reflexivity | ].
  destruct (id a =? i)%Z eqn:Ei; cbn [negb find].
  - apply Z.eqb_eq in Ei.
    destruct (id a =? j)%Z eqn:Ej; [ apply Z.eqb_eq in Ej; lia | exact IH ].
  - destruct (id a =? j)%Z; [ reflexivity | exact IH ].
Qed.

Lemma find_by_unique_id (objs : list TrackedObject) (o : TrackedObject) :
  NoDup (map id objs) -> In o objs ->
  find (fun obj => (id obj =? id o)%Z) objs = Some o.
Proof.
  induction objs as [ | a objs IH ]; intros Hnd Hin; [ destruct Hin | ].
  cbn [map] in Hnd. inversion Hnd as [ | x xs Hnotin Hnd' ]; subst.
  cbn [find]. destruct Hin as [ -> | Hin ].
  - rewrite Z.eqb_refl. reflexivity.
  - destruct (id a =? id o)%Z eqn:E.
    + apply Z.eqb_eq in E. exfalso. apply Hnotin. rewrite E.
      apply in_map, Hin.
    + apply IH; assumption.
Qed.

(** X8: with pairwise distinct ids below [next_id], [get_object] finds an
    object exactly under its own id; it finds the object [add_object] has
    just added under the id that was given to it, and nothing under an id
    that [remove_object] has removed; both leave the look-up of every other
    id as it was. *)
Theorem get_object_round_trip (om : t) :
  Invariants.ids_fresh om ->
  (forall i o, get_object om i = Some o <-> In o (objects om) /\ id o = i)
  /\ (forall now lbl b conf ctx,
        let om' := fst (add_object now om lbl b conf ctx) in
        let new := snd (add_object now om lbl b conf ctx) in
        get_object om' (id new) = Some new
        /\ forall i, i <> id new -> get_object om' i = get_object om i)
  /\ (forall i,
        get_object (remove_object om i) i = None
        /\ forall j, j <> i ->
             get_object (remove_object om i) j = get_object om j).
Proof.
  intros [Hnd Hlt]. unfold get_object. split; [ | split ].
  - intros i o. split.
    + intro H. apply find_some in H. destruct H as [Hin Hid].
      apply Z.eqb_eq in Hid. auto.
    + intros [Hin <-]. apply find_by_unique_id; assumption.
  - intros now lbl b conf ctx. cbv zeta.
    cbn [add_object fst snd objects id].
    assert (Hnone : find (fun obj => (id obj =? next_id om)%Z) (objects om)
                    = None).
    { apply find_none_iff. intros x Hx. apply Z.eqb_neq.
      specialize (Hlt x Hx). lia. }
    split.
    + rewrite find_append, Hnone. cbn [find id]. rewrite Z.eqb_refl.
      reflexivity.
    + intros i Hi. rewrite find_append.
      destruct (find (fun obj => (id obj =? i)%Z) (objects om));
        [ reflexivity | ].
      cbn [find id]. destruct (next_id om =? i)%Z eqn:E; [ | reflexivity ].
      apply Z.eqb_eq in E. congruence.
  - intro i. unfold remove_object. cbn [objects]. split.
    + apply find_none_iff. intros x Hx. apply filter_In in Hx.
      destruct Hx as [_ Hx]. apply negb_true_iff in Hx. exact Hx.
    + intros j Hj. apply find_in_filter. exact Hj.
Qed.

Lemma get_object_round_trip_example :
  ObjectSet.get_object
    (fst (add_object 5 Scenarios.street "door" (10, 10, 50, 90)%Z 1 None)) 2
  = Some (snd (add_object 5 Scenarios.street "door" (10, 10, 50, 90)%Z 1 None)).
Proof.
  assert (Hf : Invariants.ids_fresh Scenarios.street).
  { split.
    - repeat constructor; cbn; intuition discriminate.
    - intros o [ <- | [ <- | [] ] ]; reflexivity. }
  exact (proj1 (proj1 (proj2 (get_object_round_trip Scenarios.street Hf))
                  5 "door"%string (10, 10, 50, 90)%Z 1 None)).
Defined.

End LookupProps.

(** ** One tracker tick *)

Module TickProps.

Import ObjectManager.
Open Scope Q_scope.

(** X9: in one call of [update_trackers] an object whose tracker is absent
    or reports failure ends up lost; if it was lost already it is left
    exactly as it was, lost time included, and otherwise its lost time is the
    time of the call.  An object whose tracker raises is left exactly as it
    was, also when it was not lost.  An object whose tracker succeeds is not
    lost and has no lost time.  The objects returned as tracked are not
    lost. *)
Theorem update_trackers_lost_bookkeeping (now : Q) (frame : Frame) (om : t) :
  (forall n o, nth_error (objects om) n = Some o ->
     exists o', nth_error (objects (fst (update_trackers now frame om))) n
                = Some o'
       /\ match tracker o with
          | None =>
              is_lost o' = true
              /\ (is_lost o = true -> o' = o)
              /\ (is_lost o = false -> lost_time o' = Some now)
          | Some trk =>
              match trk frame with
              | UpdateOk b =>
                  is_lost o' = false /\ lost_time o' = None /\ bbox o' = b
              | UpdateFail _ =>
                  is_lost o' = true
                  /\ (is_lost o = true -> o' = o)
                  /\ (is_lost o = false -> lost_time o' = Some now)
              | UpdateRaise => o' = o
              end
          end)
  /\ (forall o', In o' (snd (update_trackers now frame om)) ->
                 is_lost o' = false /\ lost_time o' = None).
Proof.
  assert (Hmark : forall o,
            is_lost (mark_lost now o) = true
            /\ (is_lost o = true -> mark_lost now o = o)
            /\ (is_lost o = false -> lost_time (mark_lost now o) = Some now)).
  { intro o. unfold mark_lost. destruct (is_lost o) eqn:E.
    - repeat split; try assumption; discriminate.
    - repeat split. discriminate. }
  assert (Hok : forall o trk b,
            tracker o = Some trk -> trk frame = UpdateOk b ->
            is_lost (fst (update_one now frame o)) = false
            /\ lost_time (fst (update_one now frame o)) = None
            /\ bbox (fst (update_one now frame o)) = b).
  { intros o trk b Ht Hb. unfold update_one. rewrite Ht, Hb.
    unfold config.MOTION_PREDICTION_ENABLED.
    set (o2 := set_lost_time (set_is_lost (update_velocity now o b) false) None).
    destruct (ThreatProps.predict_position_fields
                config.PREDICTION_HORIZON_SECONDS o2)
      as (_ & _ & Pbb & _ & Plost & Ptime).
    destruct (tick_threat _ b frame);
      cbn [fst is_lost lost_time bbox set_threat_score];
      rewrite Plost, Ptime, Pbb; repeat split. }
  split.
  - intros n o Hn. exists (fst (update_one now frame o)). split.
    { unfold update_trackers. cbn [fst objects]. rewrite map_map.
      exact (map_nth_error (fun x => fst (update_one now frame x)) n _ Hn). }
    destruct (tracker o) as [ trk | ] eqn:Ht.
    + destruct (trk frame) as [ b | b | ] eqn:Hb.
      * exact (Hok o trk b Ht Hb).
      * unfold update_one. rewrite Ht, Hb. cbn [fst]. apply Hmark.
      * unfold update_one. rewrite Ht, Hb. reflexivity.
    + unfold update_one. rewrite Ht. cbn [fst]. apply Hmark.
  - intros o' Ho'. unfold update_trackers in Ho'. cbn [snd] in Ho'.
    apply in_map_iff in Ho'. destruct Ho' as ([o1 flag] & <- & Hin).
    apply filter_In in Hin. destruct Hin as [Hin Hflag]. cbn [snd] in Hflag.
    subst flag. apply in_map_iff in Hin. destruct Hin as (o & Hone & _).
    cbn [fst].
    destruct (tracker o) as [ trk | ] eqn:Ht.
    + destruct (trk frame) as [ b | b | ] eqn:Hb.
      * destruct (Hok o trk b Ht Hb) as (H1 & H2 & _).
        rewrite Hone in H1, H2. cbn [fst] in H1, H2. auto.
      * unfold update_one in Hone. rewrite Ht, Hb in Hone. discriminate Hone.
      * unfold update_one in Hone. rewrite Ht, Hb in Hone. discriminate Hone.
    + unfold update_one in Hone. rewrite Ht in Hone. discriminate Hone.
Qed.

(** The score of a tick lies between 0 and 1. *)
Lemma tick_threat_range (lbl : string) (b : BBox) (frame : Frame) (score : Q) :
  (0 <= bw b)%Z -> (0 <= bh b)%Z ->
  (0 <= shape0 frame)%Z -> (0 <= shape1 frame)%Z ->
  tick_threat lbl b frame = Some score -> 0 <= score <= 1.
Proof.
  intros Hw Hh H0 H1. unfold tick_threat. cbv zeta.
  destruct (Qeq_bool (inject_Z (shape0 frame * shape1 frame) * 0.5) 0) eqn:Ea;
    [ discriminate | ].
  destruct (Qeq_bool (inject_Z (shape1 frame) / 2) 0) eqn:Eb; [ discriminate | ].
  match goal with
  | |- Some ?v = Some _ -> _ =>
      intro Hs; assert (Hv : score = v) by congruence; rewrite Hv;
      clear Hv Hs
  end.
  apply Qeq_bool_neq in Ea, Eb.
  assert (Hfa : 0 < inject_Z (shape0 frame * shape1 frame) * 0.5).
  { destruct (Z.eq_dec (shape0 frame * shape1 frame) 0) as [ e | ne ].
    - exfalso. apply Ea. rewrite e. reflexivity.
    - assert (Hpos : (0 < shape0 frame * shape1 frame)%Z) by nia.
      rewrite Zlt_Qlt in Hpos. change (inject_Z 0) with 0 in Hpos.
      Lqa.lra. }
  assert (Hhw : 0 < inject_Z (shape1 frame) / 2).
  { destruct (Z.eq_dec (shape1 frame) 0) as [ e | ne ].
    - exfalso. apply Eb. rewrite e. reflexivity.
    - assert (Hpos : (0 < shape1 frame)%Z) by lia.
      rewrite Zlt_Qlt in Hpos. change (inject_Z 0) with 0 in Hpos.
      apply Qlt_shift_div_l; [ reflexivity | ]. rewrite Qmult_0_l.
      exact Hpos. }
  assert (Hsize : 0 <= inject_Z (bw b * bh b)
                       / (inject_Z (shape0 frame * shape1 frame) * 0.5)).
  { apply Qle_shift_div_l; [ exact Hfa | ]. rewrite Qmult_0_l.
    assert (Hge : (0 <= bw b * bh b)%Z) by nia.
    rewrite Zle_Qle in Hge. exact Hge. }
  assert (Hdist : 0 <= Qabs (inject_Z (bx b) + inject_Z (bw b) / 2
                             - inject_Z (shape1 frame) / 2)
                       / (inject_Z (shape1 frame) / 2)).
  { apply Qle_shift_div_l; [ exact Hhw | ]. rewrite Qmult_0_l.
    apply Qabs_nonneg. }
  assert (Hmin : forall q, 0 <= q -> 0 <= Py.min_Q 1.0 q <= 1).
  { intros q Hq. split.
    - unfold Py.min_Q. destruct (Py.Qltb q 1.0); [ exact Hq | discriminate ].
    - eapply Qle_trans; [ apply PyFacts.min_Q_le_l | discriminate ]. }
  destruct (Hmin _ Hsize) as [Hs0 Hs1]. destruct (Hmin _ Hdist) as [Hd0 Hd1].
  set (s := Py.min_Q 1.0 (inject_Z (bw b * bh b) / _)) in *.
  set (m := Py.min_Q 1.0 (Qabs _ / _)) in *.
  clearbody s m. split; Lqa.lra.
Qed.

(** X10: when the frame has non-negative dimensions and the trackers return
    boxes of non-negative width and height, a tick keeps every threat score
    between 0 and 1. *)
Theorem update_trackers_keeps_scores_in_range
    (now : Q) (frame : Frame) (om : t) :
  (0 <= shape0 frame)%Z -> (0 <= shape1 frame)%Z ->
  (forall o trk b, In o (objects om) -> tracker o = Some trk ->
                   trk frame = UpdateOk b -> (0 <= bw b)%Z /\ (0 <= bh b)%Z) ->
  Invariants.scores_in_range (objects om) ->
  Invariants.scores_in_range (objects (fst (update_trackers now frame om))).
Proof.
  intros H0 H1 Hbox Hrange o' Ho'.
  unfold update_trackers in Ho'. cbn [fst objects] in Ho'.
  rewrite map_map in Ho'. apply in_map_iff in Ho'.
  destruct Ho' as (o & <- & Ho). specialize (Hrange o Ho).
  unfold update_one. destruct (tracker o) as [ trk | ] eqn:Ht.
  - destruct (trk frame) as [ b | b | ] eqn:Hb.
    + unfold config.MOTION_PREDICTION_ENABLED.
      set (o2 := set_lost_time (set_is_lost (update_velocity now o b) false) None).
      destruct (ThreatProps.predict_position_fields
                  config.PREDICTION_HORIZON_SECONDS o2)
        as (_ & _ & _ & Pth & _).
      destruct (Hbox o trk b Ho Ht Hb) as [Hw Hh].
      destruct (tick_threat _ b frame) as [ score | ] eqn:Es;
        cbn [fst threat_score set_threat_score].
      * exact (tick_threat_range _ b frame score Hw Hh H0 H1 Es).
      * rewrite Pth. exact Hrange.
    + cbn [fst]. unfold mark_lost. destruct (is_lost o); exact Hrange.
    + exact Hrange.
  - cbn [fst]. unfold mark_lost. destruct (is_lost o); exact Hrange.
Qed.

Lemma centred_cup_score_in_range :
  Invariants.scores_in_range
    (objects (fst (update_trackers 1 Scenarios.vga
                     (Scenarios.manager [Scenarios.centred_cup] 1)))).
Proof.
  apply update_trackers_keeps_scores_in_range.
  - discriminate.
  - discriminate.
  - intros o trk b [ <- | [] ] Ht Hb. cbn in Ht. injection Ht as <-.
    injection Hb as <-. split; discriminate.
  - intros o [ <- | [] ]. split; discriminate.
Defined.

(** The predicted box of [predict_position] always has the width and
    height of the current box, and it is the current box itself when there is
    no velocity or when both velocity components are below 5 pixels per
    frame in magnitude. *)
Theorem predict_position_keeps_size (horizon : Q) (o : TrackedObject) :
  (exists p, predicted_bbox (predict_position horizon o) = Some p
             /\ bw p = bw (bbox o) /\ bh p = bh (bbox o))
  /\ (velocity o = None ->
      predicted_bbox (predict_position horizon o) = Some (bbox o))
  /\ (forall vx vy, velocity o = Some (vx, vy) ->
        Qabs vx < 5 -> Qabs vy < 5 ->
        predicted_bbox (predict_position horizon o) = Some (bbox o))
  /\ bbox (predict_position horizon o) = bbox o.
Proof.
  unfold predict_position.
  destruct (velocity o) as [ [vx vy] | ] eqn:Ev.
  - destruct (Py.Qltb (Qabs vx) config.MIN_VELOCITY_THRESHOLD
              && Py.Qltb (Qabs vy) config.MIN_VELOCITY_THRESHOLD) eqn:E.
    + split; [ eexists; split; [ reflexivity | auto ] | ].
      split; [ discriminate | ]. split; [ reflexivity | reflexivity ].
    + split; [ eexists; split; [ reflexivity | split; reflexivity ] | ].
      split; [ discriminate | ]. split; [ | reflexivity ].
      intros vx' vy' Hv Hx Hy. injection Hv as <- <-.
      apply andb_false_iff in E.
      destruct E as [ E | E ]; apply PyFacts.Qltb_false in E;
        unfold config.MIN_VELOCITY_THRESHOLD in E; exfalso.
      * exact (Qlt_not_le _ _ Hx E).
      * exact (Qlt_not_le _ _ Hy E).
  - split; [ eexists; split; [ reflexivity | auto ] | ].
    split; [ reflexivity | ]. split; [ discriminate | reflexivity ].
Qed.

End TickProps.

(** ** The closest object *)

Module ClosestProps.

Import ObjectManager ObjectSet Invariants.

Lemma closest_fold (objs : list TrackedObject) :
  forall (m0 : Z) (c0 : option TrackedObject),
    let r := fold_left closest_step objs (m0, c0) in
    (m0 <= fst r)%Z
    /\ (forall o, In o objs -> (area o <= fst r)%Z)
    /\ ((fst r = m0 /\ snd r = c0)
        \/ ((m0 < fst r)%Z
            /\ exists pre o post,
                 objs = pre ++ o :: post /\ snd r = Some o /\ area o = fst r
                 /\ forall p, In p pre -> (area p < fst r)%Z)).
Proof.
  induction objs as [ | a objs IH ]; intros m0 c0; cbv zeta.
  - cbn [fold_left fst snd]. split; [ lia | ].
    split; [ intros o [] | left; auto ].
  - cbn [fold_left].
    assert (Hstep : closest_step (m0, c0) a
                    = if (m0 <? area a)%Z then (area a, Some a) else (m0, c0))
      by reflexivity.
    rewrite Hstep. clear Hstep.
    destruct (m0 <? area a)%Z eqn:E.
    + apply Z.ltb_lt in E.
      specialize (IH (area a) (Some a)). cbv zeta in IH.
      destruct IH as (Hle & Hall & Hwho).
      split; [ lia | ]. split.
      * intros o [ <- | Ho ]; [ exact Hle | apply Hall, Ho ].
      * right. split; [ lia | ].
        destruct Hwho as [ [Hm Hc] | (Hlt & pre & o & post & Hs & Hc & Ha & Hp) ].
        -- exists [], a, objs. split; [ reflexivity | ].
           split; [ exact Hc | ]. split; [ symmetry; exact Hm | intros p [] ].
        -- exists (a :: pre), o, post.
           split; [ cbn [app]; f_equal; exact Hs | ].
           split; [ exact Hc | ]. split; [ exact Ha | ].
           intros p [ <- | Hin ]; [ exact Hlt | apply Hp, Hin ].
    + apply Z.ltb_ge in E.
      specialize (IH m0 c0). cbv zeta in IH.
      destruct IH as (Hle & Hall & Hwho).
      split; [ exact Hle | ]. split.
      * intros o [ <- | Ho ]; [ lia | apply Hall, Ho ].
      * destruct Hwho as [ Hsame | (Hlt & pre & o & post & Hs & Hc & Ha & Hp) ].
        -- left. exact Hsame.
        -- right. split; [ exact Hlt | ].
           exists (a :: pre), o, post.
           split; [ cbn [app]; f_equal; exact Hs | ].
           split; [ exact Hc | ]. split; [ exact Ha | ].
           intros p [ <- | Hin ]; [ lia | apply Hp, Hin ].
Qed.

(** X11: [get_closest_object] returns no object exactly when no object has
    a box of positive area, the empty set included; the object it returns
    has a positive area that no object exceeds, and is the first of that area
    in list order.  The frame dimensions it is given play no part. *)
Theorem get_closest_object_is_largest (om : t) (frame_width frame_height : Z) :
  (get_closest_object om frame_width frame_height = None
   <-> forall o, In o (objects om) -> (area o <= 0)%Z)
  /\ (forall o, get_closest_object om frame_width frame_height = Some o ->
        (0 < area o)%Z
        /\ exists pre post,
             objects om = pre ++ o :: post
             /\ (forall p, In p pre -> (area p < area o)%Z)
             /\ (forall q, In q post -> (area q <= area o)%Z))
  /\ (forall w h, get_closest_object om w h
                  = get_closest_object om frame_width frame_height).
Proof.
  assert (Hfold := closest_fold (objects om) 0%Z None). cbv zeta in Hfold.
  destruct Hfold as (Hle & Hall & Hwho).
  assert (Hget : get_closest_object om frame_width frame_height
                 = snd (fold_left closest_step (objects om) (0%Z, None))).
  { unfold get_closest_object. destruct (objects om); reflexivity. }
  split; [ | split; [ | reflexivity ] ].
  - rewrite Hget. split.
    + intros Hnone o Ho.
      destruct Hwho as [ [Hm _] | (_ & pre & x & post & _ & Hc & _) ].
      * specialize (Hall o Ho). lia.
      * congruence.
    + intro Hsmall.
      destruct Hwho as [ [_ Hc] | (Hlt & pre & x & post & Hs & Hc & Ha & _) ];
        [ exact Hc | ].
      exfalso. assert (Hin : In x (objects om))
        by (rewrite Hs; apply in_or_app; right; left; reflexivity).
      specialize (Hsmall x Hin). lia.
  - intros o Ho. rewrite Hget in Ho.
    destruct Hwho as [ [_ Hc] | (Hlt & pre & x & post & Hs & Hc & Ha & Hp) ];
      [ congruence | ].
    assert (x = o) by congruence. subst x.
    split; [ lia | ]. exists pre, post. split; [ exact Hs | ]. split.
    + intros p Hin. rewrite Ha. apply Hp, Hin.
    + intros q Hin. rewrite Ha. apply Hall. rewrite Hs.
      apply in_or_app. right. right. exact Hin.
Qed.

End ClosestProps.

(** ** Classification by proximity zone *)

Module ZoneProps.

Import ObjectManager.
Open Scope Q_scope.

(** X12: on a frame of non-zero area the zones partition the ratios from 0
    up to 1: a ratio below 0.3 is "safe", from 0.3 and below 0.6 "caution",
    from 0.6 and below 1 "warning"; a negative ratio is "safe".  Whatever
    the ratio, the name returned is a key of [PROXIMITY_ZONES], so that the
    colour look-up of the caller cannot miss. *)
Theorem get_proximity_zone_classifies
    (obj : TrackedObject) (frame_width frame_height : Z) :
  (frame_width * frame_height <> 0)%Z ->
  let size_ratio :=
    inject_Z (bw (bbox obj) * bh (bbox obj))
    / inject_Z (frame_width * frame_height) in
  (size_ratio < 0.3 ->
   get_proximity_zone obj frame_width frame_height = Some "safe"%string)
  /\ (0.3 <= size_ratio -> size_ratio < 0.6 ->
      get_proximity_zone obj frame_width frame_height = Some "caution"%string)
  /\ (0.6 <= size_ratio -> size_ratio < 1 ->
      get_proximity_zone obj frame_width frame_height = Some "warning"%string)
  /\ exists name zone,
       get_proximity_zone obj frame_width frame_height = Some name
       /\ Py.dict_get config.PROXIMITY_ZONES name = Some zone.
Proof.
  intro Harea. cbv zeta. unfold get_proximity_zone.
  destruct (frame_width * frame_height =? 0)%Z eqn:E;
    [ apply Z.eqb_eq in E; contradiction | ].
  set (r := inject_Z (bw (bbox obj) * bh (bbox obj))
            / inject_Z (frame_width * frame_height)).
  clearbody r.
  unfold config.PROXIMITY_ZONES, first_zone.
  cbn [config.zone_min config.zone_max].
  destruct (Qle_bool 0.0 r) eqn:E0; destruct (Py.Qltb r 0.3) eqn:E3;
    destruct (Qle_bool 0.3 r) eqn:E3'; destruct (Py.Qltb r 0.6) eqn:E6;
    destruct (Qle_bool 0.6 r) eqn:E6'; destruct (Py.Qltb r 1.0) eqn:E1;
    cbn [andb];
    repeat match goal with
           | H : Qle_bool _ _ = true |- _ => apply Qle_bool_iff in H
           | H : Qle_bool ?a ?b = false |- _ =>
               assert (~ a <= b)
                 by (intro Hle; apply Qle_bool_iff in Hle; congruence);
               clear H
           | H : Py.Qltb _ _ = true |- _ => apply PyFacts.Qltb_true in H
           | H : Py.Qltb _ _ = false |- _ => apply PyFacts.Qltb_false in H
           end;
    (split; [ intro; try reflexivity; exfalso; Lqa.lra | ]);
    (split; [ intros; try reflexivity; exfalso; Lqa.lra | ]);
    (split; [ intros; try reflexivity; exfalso; Lqa.lra | ]);
    do 2 eexists; (split; [ reflexivity | reflexivity ]).
Qed.

Lemma half_frame_object_is_caution :
  get_proximity_zone
    (Scenarios.tracked 0 "wall" (0, 0, 320, 480)%Z false None 0 0) 640 480
  = Some "caution"%string.
Proof.
  refine (proj1 (proj2 (get_proximity_zone_classifies
            (Scenarios.tracked 0 "wall" (0, 0, 320, 480)%Z false None 0 0)
            640 480 _)) _ _); [ discriminate | discriminate | reflexivity ].
Defined.

End ZoneProps.

(** ** Templates for local recovery *)

Module TemplateProps.

Import ObjectManager ObjectSet VisionModule.
Open Scope Q_scope.

(** X13: [update_template] either leaves the object exactly as it was, or
    stores a template of at least 10x10 pixels that fits the frame it was cut
    from, is no larger than the box, and is stamped with the time of the
    call; box, id and label stay.  A template stored this way is never refused for its size by
    [attempt_local_recovery] on a frame of the same dimensions: a match above
    0.7 recovers a box of the size of the template. *)
Theorem update_template_fits_frame (now : Q) (obj : TrackedObject)
    (frame : Frame) :
  let obj' := update_template now obj frame in
  obj' = obj
  \/ (exists templ,
        template obj' = Some templ
        /\ (10 <= templ_shape0 templ <= shape0 frame)%Z
        /\ (10 <= templ_shape1 templ <= shape1 frame)%Z
        /\ (templ_shape0 templ <= bh (bbox obj))%Z
        /\ (templ_shape1 templ <= bw (bbox obj))%Z
        /\ last_template_update obj' = now
        /\ id obj' = id obj /\ label obj' = label obj /\ bbox obj' = bbox obj
        /\ forall (matchTemplate : Matcher) max_val x y,
             matchTemplate frame templ = Some (max_val, (x, y)) ->
             0.7 < max_val ->
             attempt_local_recovery matchTemplate frame obj'
             = (true, Some (x, y, templ_shape1 templ, templ_shape0 templ))).
Proof.
  cbv zeta. unfold update_template.
  destruct (bbox obj) as [ [ [x y] w ] h ] eqn:Eb.
  set (x' := Z.max 0 (Z.min x (shape1 frame - 1))).
  set (y' := Z.max 0 (Z.min y (shape0 frame - 1))).
  set (w' := Z.max 1 (Z.min w (shape1 frame - x'))).
  set (h' := Z.max 1 (Z.min h (shape0 frame - y'))).
  destruct ((w' <? 10)%Z || (h' <? 10)%Z) eqn:E; [ left; reflexivity | ].
  right. apply orb_false_iff in E. destruct E as [Ew Eh].
  apply Z.ltb_ge in Ew, Eh.
  assert (H0 : slice_len y' (y' + h') (shape0 frame) = h')
    by (unfold slice_len; lia).
  assert (H1 : slice_len x' (x' + w') (shape1 frame) = w')
    by (unfold slice_len; lia).
  assert (Hh : (h' <= shape0 frame /\ h' <= h)%Z) by lia.
  assert (Hw : (w' <= shape1 frame /\ w' <= w)%Z) by lia.
  clearbody x' y' w' h'. rewrite H0, H1.
  eexists. split; [ reflexivity | ].
  cbn [templ_shape0 templ_shape1 bw bh].
  split; [ lia | ]. split; [ lia | ]. split; [ lia | ]. split; [ lia | ].
  split; [ reflexivity | ]. split; [ reflexivity | ].
  split; [ reflexivity | ]. split; [ cbn; exact Eb | ].
  intros matchTemplate max_val mx my Hmatch Hscore.
  unfold attempt_local_recovery.
  cbn [template set_last_template_update set_template templ_shape0
       templ_shape1].
  assert (Hfit0 : (shape0 frame <? h')%Z = false) by (apply Z.ltb_ge; lia).
  assert (Hfit1 : (shape1 frame <? w')%Z = false) by (apply Z.ltb_ge; lia).
  rewrite Hfit0, Hfit1. cbn [orb].
  rewrite Hmatch.
  apply PyFacts.Qltb_true in Hscore. rewrite Hscore. reflexivity.
Qed.

End TemplateProps.

(** ** Conversion and repeated detections *)

Module ConvertProps.

Import ObjectManager ModeController.
Open Scope Q_scope.

Lemma convert_box_size (frame : Frame) (box : list Z) (b : BBox) :
  convert_box frame box = Some b ->
  (5 <= bw b)%Z /\ (5 <= bh b)%Z /\ (0 <= bx b)%Z /\ (0 <= by_ b)%Z
  /\ ((1 <= shape1 frame)%Z -> (bx b + bw b <= shape1 frame)%Z)
  /\ ((1 <= shape0 frame)%Z -> (by_ b + bh b <= shape0 frame)%Z).
Proof.
  unfold convert_box.
  destruct box as [ | y_min [ | x_min [ | y_max [ | x_max [ | ? ? ] ] ] ] ];
    try discriminate.
  set (x := Z.max 0 (Z.min (Py.int_div (x_min * shape1 frame) 1000)
                           (shape1 frame - 1))).
  set (y := Z.max 0 (Z.min (Py.int_div (y_min * shape0 frame) 1000)
                           (shape0 frame - 1))).
  set (w := Z.max 1 (Z.min (Py.int_div ((x_max - x_min) * shape1 frame) 1000)
                           (shape1 frame - x))).
  set (h := Z.max 1 (Z.min (Py.int_div ((y_max - y_min) * shape0 frame) 1000)
                           (shape0 frame - y))).
  destruct ((w <? 5)%Z || (h <? 5)%Z) eqn:E; [ discriminate | ].
  intro H. injection H as <-. cbn [bx by_ bw bh].
  apply orb_false_iff in E. destruct E as [Ew Eh].
  apply Z.ltb_ge in Ew, Eh.
  repeat split; try assumption; unfold x, y, w, h in *; lia.
Qed.

(** X14: on a frame of at least one row and one column, every box that
    [convert_box] lets through lies inside the frame and is at least 5 pixels
    wide and high. *)
Theorem convert_box_inside_frame (frame : Frame) (box : list Z) (b : BBox) :
  (1 <= shape0 frame)%Z -> (1 <= shape1 frame)%Z ->
  convert_box frame box = Some b ->
  (0 <= bx b)%Z /\ (0 <= by_ b)%Z
  /\ (5 <= bw b)%Z /\ (5 <= bh b)%Z
  /\ (bx b + bw b <= shape1 frame)%Z /\ (by_ b + bh b <= shape0 frame)%Z.
Proof.
  intros H0 H1 Hconv.
  destruct (convert_box_size frame box b Hconv)
    as (Hw & Hh & Hx & Hy & Hxw & Hyh).
  repeat split; auto.
Qed.

Lemma convert_box_inside_frame_example :
  convert_box Scenarios.vga [900; 900; 2000; 2000]%Z
  = Some (576, 432, 64, 48)%Z
  /\ (576 + 64 <= 640)%Z /\ (432 + 48 <= 480)%Z.
Proof.
  split; [ reflexivity | ].
  destruct (convert_box_inside_frame Scenarios.vga [900; 900; 2000; 2000]%Z
              (576, 432, 64, 48)%Z) as (_ & _ & _ & _ & Hx & Hy);
    [ discriminate | discriminate | reflexivity | ].
  split; [ exact Hx | exact Hy ].
Defined.

Lemma self_overlap_matches (b : BBox) :
  (0 < bw b)%Z -> (0 < bh b)%Z -> 0.1 < compute_iou b b.
Proof.
  destruct b as [ [ [x y] w ] h ]. cbn [bw bh]. intros Hw Hh.
  unfold compute_iou.
  rewrite !Z.max_id, !Z.min_id.
  replace (x + w - x)%Z with w by lia. replace (y + h - y)%Z with h by lia.
  rewrite !Z.max_r by lia.
  replace (w * h + w * h - w * h)%Z with (w * h)%Z by lia.
  assert (Hpos : (0 < w * h)%Z) by nia.
  destruct (w * h =? 0)%Z eqn:E; [ apply Z.eqb_eq in E; lia | ].
  rewrite (IouProps.ratio_self _ Hpos). reflexivity.
Qed.

(** X15: a detection processed a second time, right after the first, never
    creates an object: whatever the first pass did, the second finds an
    object of the same label that overlaps the box. *)
Theorem process_detection_twice_adds_nothing
    (now1 now2 : Q) (frame : Frame) (om : t) (det : Detection) :
  snd (process_detection now2 frame
         (fst (process_detection now1 frame om det)) det) = 0%Z.
Proof.
  destruct (convert_box frame (box_2d det)) as [ b | ] eqn:Ec.
  2:{ unfold process_detection. rewrite !Ec. reflexivity. }
  destruct (convert_box_size frame _ b Ec) as (Hw & Hh & _).
  assert (Hself : 0.1 < compute_iou b b) by (apply self_overlap_matches; lia).
  destruct (parse_label
              (match det_label det with
               | Some l => l
               | None => "unknown"%string
               end)) as [lbl ctx] eqn:Ep.
  assert (Hsecond : forall om1,
            (exists o, In o (objects om1) /\ Spec.matches lbl b o) ->
            snd (process_detection now2 frame om1 det) = 0%Z).
  { intros om1 Hex. unfold process_detection. rewrite Ec, Ep.
    apply (ReconcileProps.match_existing_flag now2 lbl ctx b) in Hex.
    destruct (match_existing now2 lbl ctx b (objects om1)) as [objs2 m2].
    cbn [snd] in Hex. subst m2. reflexivity. }
  apply Hsecond. unfold process_detection. rewrite Ec, Ep.
  destruct (Exists_dec (Spec.matches lbl b) (objects om)
              (ReconcileProps.matches_dec lbl b)) as [ He | He ].
  - apply Exists_exists in He. apply ReconcileProps.first_match_split in He.
    destruct He as (pre & o & post & Hsplit & Hpre & Ho).
    rewrite Hsplit.
    rewrite (ReconcileProps.match_existing_first now1 lbl ctx b pre post o Hpre Ho).
    cbn [fst objects].
    eexists. split; [ apply in_or_app; right; left; reflexivity | ].
    destruct Ho as [Hl Hi]. split.
    + destruct (_ || _); exact Hl.
    + destruct (_ || _); cbn [bbox ModeController.refresh set_lost_time
                               set_is_lost set_context set_last_verified
                               set_bbox]; assumption.
  - rewrite ReconcileProps.match_existing_none.
    2:{ intros o Ho Hm. apply He. apply Exists_exists. exists o. auto. }
    cbn [add_object fst objects].
    eexists. split; [ apply in_or_app; right; left; reflexivity | ].
    split; [ reflexivity | exact Hself ].
Qed.

Lemma search_context_without_open (s : string) :
  ~ In "["%char (list_ascii_of_string s) -> search_context s = None.
Proof.
  induction s as [ | c s IH ]; intro Hno; cbn [search_context];
    [ reflexivity | ].
  cbn [list_ascii_of_string] in Hno.
  destruct (Ascii.eqb c "[") eqn:E.
  - apply Ascii.eqb_eq in E. exfalso. apply Hno. left. exact E.
  - rewrite IH by (intro H; apply Hno; right; exact H).
    destruct (Ascii.eqb c newline); reflexivity.
Qed.

Lemma until_close_without_close (s : string) :
  ~ In "]"%char (list_ascii_of_string s) -> until_close s = None.
Proof.
  induction s as [ | c s IH ]; intro Hno; cbn [until_close];
    [ reflexivity | ].
  cbn [list_ascii_of_string] in Hno.
  destruct (Ascii.eqb c "]") eqn:E.
  - apply Ascii.eqb_eq in E. exfalso. apply Hno. left. exact E.
  - destruct (Ascii.eqb c newline); [ reflexivity | ].
    rewrite IH by (intro H; apply Hno; right; exact H). reflexivity.
Qed.

Lemma search_context_without_close (s : string) :
  ~ In "]"%char (list_ascii_of_string s) -> search_context s = None.
Proof.
  induction s as [ | c s IH ]; intro Hno; cbn [search_context];
    [ reflexivity | ].
  cbn [list_ascii_of_string] in Hno.
  assert (Hs : ~ In "]"%char (list_ascii_of_string s))
    by (intro H; apply Hno; right; exact H).
  rewrite (IH Hs), (until_close_without_close s Hs).
  destruct (Ascii.eqb c "["); [ reflexivity | ].
  destruct (Ascii.eqb c newline); reflexivity.
Qed.

(** X16: a label that lacks an opening or a closing bracket has no context
    and is taken verbatim: it is not stripped of surrounding blanks. *)
Theorem parse_label_without_brackets (lbl : string) :
  ~ In "["%char (list_ascii_of_string lbl)
  \/ ~ In "]"%char (list_ascii_of_string lbl) ->
  parse_label lbl = (lbl, None).
Proof.
  intro Hno. unfold parse_label.
  destruct Hno as [ H | H ].
  - rewrite (search_context_without_open lbl H). reflexivity.
  - rewrite (search_context_without_close lbl H). reflexivity.
Qed.

Lemma parse_label_without_brackets_example :
  parse_label " Red Cup " = (" Red Cup "%string, None).
Proof.
  apply parse_label_without_brackets. left.
  cbn. intuition discriminate.
Defined.

End ConvertProps.

(** ** Labels with a context *)

Module LabelProps.

Import ModeController.
Open Scope string_scope.

Lemma append_assoc (a b c : string) : (a ++ b) ++ c = a ++ b ++ c.
Proof.
  induction a as [ | x a IH ]; cbn [String.append];
    [ reflexivity | rewrite IH; reflexivity ].
Qed.

Lemma rev_string_acc_app (s acc : string) :
  Py.rev_string_acc acc s = Py.rev_string s ++ acc.
Proof.
  unfold Py.rev_string. revert acc.
  induction s as [ | c s IH ]; intro acc; cbn [Py.rev_string_acc].
  - reflexivity.
  - rewrite (IH (String c acc)), (IH (String c EmptyString)).
    rewrite append_assoc. reflexivity.
Qed.

Lemma append_empty_r (s : string) : s ++ "" = s.
Proof.
  induction s as [ | c s IH ]; cbn; [ reflexivity | rewrite IH; reflexivity ].
Qed.

Lemma rev_string_app (s u : string) :
  Py.rev_string (s ++ u) = Py.rev_string u ++ Py.rev_string s.
Proof.
  induction s as [ | c s IH ].
  - cbn [String.append]. change (Py.rev_string "") with "".
    rewrite append_empty_r. reflexivity.
  - cbn [String.append]. unfold Py.rev_string at 1 3.
    cbn [Py.rev_string_acc]. rewrite !rev_string_acc_app, IH.
    apply append_assoc.
Qed.

Lemma rev_string_involutive (s : string) :
  Py.rev_string (Py.rev_string s) = s.
Proof.
  induction s as [ | c s IH ]; [ reflexivity | ].
  change (String c s) with (String c "" ++ s) at 1.
  rewrite rev_string_app, rev_string_app, IH. reflexivity.
Qed.

Lemma lstrip_length (s : string) :
  (String.length (Py.lstrip s) <= String.length s)%nat.
Proof.
  induction s as [ | c s IH ]; cbn [Py.lstrip]; [ lia | ].
  destruct (Py.is_space c); cbn [String.length]; lia.
Qed.

(** A string that [lstrip] leaves alone is still left alone when text is
    appended, unless it is empty. *)
Lemma lstrip_app (s u : string) :
  Py.lstrip s = s -> s <> "" -> Py.lstrip (s ++ u) = s ++ u.
Proof.
  destruct s as [ | c s ]; intros Hs Hne; [ congruence | ].
  cbn [Py.lstrip String.append] in *.
  destruct (Py.is_space c) eqn:E; [ | reflexivity ].
  exfalso. pose proof (lstrip_length s) as Hlen.
  rewrite Hs in Hlen. cbn [String.length] in Hlen. lia.
Qed.

Lemma strip_trimmed (s : string) : Invariants.trimmed s -> Py.strip s = s.
Proof.
  intros [H1 H2]. unfold Py.strip. rewrite H1, H2.
  apply rev_string_involutive.
Qed.

Lemma strip_trimmed_blank (s : string) :
  Invariants.trimmed s -> Py.strip (s ++ " ") = s.
Proof.
  intros [H1 H2]. unfold Py.strip.
  destruct s as [ | c s ]; [ reflexivity | ].
  rewrite (lstrip_app (String c s) " " H1) by discriminate.
  rewrite rev_string_app.
  change (Py.rev_string " ") with " ".
  change (" " ++ Py.rev_string (String c s))
    with (String " " (Py.rev_string (String c s))).
  cbn [Py.lstrip]. change (Py.is_space " ") with true. cbn iota.
  rewrite H2. apply rev_string_involutive.
Qed.

Lemma until_close_found (q tail : string) :
  Invariants.lacks "]" q -> Invariants.lacks newline q ->
  until_close (q ++ String "]" tail) = Some q.
Proof.
  unfold Invariants.lacks.
  induction q as [ | c q IH ]; intros Hc Hn.
  - cbn [String.append until_close]. reflexivity.
  - cbn [String.append until_close list_ascii_of_string] in *.
    destruct (Ascii.eqb c "]") eqn:E1.
    { apply Ascii.eqb_eq in E1. exfalso. apply Hc. left. auto. }
    destruct (Ascii.eqb c newline) eqn:E2.
    { apply Ascii.eqb_eq in E2. exfalso. apply Hn. left. auto. }
    rewrite IH; [ reflexivity | | ]; intro H; [ apply Hc | apply Hn ];
      right; exact H.
Qed.

Lemma search_context_found (p q tail : string) :
  Invariants.lacks "[" p -> Invariants.lacks newline p ->
  until_close tail = Some q ->
  search_context (p ++ String "[" tail) = Some (p, q).
Proof.
  unfold Invariants.lacks.
  induction p as [ | c p IH ]; intros Hc Hn Hq.
  - cbn [String.append search_context]. rewrite Hq. reflexivity.
  - cbn [String.append search_context list_ascii_of_string] in *.
    destruct (Ascii.eqb c "[") eqn:E1.
    { apply Ascii.eqb_eq in E1. exfalso. apply Hc. left. auto. }
    destruct (Ascii.eqb c newline) eqn:E2.
    { apply Ascii.eqb_eq in E2. exfalso. apply Hn. left. auto. }
    rewrite IH; [ reflexivity | | | exact Hq ]; intro H;
      [ apply Hc | apply Hn ]; right; exact H.
Qed.

Lemma lacks_app_blank (c : ascii) (s : string) :
  c <> " "%char -> Invariants.lacks c s -> Invariants.lacks c (s ++ " ").
Proof.
  unfold Invariants.lacks. intros Hc Hs.
  induction s as [ | a s IH ]; cbn [String.append list_ascii_of_string] in *.
  - intros [ H | [] ]. congruence.
  - intros [ H | H ]; [ apply Hs; left; exact H | ].
    apply IH; [ | exact H ]. intro H'. apply Hs. right. exact H'.
Qed.

(** X17: the label format asked of the detector is read back exactly: for
    a clean label and a context that neither start nor end with a blank and
    contain no line break, the label without an opening bracket and the
    context without a closing one, [parse_label] splits
    [clean ++ " [" ++ context ++ "]"] into the clean label and the
    context. *)
Theorem parse_label_round_trip (clean ctx : string) :
  Invariants.trimmed clean -> Invariants.trimmed ctx ->
  Invariants.lacks "[" clean -> Invariants.lacks newline clean ->
  Invariants.lacks "]" ctx -> Invariants.lacks newline ctx ->
  parse_label (clean ++ " [" ++ ctx ++ "]") = (clean, Some ctx).
Proof.
  intros Tc Tx Hc1 Hc2 Hx1 Hx2. unfold parse_label.
  change (clean ++ " [" ++ ctx ++ "]")
    with (clean ++ String " " (String "[" (ctx ++ String "]" ""))).
  replace (clean ++ String " " (String "[" (ctx ++ String "]" "")))
    with ((clean ++ " ") ++ String "[" (ctx ++ String "]" "")).
  2:{ rewrite append_assoc. reflexivity. }
  rewrite (search_context_found (clean ++ " ") ctx).
  - rewrite (strip_trimmed_blank clean Tc), (strip_trimmed ctx Tx).
    reflexivity.
  - apply lacks_app_blank; [ discriminate | exact Hc1 ].
  - apply lacks_app_blank; [ discriminate | exact Hc2 ].
  - apply until_close_found; assumption.
Qed.

Lemma parse_label_round_trip_example :
  parse_label "Black Phone [on white desk]"
  = ("Black Phone", Some "on white desk").
Proof.
  apply (parse_label_round_trip "Black Phone" "on white desk").
  - split; reflexivity.
  - split; reflexivity.
  - unfold Invariants.lacks. cbn. intuition discriminate.
  - unfold Invariants.lacks. cbn. intuition discriminate.
  - unfold Invariants.lacks. cbn. intuition discriminate.
  - unfold Invariants.lacks. cbn. intuition discriminate.
Defined.

End LabelProps.

(** ** Modes *)

Module ModeProps.

Import ObjectManager Controller.

(** X18: [set_mode] accepts exactly the configured modes.  A refused mode
    and the mode already active leave the controller as it is, objects
    included.  A change of mode empties the object set and keeps [next_id],
    so that ids given before the change are not given again; target and
    frame dimensions stay.  Setting the same mode a second time changes
    nothing more. *)
Theorem set_mode_switches_cleanly (mc : t) (mode : string) :
  let mc' := fst (set_mode mc mode) in
  let ok := snd (set_mode mc mode) in
  (ok = true <-> Invariants.configured mode)
  /\ (ok = false -> mc' = mc)
  /\ (mode = current_mode mc -> mc' = mc)
  /\ (ok = true -> current_mode mc' = mode)
  /\ (ok = true -> mode <> current_mode mc ->
      objects (object_manager mc') = []
      /\ next_id (object_manager mc') = next_id (object_manager mc))
  /\ target_object mc' = target_object mc
  /\ frame_dimensions mc' = frame_dimensions mc
  /\ set_mode mc' mode = (mc', ok).
Proof.
  cbv zeta. unfold set_mode, Invariants.configured.
  destruct (Py.dict_get Modes.MODE_CONFIGS mode) as [ cfg | ] eqn:Ecfg.
  - destruct (String.eqb mode (current_mode mc)) eqn:Em.
    + apply String.eqb_eq in Em. cbn [fst snd].
      split; [ split; [ intros _; eauto | reflexivity ] | ].
      split; [ discriminate | ]. split; [ reflexivity | ].
      split; [ intros _; symmetry; exact Em | ].
      split; [ intros _ H; congruence | ].
      split; [ reflexivity | ]. split; [ reflexivity | ].
      rewrite (proj2 (String.eqb_eq _ _) Em). reflexivity.
    + apply String.eqb_neq in Em. cbn [fst snd current_mode object_manager
                                        target_object frame_dimensions].
      split; [ split; [ intros _; eauto | reflexivity ] | ].
      split; [ discriminate | ]. split; [ intro H; congruence | ].
      split; [ reflexivity | ].
      split; [ intros _ _; split; reflexivity | ].
      split; [ reflexivity | ]. split; [ reflexivity | ].
      rewrite String.eqb_refl. reflexivity.
  - cbn [fst snd].
    split; [ split; [ discriminate | intros (cfg & H); discriminate H ] | ].
    split; [ reflexivity | ]. split; [ reflexivity | ].
    split; [ discriminate | ]. split; [ discriminate | ].
    split; [ reflexivity | ]. split; [ reflexivity | ].
    reflexivity.
Qed.

Lemma configured_cases (mode : string) (cfg : Modes.ModeConfig) :
  Py.dict_get Modes.MODE_CONFIGS mode = Some cfg ->
  (Modes.audio_focus cfg = "target"%string
   \/ Modes.audio_focus cfg = "closest"%string
   \/ Modes.audio_focus cfg = "people"%string
   \/ Modes.audio_focus cfg = "all"%string)
  /\ (1 <= Modes.max_objects cfg <= Modes.MAX_TRACKED_OBJECTS)%Z.
Proof.
  unfold Modes.MODE_CONFIGS. cbn [Py.dict_get].
  destruct (String.eqb Modes.NAVIGATION mode);
    [ intro H; injection H as <-; unfold Modes.MAX_TRACKED_OBJECTS; cbn;
      split; [ auto 6 | lia ] | ].
  destruct (String.eqb Modes.OBSTACLE mode);
    [ intro H; injection H as <-; unfold Modes.MAX_TRACKED_OBJECTS; cbn;
      split; [ auto 6 | lia ] | ].
  destruct (String.eqb Modes.SOCIAL mode);
    [ intro H; injection H as <-; unfold Modes.MAX_TRACKED_OBJECTS; cbn;
      split; [ auto 6 | lia ] | ].
  destruct (String.eqb Modes.EXPLORATION mode);
    [ intro H; injection H as <-; unfold Modes.MAX_TRACKED_OBJECTS; cbn;
      split; [ auto 6 | lia ] | ].
  discriminate.
Qed.

(** X19: the controller starts in a configured mode, and neither [set_mode]
    nor [set_target_object] nor [set_frame_dimensions] leaves the configured
    modes.  In a configured mode the audio focus strategy is one of the four
    that [get_primary_object] handles, and the object limit lies between 1
    and [MAX_TRACKED_OBJECTS]: the fall-back values are never used. *)
Theorem current_mode_stays_configured (mc : t) :
  Invariants.configured (current_mode init)
  /\ (Invariants.configured (current_mode mc) ->
      (forall mode, Invariants.configured
                      (current_mode (fst (set_mode mc mode))))
      /\ (forall name, Invariants.configured
                         (current_mode (set_target_object mc name)))
      /\ (forall w h, Invariants.configured
                        (current_mode (set_frame_dimensions mc w h)))
      /\ (get_audio_focus_strategy mc = "target"%string
          \/ get_audio_focus_strategy mc = "closest"%string
          \/ get_audio_focus_strategy mc = "people"%string
          \/ get_audio_focus_strategy mc = "all"%string)
      /\ (1 <= get_max_objects mc <= Modes.MAX_TRACKED_OBJECTS)%Z).
Proof.
  split; [ eexists; reflexivity | ].
  intros (cfg & Hcfg).
  split; [ | split; [ | split ] ].
  - intro mode. unfold set_mode.
    destruct (Py.dict_get Modes.MODE_CONFIGS mode) as [ c | ] eqn:E;
      [ | exists cfg; exact Hcfg ].
    destruct (String.eqb mode (current_mode mc));
      [ exists cfg; exact Hcfg | exists c; exact E ].
  - intro name. exists cfg. exact Hcfg.
  - intros w h. exists cfg. exact Hcfg.
  - unfold get_audio_focus_strategy, get_max_objects, get_mode_config.
    rewrite Hcfg. exact (configured_cases _ cfg Hcfg).
Qed.

Lemma filter_head_In {A : Type} (p : A -> bool) (l rest : list A) (x : A) :
  filter p l = x :: rest -> In x l /\ p x = true.
Proof.
  intro H. apply filter_In. rewrite H. left. reflexivity.
Qed.

(** X20: the single object [get_primary_object] returns is always one of
    the live objects, and the list it returns is the live set itself; on an
    empty set it returns nothing.  With the strategy "target" and a
    non-empty set it always returns an object, one whose label is the target
    up to case if there is any. *)
Theorem get_primary_object_is_live (mc : t) :
  (forall o, get_primary_object mc = OneObject o ->
             In o (objects (object_manager mc)))
  /\ (forall l, get_primary_object mc = AllObjects l ->
                l = objects (object_manager mc) /\ l <> [])
  /\ (objects (object_manager mc) = [] -> get_primary_object mc = NoObject)
  /\ (get_audio_focus_strategy mc = "target"%string ->
      objects (object_manager mc) <> [] ->
      exists o, get_primary_object mc = OneObject o
        /\ ((exists t, In t (objects (object_manager mc))
                       /\ Py.lower (label t) = Py.lower (target_object mc)) ->
            Py.lower (label o) = Py.lower (target_object mc))).
Proof.
  unfold get_primary_object.
  destruct (objects (object_manager mc)) as [ | first rest ] eqn:Eobjs.
  { split; [ discriminate | ]. split; [ discriminate | ].
    split; [ reflexivity | ]. intros _ H. congruence. }
  split; [ | split; [ | split; [ discriminate | ] ] ].
  - intros o.
    destruct (String.eqb (get_audio_focus_strategy mc) "target").
    { unfold ObjectSet.get_objects_by_label. rewrite Eobjs.
      destruct (filter _ (first :: rest)) as [ | target more ] eqn:Ef.
      - intro H. injection H as <-. left. reflexivity.
      - intro H. injection H as <-.
        apply (filter_head_In _ _ _ _ Ef). }
    destruct (String.eqb (get_audio_focus_strategy mc) "closest").
    { destruct (ObjectSet.get_closest_object _ _ _) as [ c | ] eqn:Ec;
        cbn [of_option]; [ | discriminate ].
      intro H. injection H as <-.
      pose proof (ClosestProps.closest_fold (objects (object_manager mc))
                    0%Z None) as Hfold.
      cbv zeta in Hfold. destruct Hfold as (_ & _ & Hwho).
      unfold ObjectSet.get_closest_object in Ec. rewrite Eobjs in Ec, Hwho.
      destruct Hwho as [ [_ Hc] | (_ & pre & x & post & Hs & Hc & _) ];
        [ congruence | ].
      assert (x = c) by congruence. subst x. rewrite Hs.
      apply in_or_app. right. left. reflexivity. }
    destruct (String.eqb (get_audio_focus_strategy mc) "people").
    { unfold ObjectSet.get_objects_by_label. rewrite Eobjs.
      destruct (filter _ (first :: rest)) as [ | person more ] eqn:Ef;
        [ discriminate | ].
      intro H. injection H as <-. apply (filter_head_In _ _ _ _ Ef). }
    destruct (String.eqb (get_audio_focus_strategy mc) "all"); discriminate.
  - intros l.
    destruct (String.eqb (get_audio_focus_strategy mc) "target").
    { destruct (ObjectSet.get_objects_by_label _ _); discriminate. }
    destruct (String.eqb (get_audio_focus_strategy mc) "closest").
    { destruct (ObjectSet.get_closest_object _ _ _); discriminate. }
    destruct (String.eqb (get_audio_focus_strategy mc) "people").
    { destruct (ObjectSet.get_objects_by_label _ _); discriminate. }
    destruct (String.eqb (get_audio_focus_strategy mc) "all");
      [ | discriminate ].
    intro H. injection H as <-. split; [ reflexivity | discriminate ].
  - intros Hs _. rewrite Hs. cbn [String.eqb Ascii.eqb Bool.eqb andb].
    unfold ObjectSet.get_objects_by_label. rewrite Eobjs.
    destruct (filter _ (first :: rest)) as [ | target more ] eqn:Ef.
    + exists first. split; [ reflexivity | ].
      intros (t & Ht & Hl). exfalso.
      assert (Hin : In t (filter
                (fun obj => String.eqb (Py.lower (label obj))
                                       (Py.lower (target_object mc)))
                (first :: rest))).
      { apply filter_In. split; [ exact Ht | ]. apply String.eqb_eq, Hl. }
      rewrite Ef in Hin. destruct Hin.
    + exists target. split; [ reflexivity | ]. intros _.
      apply String.eqb_eq. apply (filter_head_In _ _ _ _ Ef).
Qed.

End ModeProps.

(** ** Bounds and monotonicity of the distance gain *)

Module GainProps.

Import AudioHrtf.
Open Scope R_scope.

Lemma Rmin_mono (c x y : R) : x <= y -> Rmin c x <= Rmin c y.
Proof.
  intro H. unfold Rmin.
  destruct (Rle_dec c x); destruct (Rle_dec c y); lra.
Qed.

Lemma Rmax_mono (c x y : R) : x <= y -> Rmax c x <= Rmax c y.
Proof.
  intro H. unfold Rmax.
  destruct (Rle_dec c x); destruct (Rle_dec c y); lra.
Qed.

Lemma clamp_bounds (lo hi x : R) :
  lo <= hi -> lo <= Rmax lo (Rmin hi x) <= hi.
Proof.
  intro H. unfold Rmax, Rmin.
  destruct (Rle_dec hi x); destruct (Rle_dec lo _); lra.
Qed.

Lemma gain_bounds (d : R) :
  0.1 <= Rmax 0.1 (Rmin 1.0 (1.0 / (d * 0.5))) <= 1.
Proof.
  unfold Rmax, Rmin.
  destruct (Rle_dec 1.0 (1.0 / (d * 0.5))); destruct (Rle_dec 0.1 _); lra.
Qed.

Lemma spatial_gain_bounds (b : ObjectManager.BBox) :
  (0 <= ObjectManager.bw b * ObjectManager.bh b)%Z ->
  exists dist gain,
    spatial_gain b = Some (dist, gain)
    /\ 0.5 <= dist <= 10 /\ 0.1 <= gain <= 1.
Proof.
  intro Harea. rewrite (SceneProps.spatial_gain_value b Harea).
  do 2 eexists. split; [ reflexivity | ]. split.
  - pose proof (clamp_bounds 0.5 10.0
                  (sqrt (width * height * 0.5
                         / (IZR (ObjectManager.bw b * ObjectManager.bh b) + 1)))).
    lra.
  - apply gain_bounds.
Qed.

Lemma duck_bounds (max_threat : R) (obj : SceneObject) (base_gain : R) :
  0.1 <= base_gain <= 1 ->
  0.03 <= duck max_threat obj base_gain <= base_gain.
Proof.
  intro Hb. unfold duck. destruct (threat_score obj) as [ s | ]; [ | lra ].
  destruct (Rlt_dec s (max_threat * 0.8)); lra.
Qed.

Lemma scene_loop_raises (objects rest : list SceneObject) :
  (exists o, In o rest
     /\ (ObjectManager.bw (bbox o) * ObjectManager.bh (bbox o) + 1 <= 0)%Z) ->
  scene_loop objects rest = None.
Proof.
  induction rest as [ | a rest IH ]; intros (o & Ho & Hneg); [ destruct Ho | ].
  cbn [scene_loop]. unfold scene_entry.
  destruct (spatial_gain (bbox a)) as [ [d g] | ] eqn:Eg; [ | reflexivity ].
  destruct Ho as [ <- | Ho ].
  - unfold spatial_gain in Eg. apply Z.leb_le in Hneg. rewrite Hneg in Eg.
    discriminate Eg.
  - rewrite IH; [ reflexivity | exists o; auto ].
Qed.

Lemma scene_loop_bounds (all rest : list SceneObject) :
  (forall o, In o rest ->
     (0 <= ObjectManager.bw (bbox o) * ObjectManager.bh (bbox o))%Z) ->
  exists updates,
    scene_loop all rest = Some updates
    /\ List.length updates = List.length rest
    /\ forall u, In u updates ->
         0.03 <= al_gain u <= 1
         /\ - 10 <= snd (al_position u) <= - 0.5.
Proof.
  intro Harea. induction rest as [ | a rest IH ].
  - exists []. split; [ reflexivity | ]. split; [ reflexivity | intros u [] ].
  - destruct IH as (updates & Hloop & Hlen & Hall).
    { intros o Ho. apply Harea. right. exact Ho. }
    destruct (spatial_gain_bounds (bbox a) (Harea a (or_introl eq_refl)))
      as (dist & gain & Hgain & Hd & Hg).
    cbn [scene_loop]. unfold scene_entry. rewrite Hgain, Hloop.
    cbn [option_map]. eexists. split; [ reflexivity | ].
    split; [ cbn [List.length]; rewrite Hlen; reflexivity | ].
    intros u [ <- | Hu ]; [ | apply Hall, Hu ].
    cbn [al_gain al_position snd].
    pose proof (duck_bounds (max_threat_of all) a gain Hg). lra.
Qed.

(** X21: when every box has a non-negative area, the scene update sends
    one update per object, each with a gain between 0.03 and 1.0 and a
    position between 0.5 and 10 units in front of the listener.  A single
    box whose area plus one is zero or negative makes the update raise. *)
Theorem update_scene_gain_bounds (objects : list SceneObject) :
  ((forall o, In o objects ->
      (0 <= ObjectManager.bw (bbox o) * ObjectManager.bh (bbox o))%Z) ->
   exists updates,
     update_scene objects = Some updates
     /\ List.length updates = List.length objects
     /\ forall u, In u updates ->
          0.03 <= al_gain u <= 1
          /\ - 10 <= snd (al_position u) <= - 0.5)
  /\ ((exists o, In o objects
         /\ (ObjectManager.bw (bbox o) * ObjectManager.bh (bbox o) + 1 <= 0)%Z) ->
      update_scene objects = None).
Proof.
  split; [ apply scene_loop_bounds | apply scene_loop_raises ].
Qed.

(** X22: a box of larger area is never estimated farther away nor given a
    smaller distance gain than a box of smaller area. *)
Theorem spatial_gain_monotone (b1 b2 : ObjectManager.BBox) :
  (0 <= ObjectManager.bw b1 * ObjectManager.bh b1
     <= ObjectManager.bw b2 * ObjectManager.bh b2)%Z ->
  exists d1 g1 d2 g2,
    spatial_gain b1 = Some (d1, g1) /\ spatial_gain b2 = Some (d2, g2)
    /\ d2 <= d1 /\ g1 <= g2.
Proof.
  intros [H1 H12].
  rewrite (SceneProps.spatial_gain_value b1 H1).
  rewrite (SceneProps.spatial_gain_value b2) by lia.
  do 4 eexists. split; [ reflexivity | ]. split; [ reflexivity | ].
  set (a1 := IZR (ObjectManager.bw b1 * ObjectManager.bh b1)).
  set (a2 := IZR (ObjectManager.bw b2 * ObjectManager.bh b2)).
  assert (Ha1 : 0 <= a1) by (apply IZR_le; exact H1).
  assert (Ha12 : a1 <= a2) by (apply IZR_le; exact H12).
  unfold width, height.
  assert (Hq : 1280 * 720 * 0.5 / (a2 + 1) <= 1280 * 720 * 0.5 / (a1 + 1)).
  { unfold Rdiv. apply Rmult_le_compat_l; [ lra | ].
    apply Rinv_le_contravar; lra. }
  apply sqrt_le_1_alt in Hq.
  set (s1 := sqrt (1280 * 720 * 0.5 / (a1 + 1))) in *.
  set (s2 := sqrt (1280 * 720 * 0.5 / (a2 + 1))) in *.
  assert (Hd : Rmax 0.5 (Rmin 10.0 s2) <= Rmax 0.5 (Rmin 10.0 s1))
    by (apply Rmax_mono, Rmin_mono, Hq).
  split; [ exact Hd | ].
  pose proof (clamp_bounds 0.5 10.0 s1) as B1.
  pose proof (clamp_bounds 0.5 10.0 s2) as B2.
  set (d1 := Rmax 0.5 (Rmin 10.0 s1)) in *.
  set (d2 := Rmax 0.5 (Rmin 10.0 s2)) in *.
  apply Rmax_mono, Rmin_mono.
  unfold Rdiv. apply Rmult_le_compat_l; [ lra | ].
  apply Rinv_le_contravar; lra.
Qed.

Lemma spatial_gain_monotone_example :
  exists d1 g1 d2 g2,
    spatial_gain (0, 0, 100, 80)%Z = Some (d1, g1)
    /\ spatial_gain (300, 200, 400, 300)%Z = Some (d2, g2)
    /\ d2 <= d1 /\ g1 <= g2.
Proof.
  apply spatial_gain_monotone. cbn. lia.
Defined.

End GainProps.

(** ** Life cycle of the OpenAL sources *)

Module SourceLifeProps.

Import AudioHrtf SceneSources.

Lemma has_key_In (sources : Sources) (k : Z) :
  has_key sources k = true <-> In k (map fst sources).
Proof.
  unfold has_key. rewrite existsb_exists. split.
  - intros (kv & Hin & Hk). apply Z.eqb_eq in Hk. subst k.
    apply in_map, Hin.
  - intro H. apply in_map_iff in H. destruct H as (kv & <- & Hin).
    exists kv. split; [ exact Hin | apply Z.eqb_refl ].
Qed.

Lemma has_key_false (sources : Sources) (k : Z) :
  has_key sources k = false <-> ~ In k (map fst sources).
Proof.
  rewrite <- has_key_In. destruct (has_key sources k).
  - split; [ discriminate | intro H; exfalso; apply H; reflexivity ].
  - split; [ intros _; discriminate | reflexivity ].
Qed.

(** The first loop on boxes of non-negative area: it runs to its end,
    appends one source for each id that had none, and collects the ids. *)
Lemma create_sources_spec (alGenSources : nat -> Z)
    (objects : list SceneObject) :
  (forall o, In o objects ->
     (0 <= ObjectManager.bw (bbox o) * ObjectManager.bh (bbox o))%Z) ->
  forall sources created current_ids,
    exists extra created',
      create_sources alGenSources objects sources created current_ids
      = (sources ++ extra, created', rev (map id objects) ++ current_ids, true)
      /\ (forall k, In k (map fst extra)
                    <-> In k (map id objects) /\ ~ In k (map fst sources))
      /\ NoDup (map fst extra).
Proof.
  induction objects as [ | obj rest IH ]; intros Harea sources created cur.
  - exists [], created. cbn [create_sources map rev app].
    rewrite app_nil_r. split; [ reflexivity | ].
    split; [ intro k; cbn; tauto | constructor ].
  - assert (Hrest : forall o, In o rest ->
              (0 <= ObjectManager.bw (bbox o) * ObjectManager.bh (bbox o))%Z)
      by (intros o Ho; apply Harea; right; exact Ho).
    cbn [create_sources].
    rewrite (SceneProps.spatial_gain_value (bbox obj)
               (Harea obj (or_introl eq_refl))).
    replace (rev (map id (obj :: rest)) ++ cur)
      with (rev (map id rest) ++ id obj :: cur)
      by (cbn [map rev]; rewrite <- app_assoc; reflexivity).
    destruct (has_key sources (id obj)) eqn:Ek.
    + destruct (IH Hrest sources created (id obj :: cur))
        as (extra & created' & Heq & Hkeys & Hnd).
      exists extra, created'. split; [ exact Heq | ].
      split; [ | exact Hnd ].
      intro k. rewrite Hkeys. cbn [map In].
      apply has_key_In in Ek. split.
      * intros [Hin Hno]. auto.
      * intros [ [ <- | Hin ] Hno ]; [ contradiction | auto ].
    + destruct (IH Hrest (sources ++ [(id obj, alGenSources created)])
                  (S created) (id obj :: cur))
        as (extra & created' & Heq & Hkeys & Hnd).
      exists ((id obj, alGenSources created) :: extra), created'.
      rewrite Heq, <- app_assoc. split; [ reflexivity | ].
      apply has_key_false in Ek.
      assert (Hk : forall k, In k (map fst extra)
                <-> In k (map id rest)
                    /\ ~ In k (map fst sources) /\ k <> id obj).
      { intro k. rewrite Hkeys, map_app, in_app_iff. cbn [map fst In].
        intuition congruence. }
      split.
      * intro k. cbn [map fst In]. rewrite Hk. split.
        -- intros [ <- | (Hin & Hno & _) ]; auto.
        -- intros [ [ <- | Hin ] Hno ]; [ left; reflexivity | ].
           destruct (Z.eq_dec k (id obj)) as [ -> | Hne ];
             [ left; reflexivity | right; auto ].
      * cbn [map fst]. constructor; [ | exact Hnd ].
        intro Hin. apply Hk in Hin. destruct Hin as (_ & _ & Hne).
        congruence.
Qed.

Lemma find_key_filter (q : Z -> bool) (sources : Sources) (k : Z) :
  q k = true ->
  find (fun kv => (fst kv =? k)%Z) (filter (fun kv => q (fst kv)) sources)
  = find (fun kv => (fst kv =? k)%Z) sources.
Proof.
  intro Hq. induction sources as [ | [k' v] rest IH ]; [ reflexivity | ].
  cbn [filter find fst].
  destruct (k' =? k)%Z eqn:E.
  - apply Z.eqb_eq in E. subst k'. rewrite Hq. cbn [find fst].
    rewrite Z.eqb_refl. reflexivity.
  - destruct (q k'); [ cbn [find fst]; rewrite E | ]; exact IH.
Qed.

Lemma existsb_eqb_In (k : Z) (l : list Z) :
  existsb (Z.eqb k) l = true <-> In k l.
Proof.
  rewrite existsb_exists. split.
  - intros (x & Hx & E). apply Z.eqb_eq in E. subst x. exact Hx.
  - intro H. exists k. split; [ exact H | apply Z.eqb_refl ].
Qed.

(** X23: a scene update over boxes of non-negative area leaves exactly one
    source for each object id of the snapshot: the sources of the ids that
    left the snapshot are deleted, an id that had a source keeps that very
    source, and keys that were distinct stay distinct.  When the update
    raises, no source is deleted: every source there was is still there. *)
Theorem update_sources_follows_snapshot (alGenSources : nat -> Z)
    (objects : list SceneObject) (sources : Sources) :
  ((forall o, In o objects ->
      (0 <= ObjectManager.bw (bbox o) * ObjectManager.bh (bbox o))%Z) ->
   let sources' := fst (update_sources alGenSources objects sources) in
   snd (update_sources alGenSources objects sources) = true
   /\ (forall k, In k (map fst sources') <-> In k (map id objects))
   /\ (forall k v, In k (map id objects) -> get sources k = Some v ->
                   get sources' k = Some v)
   /\ (NoDup (map fst sources) -> NoDup (map fst sources')))
  /\ (snd (update_sources alGenSources objects sources) = false ->
      forall k v, get sources k = Some v ->
                  get (fst (update_sources alGenSources objects sources)) k
                  = Some v).
Proof.
  split.
  - intro Harea. cbv zeta. unfold update_sources.
    destruct (create_sources_spec alGenSources objects Harea sources 0%nat [])
      as (extra & created' & Heq & Hkeys & Hnd).
    rewrite Heq. rewrite app_nil_r. cbn [fst snd].
    set (live := fun kv : Z * Z => existsb (Z.eqb (fst kv)) (rev (map id objects))).
    assert (Hlive : forall kv, live kv = true <-> In (fst kv) (map id objects)).
    { intro kv. unfold live. rewrite existsb_eqb_In, <- in_rev. tauto. }
    split; [ reflexivity | ]. split; [ | split ].
    + intro k. split.
      * intro H. apply in_map_iff in H. destruct H as (kv & <- & Hin).
        apply filter_In in Hin. apply Hlive, Hin.
      * intro Hk.
        assert (Hall : In k (map fst (sources ++ extra))).
        { rewrite map_app, in_app_iff.
          destruct (in_dec Z.eq_dec k (map fst sources)) as [ H | H ];
            [ left; exact H | right; apply Hkeys; auto ]. }
        apply in_map_iff in Hall. destruct Hall as (kv & <- & Hin).
        apply in_map. apply filter_In. split; [ exact Hin | ].
        apply Hlive. exact Hk.
    + intros k v Hk Hget. unfold get in *.
      rewrite (find_key_filter
                 (fun key => existsb (Z.eqb key) (rev (map id objects)))).
      2:{ apply existsb_eqb_In. rewrite <- in_rev. exact Hk. }
      rewrite LookupProps.find_append.
      destruct (find (fun kv => (fst kv =? k)%Z) sources);
        [ exact Hget | discriminate Hget ].
    + intro Hs. apply IdentityProps.filter_keeps_keys_distinct.
      rewrite map_app. apply NoDup_app; [ exact Hs | exact Hnd | ].
      intros k Hin Hex. apply Hkeys in Hex. destruct Hex as [_ Hno].
      contradiction.
  - unfold update_sources.
    assert (Hprefix : forall objs srcs created cur,
              exists extra,
                fst (fst (fst (create_sources alGenSources objs srcs created cur)))
                = srcs ++ extra).
    { induction objs as [ | obj rest IH ]; intros srcs created cur.
      - exists []. cbn. rewrite app_nil_r. reflexivity.
      - cbn [create_sources].
        destruct (spatial_gain (bbox obj)).
        + destruct (has_key srcs (id obj)).
          * apply IH.
          * destruct (IH (srcs ++ [(id obj, alGenSources created)])
                        (S created) (id obj :: cur)) as (extra & ->).
            eexists. rewrite <- app_assoc. reflexivity.
        + exists []. cbn. rewrite app_nil_r. reflexivity. }
    destruct (Hprefix objects sources 0%nat []) as (extra & Hsrc).
    destruct (create_sources alGenSources objects sources 0 [])
      as [ [ [srcs' created'] cur' ] completed ].
    cbn [fst] in Hsrc. subst srcs'.
    destruct completed; cbn [fst snd]; [ discriminate | ].
    intros _ k v Hget. unfold get in *.
    rewrite LookupProps.find_append.
    destruct (find (fun kv => (fst kv =? k)%Z) sources);
      [ exact Hget | discriminate Hget ].
Qed.

End SourceLifeProps.

(** ** Motion after a successful tick *)

Module MotionProps.

Import ObjectManager.
Open Scope Q_scope.

Lemma predict_position_moving (horizon : Q) (o : TrackedObject) (vx vy : Q) :
  velocity o = Some (vx, vy) ->
  velocity (predict_position horizon o) = Some (vx, vy)
  /\ last_update (predict_position horizon o) = last_update o
  /\ predicted_bbox (predict_position horizon o)
     = Some (if Py.Qltb (Qabs vx) config.MIN_VELOCITY_THRESHOLD
                && Py.Qltb (Qabs vy) config.MIN_VELOCITY_THRESHOLD
             then bbox o
             else (Py.int_Q (inject_Z (bx (bbox o)) + vx * (horizon * 30)),
                   Py.int_Q (inject_Z (by_ (bbox o)) + vy * (horizon * 30)),
                   bw (bbox o), bh (bbox o))).
Proof.
  intro Hv. unfold predict_position. rewrite Hv.
  destruct (_ && _); cbn [velocity last_update predicted_bbox
                          set_predicted_bbox]; auto.
Qed.

(** X24: after a successful tracker update the velocity of the object is
    the displacement of the centre of its box, from the box it had to the
    box the tracker returned, per tick and not per second; the time of the
    update is recorded; the predicted box has the size of the new box and is
    the new box itself when both velocity components are below 5 in
    magnitude, and otherwise the new box moved by 15 ticks of velocity, with
    coordinates truncated toward zero. *)
Theorem successful_tick_motion (now : Q) (frame : Frame) (om : t) :
  forall n o trk b,
    nth_error (objects om) n = Some o ->
    tracker o = Some trk -> trk frame = UpdateOk b ->
    exists o',
      nth_error (objects (fst (update_trackers now frame om))) n = Some o'
      /\ let vx := fst (Invariants.centre b) - fst (Invariants.centre (bbox o)) in
         let vy := snd (Invariants.centre b) - snd (Invariants.centre (bbox o)) in
         velocity o' = Some (vx, vy)
         /\ last_update o' = now
         /\ exists p,
              predicted_bbox o' = Some p
              /\ bw p = bw b /\ bh p = bh b
              /\ (Qabs vx < 5 -> Qabs vy < 5 -> p = b)
              /\ (5 <= Qabs vx \/ 5 <= Qabs vy ->
                  p = (Py.int_Q (inject_Z (bx b) + vx * (0.5 * 30)),
                       Py.int_Q (inject_Z (by_ b) + vy * (0.5 * 30)),
                       bw b, bh b)).
Proof.
  intros n o trk b Hn Ht Hb.
  exists (fst (update_one now frame o)). split.
  { unfold update_trackers. cbn [fst objects]. rewrite map_map.
    exact (map_nth_error (fun x => fst (update_one now frame x)) n _ Hn). }
  cbv zeta. unfold update_one. rewrite Ht, Hb.
  unfold config.MOTION_PREDICTION_ENABLED.
  set (o2 := set_lost_time (set_is_lost (update_velocity now o b) false) None).
  assert (Hfields :
    velocity (fst (match tick_threat
                           (label (predict_position
                                     config.PREDICTION_HORIZON_SECONDS o2))
                           b frame with
                   | Some score =>
                       (set_threat_score
                          (predict_position config.PREDICTION_HORIZON_SECONDS o2)
                          score, true)
                   | None =>
                       (predict_position config.PREDICTION_HORIZON_SECONDS o2,
                        false)
                   end))
    = velocity (predict_position config.PREDICTION_HORIZON_SECONDS o2)
    /\ last_update (fst (match tick_threat
                           (label (predict_position
                                     config.PREDICTION_HORIZON_SECONDS o2))
                           b frame with
                   | Some score =>
                       (set_threat_score
                          (predict_position config.PREDICTION_HORIZON_SECONDS o2)
                          score, true)
                   | None =>
                       (predict_position config.PREDICTION_HORIZON_SECONDS o2,
                        false)
                   end))
       = last_update (predict_position config.PREDICTION_HORIZON_SECONDS o2)
    /\ predicted_bbox (fst (match tick_threat
                           (label (predict_position
                                     config.PREDICTION_HORIZON_SECONDS o2))
                           b frame with
                   | Some score =>
                       (set_threat_score
                          (predict_position config.PREDICTION_HORIZON_SECONDS o2)
                          score, true)
                   | None =>
                       (predict_position config.PREDICTION_HORIZON_SECONDS o2,
                        false)
                   end))
       = predicted_bbox (predict_position config.PREDICTION_HORIZON_SECONDS o2)).
  { destruct (tick_threat _ b frame); repeat split. }
  destruct Hfields as (-> & -> & ->).
  set (vx := fst (Invariants.centre b) - fst (Invariants.centre (bbox o))).
  set (vy := snd (Invariants.centre b) - snd (Invariants.centre (bbox o))).
  destruct (predict_position_moving config.PREDICTION_HORIZON_SECONDS o2 vx vy
              eq_refl) as (Hv & Hu & Hp).
  rewrite Hv, Hu, Hp. change (bbox o2) with b. change (last_update o2) with now.
  unfold config.MIN_VELOCITY_THRESHOLD, config.PREDICTION_HORIZON_SECONDS.
  split; [ reflexivity | ]. split; [ reflexivity | ].
  eexists. split; [ reflexivity | ].
  destruct (Py.Qltb (Qabs vx) 5) eqn:Ex; destruct (Py.Qltb (Qabs vy) 5) eqn:Ey;
    cbn [andb];
    try apply PyFacts.Qltb_true in Ex; try apply PyFacts.Qltb_false in Ex;
    try apply PyFacts.Qltb_true in Ey; try apply PyFacts.Qltb_false in Ey.
  - split; [ reflexivity | ]. split; [ reflexivity | ].
    split; [ reflexivity | ].
    intros [ H | H ]; exfalso; [ exact (Qlt_not_le _ _ Ex H)
                               | exact (Qlt_not_le _ _ Ey H) ].
  - cbn [bw bh]. split; [ reflexivity | ]. split; [ reflexivity | ].
    split; [ intros _ H; exfalso; exact (Qlt_not_le _ _ H Ey) | reflexivity ].
  - cbn [bw bh]. split; [ reflexivity | ]. split; [ reflexivity | ].
    split; [ intros H; exfalso; exact (Qlt_not_le _ _ H Ex) | reflexivity ].
  - cbn [bw bh]. split; [ reflexivity | ]. split; [ reflexivity | ].
    split; [ intros H; exfalso; exact (Qlt_not_le _ _ H Ex) | reflexivity ].
Qed.

Lemma centred_cup_moves_ten_pixels :
  exists o',
    nth_error (objects (fst (update_trackers 1 Scenarios.vga
                               (Scenarios.manager [Scenarios.centred_cup] 1)))) 0
    = Some o'
    /\ velocity o' = Some ((270 + 100 / 2) - (260 + 100 / 2),
                           (190 + 100 / 2) - (190 + 100 / 2))
    /\ predicted_bbox o' = Some (420, 190, 100, 100)%Z.
Proof.
  destruct (successful_tick_motion 1 Scenarios.vga
              (Scenarios.manager [Scenarios.centred_cup] 1)
              0%nat Scenarios.centred_cup _ (270, 190, 100, 100)%Z
              eq_refl eq_refl eq_refl)
    as (o' & Hn & Hv & _ & p & Hp & _ & _ & _ & Hmove).
  exists o'. split; [ exact Hn | ]. split; [ exact Hv | ].
  rewrite Hp. f_equal. apply Hmove. left. discriminate.
Defined.

End MotionProps.

(** ** The table of mixed sources *)

Module SourceTableProps.

Import AudioModuleMulti SourceTable.
Open Scope R_scope.

Lemma get_put_same (sources : list (Z * Source)) (k : Z) (v : Source) :
  get (put sources k v) k = Some v.
Proof.
  unfold get. induction sources as [ | [k' w] rest IH ]; cbn [put find fst].
  - rewrite Z.eqb_refl. reflexivity.
  - destruct (k' =? k)%Z eqn:E; cbn [find fst]; rewrite E;
      [ reflexivity | exact IH ].
Qed.

Lemma get_put_other (sources : list (Z * Source)) (k j : Z) (v : Source) :
  j <> k -> get (put sources k v) j = get sources j.
Proof.
  intro Hne. unfold get.
  induction sources as [ | [k' w] rest IH ]; cbn [put find fst].
  - destruct (k =? j)%Z eqn:E; [ apply Z.eqb_eq in E; congruence | ].
    reflexivity.
  - destruct (k' =? k)%Z eqn:E; cbn [find fst].
    + apply Z.eqb_eq in E. subst k'.
      destruct (k =? j)%Z eqn:E'; [ apply Z.eqb_eq in E'; congruence | ].
      reflexivity.
    + destruct (k' =? j)%Z; [ reflexivity | exact IH ].
Qed.

Lemma put_keys (sources : list (Z * Source)) (k : Z) (v : Source) :
  map fst (put sources k v)
  = if existsb (Z.eqb k) (map fst sources)
    then map fst sources else map fst sources ++ [k].
Proof.
  induction sources as [ | [k' w] rest IH ]; cbn [put map fst existsb];
    [ reflexivity | ].
  rewrite (Z.eqb_sym k k').
  destruct (k' =? k)%Z eqn:E; cbn [map fst orb].
  - reflexivity.
  - rewrite IH. destruct (existsb (Z.eqb k) (map fst rest)); reflexivity.
Qed.

Lemma clip_bounds (x lo hi : R) : lo <= hi -> lo <= clip x lo hi <= hi.
Proof.
  intro H. unfold clip, Rmin, Rmax.
  destruct (Rle_dec x lo); destruct (Rle_dec _ hi); lra.
Qed.

Lemma clip_inside (x lo hi : R) : lo <= x <= hi -> clip x lo hi = x.
Proof.
  intro H. unfold clip, Rmin, Rmax.
  destruct (Rle_dec x lo); destruct (Rle_dec _ hi); lra.
Qed.

(** X25: [update_source] stores, under the id, an azimuth clipped to
    [-80, 80] degrees and a volume clipped to [0, 1], unchanged when already
    inside; a source that existed keeps its position in the waveform and its
    place in the table, a new one starts at position 0 at the end of the
    table; the sources of all other ids are left as they were.
    [remove_source] removes the source of the id and no other. *)
Theorem update_source_clips (sources : list (Z * Source)) (obj_id : Z)
    (az vol : R) (signature_name : string) :
  let sources' := update_source sources obj_id az vol signature_name in
  (exists s,
     get sources' obj_id = Some s
     /\ - 80 <= azimuth s <= 80 /\ 0 <= volume s <= 1
     /\ (- 80 <= az <= 80 -> azimuth s = az)
     /\ (0 <= vol <= 1 -> volume s = vol)
     /\ signature s = signature_name
     /\ position s = match get sources obj_id with
                     | Some old => position old
                     | None => 0%Z
                     end)
  /\ (forall j, j <> obj_id -> get sources' j = get sources j)
  /\ map fst sources'
     = (if existsb (Z.eqb obj_id) (map fst sources)
        then map fst sources else map fst sources ++ [obj_id])
  /\ get (remove_source sources' obj_id) obj_id = None
  /\ (forall j, j <> obj_id ->
        get (remove_source sources' obj_id) j = get sources j).
Proof.
  cbv zeta. unfold update_source.
  set (s := {| azimuth := _; volume := _; signature := _; position := _ |}).
  assert (Hother : forall j, j <> obj_id ->
            get (put sources obj_id s) j = get sources j)
    by (intros j Hj; apply get_put_other; exact Hj).
  split; [ | split; [ exact Hother | split; [ apply put_keys | split ] ] ].
  - exists s. split; [ apply get_put_same | ].
    cbn [azimuth volume signature position s].
    unfold config.MAX_AZIMUTH_DEGREES.
    assert (Ba : - 80 <= clip az (- 80) 80 <= 80)
      by (apply clip_bounds; lra).
    assert (Bv : 0 <= clip vol 0.0 1.0 <= 1).
    { pose proof (clip_bounds vol 0.0 1.0) as B. lra. }
    subst s. cbn [azimuth volume signature position].
    split; [ exact Ba | ]. split; [ exact Bv | ].
    split; [ intro H; apply clip_inside; exact H | ].
    split; [ intro H; apply clip_inside; lra | ].
    split; reflexivity.
  - unfold remove_source, get.
    assert (Hnone : find (fun kv => (fst kv =? obj_id)%Z)
                      (filter (fun kv => negb (fst kv =? obj_id)%Z)
                              (put sources obj_id s)) = None).
    { apply LookupProps.find_none_iff. intros kv Hin.
      apply filter_In in Hin. destruct Hin as [_ Hin].
      apply negb_true_iff in Hin. exact Hin. }
    rewrite Hnone. reflexivity.
  - intros j Hj. rewrite <- (Hother j Hj). unfold remove_source, get.
    f_equal.
    generalize (put sources obj_id s). intro l.
    induction l as [ | [k w] rest IH ]; [ reflexivity | ].
    cbn [filter find fst].
    destruct (k =? obj_id)%Z eqn:E; cbn [negb find fst].
    + apply Z.eqb_eq in E. subst k.
      destruct (obj_id =? j)%Z eqn:E'; [ apply Z.eqb_eq in E'; congruence | ].
      exact IH.
    + destruct (k =? j)%Z; [ reflexivity | exact IH ].
Qed.

(** X26: the stereo gains of a source follow a constant-power pan: the
    squares of the left and right gain add up to the square of the volume,
    whatever the azimuth; for a non-negative volume neither gain is negative;
    a source at 80 degrees or beyond is all right, one at -80 degrees or
    beyond all left, and one straight ahead equally loud on both sides.
    These are the gains the mixing loop applies to the samples of the
    source. *)
Theorem pan_is_constant_power (source_data : Source) :
  let left_gain := fst (pan_gains source_data) in
  let right_gain := snd (pan_gains source_data) in
  left_gain * left_gain + right_gain * right_gain
  = volume source_data * volume source_data
  /\ (0 <= volume source_data -> 0 <= left_gain /\ 0 <= right_gain)
  /\ (80 <= azimuth source_data ->
      left_gain = 0 /\ right_gain = volume source_data)
  /\ (azimuth source_data <= - 80 ->
      left_gain = volume source_data /\ right_gain = 0)
  /\ (azimuth source_data = 0 -> left_gain = right_gain)
  /\ (forall frames sigs obj_id rest left_channel right_channel sig,
        get_signature sigs (signature source_data) = Some sig ->
        sig <> [] ->
        mix_sources frames sigs ((obj_id, source_data) :: rest)
                    left_channel right_channel
        = match
            mix_sources frames sigs rest
              (mix_into left_channel
                 (sample_loop frames sig (position source_data)) left_gain)
              (mix_into right_channel
                 (sample_loop frames sig (position source_data)) right_gain)
          with
          | None => None
          | Some (l, r, rest') =>
              Some (l, r,
                    (obj_id,
                     {| azimuth := azimuth source_data;
                        volume := volume source_data;
                        signature := signature source_data;
                        position :=
                          (position source_data + Z.of_nat frames)%Z |})
                    :: rest')
          end).
Proof.
  cbv zeta. unfold pan_gains. cbn [fst snd].
  unfold config.MAX_AZIMUTH_DEGREES.
  set (pan := clip (azimuth source_data / 80) (-1.0) 1.0).
  set (angle := (pan + 1.0) * PI / 4).
  assert (Hpan : -1 <= pan <= 1).
  { pose proof (clip_bounds (azimuth source_data / 80) (-1.0) 1.0) as B.
    fold pan in B. lra. }
  pose proof PI_RGT_0 as Hpi.
  assert (Hangle : 0 <= angle <= PI / 2) by (unfold angle; split; nra).
  split; [ | split; [ | split; [ | split; [ | split ] ] ] ].
  - pose proof (sin2_cos2 angle) as H. unfold Rsqr in H. nra.
  - intro Hv. split.
    + apply Rmult_le_pos; [ apply cos_ge_0; lra | exact Hv ].
    + apply Rmult_le_pos; [ apply sin_ge_0; lra | exact Hv ].
  - intro Haz.
    assert (Hp : pan = 1).
    { unfold pan, clip, Rmin, Rmax.
      destruct (Rle_dec (azimuth source_data / 80) (-1.0));
        destruct (Rle_dec _ 1.0); lra. }
    assert (Ha : angle = PI / 2) by (unfold angle; rewrite Hp; lra).
    rewrite Ha, cos_PI2, sin_PI2. split; lra.
  - intro Haz.
    assert (Hp : pan = -1).
    { unfold pan, clip, Rmin, Rmax.
      destruct (Rle_dec (azimuth source_data / 80) (-1.0));
        destruct (Rle_dec _ 1.0); lra. }
    assert (Ha : angle = 0) by (unfold angle; rewrite Hp; lra).
    rewrite Ha, cos_0, sin_0. split; lra.
  - intro Haz.
    assert (Hp : pan = 0).
    { unfold pan. rewrite Haz.
      replace (0 / 80) with 0 by lra. apply clip_inside. lra. }
    assert (Ha : angle = PI / 4) by (unfold angle; rewrite Hp; lra).
    rewrite Ha, cos_PI4, sin_PI4. reflexivity.
  - intros frames sigs obj_id rest lc rc sig Hsig Hne.
    cbn [mix_sources]. rewrite Hsig.
    assert (Hlen : (List.length sig =? 0)%nat = false).
    { apply Nat.eqb_neq. destruct sig; [ congruence | discriminate ]. }
    rewrite Hlen, andb_false_r. reflexivity.
Qed.

End SourceTableProps.

(** ** Playback across callbacks *)

Module PlaybackProps.

Import AudioModuleMulti.
Open Scope R_scope.

Lemma sample_loop_app (f1 f2 : nat) (sig : list R) (pos : Z) :
  sample_loop (f1 + f2) sig pos
  = sample_loop f1 sig pos ++ sample_loop f2 sig (pos + Z.of_nat f1).
Proof.
  revert pos. induction f1 as [ | k IH ]; intro pos.
  - cbn [Nat.add sample_loop app]. rewrite Z.add_0_r. reflexivity.
  - cbn [Nat.add sample_loop app]. rewrite IH. do 3 f_equal. lia.
Qed.

Lemma sample_loop_nth (frames : nat) (sig : list R) (pos : Z) (i : nat) :
  (i < frames)%nat ->
  nth i (sample_loop frames sig pos) 0
  = nth (Z.to_nat ((pos + Z.of_nat i) mod Z.of_nat (List.length sig))) sig 0.
Proof.
  revert pos i. induction frames as [ | k IH ]; intros pos i Hi; [ lia | ].
  cbn [sample_loop]. destruct i as [ | j ].
  - cbn [nth]. rewrite Z.add_0_r. reflexivity.
  - cbn [nth]. rewrite IH by lia. do 3 f_equal. lia.
Qed.

Lemma sample_loop_period (frames : nat) (sig : list R) (pos : Z) :
  sample_loop frames sig (pos + Z.of_nat (List.length sig))
  = sample_loop frames sig pos.
Proof.
  revert pos. induction frames as [ | k IH ]; intro pos; [ reflexivity | ].
  cbn [sample_loop]. f_equal.
  - destruct sig as [ | x rest ].
    + cbn [List.length Z.of_nat]. rewrite Z.add_0_r. reflexivity.
    + do 2 f_equal.
      rewrite <- (Z.mul_1_l (Z.of_nat (List.length (x :: rest)))) at 1.
      apply Z.mod_add. cbn [List.length]. lia.
  - replace (pos + Z.of_nat (List.length sig) + 1)%Z
      with (pos + 1 + Z.of_nat (List.length sig))%Z by lia.
    apply IH.
Qed.

Lemma mix_sources_advances (frames : nat) (sigs : Signatures)
    (sources : list (Z * Source)) :
  forall left_channel right_channel l r sources',
    mix_sources frames sigs sources left_channel right_channel
    = Some (l, r, sources') ->
    sources'
    = map (fun kv =>
             (fst kv,
              {| azimuth := azimuth (snd kv);
                 volume := volume (snd kv);
                 signature := signature (snd kv);
                 position := (position (snd kv) + Z.of_nat frames)%Z |}))
          sources.
Proof.
  induction sources as [ | [obj_id source_data] rest IH ];
    intros lc rc l r sources' H; cbn [mix_sources] in H.
  - injection H as _ _ <-. reflexivity.
  - destruct (get_signature sigs (signature source_data)) as [ sig | ];
      [ | discriminate H ].
    destruct ((0 <? frames)%nat && (List.length sig =? 0)%nat);
      [ discriminate H | ].
    match type of H with
    | match ?m with _ => _ end = _ =>
        destruct m as [ [ [l' r'] rest' ] | ] eqn:Erest; [ | discriminate H ]
    end.
    injection H as _ _ <-. cbn [map fst snd].
    rewrite (IH _ _ _ _ _ Erest). reflexivity.
Qed.

(** X27: playback loops over the waveform without a seam.  Frame [i] of a
    block started at position [pos] is the sample at [(pos + i)] modulo the
    length of the waveform; a block of [f1 + f2] frames is the block of [f1]
    frames followed by the block of [f2] frames started [f1] later; starting
    one whole waveform later gives the same block.  A callback that returns
    leaves every source in place with its azimuth, volume and signature, and
    its position advanced by exactly the number of frames of the block, so
    that the next callback continues where this one stopped. *)
Theorem callback_continues_waveform (frames : nat) (sigs : Signatures)
    (sources : list (Z * Source)) :
  (forall l r sources',
     audio_callback frames sigs sources = Some (l, r, sources') ->
     sources'
     = map (fun kv =>
              (fst kv,
               {| azimuth := azimuth (snd kv);
                  volume := volume (snd kv);
                  signature := signature (snd kv);
                  position := (position (snd kv) + Z.of_nat frames)%Z |}))
           sources)
  /\ (forall sig pos i,
        (i < frames)%nat ->
        nth i (sample_loop frames sig pos) 0
        = nth (Z.to_nat ((pos + Z.of_nat i) mod Z.of_nat (List.length sig)))
              sig 0)
  /\ (forall f2 sig pos,
        sample_loop (frames + f2) sig pos
        = sample_loop frames sig pos
          ++ sample_loop f2 sig (pos + Z.of_nat frames))
  /\ (forall sig pos,
        sample_loop frames sig (pos + Z.of_nat (List.length sig))
        = sample_loop frames sig pos).
Proof.
  split; [ | split; [ | split ] ].
  - intros l r sources' H. unfold audio_callback in H.
    destruct (mix_sources frames sigs sources (repeat 0.0 frames)
                (repeat 0.0 frames)) as [ [ [l0 r0] srcs ] | ] eqn:Emix;
      [ | discriminate H ].
    assert (Hs : sources' = srcs).
    { destruct (abs_max l0); [ | discriminate H ].
      destruct (abs_max r0); [ | discriminate H ].
      destruct (Rlt_dec 1.0 (Rmax r1 r2)); congruence. }
    rewrite Hs. exact (mix_sources_advances _ _ _ _ _ _ _ _ Emix).
  - intros sig pos i Hi. apply sample_loop_nth, Hi.
  - intros f2 sig pos. apply sample_loop_app.
  - intros sig pos. apply sample_loop_period.
Qed.

Lemma abs_max_le (channel : list R) (m B : R) :
  abs_max channel = Some m ->
  (forall s, In s channel -> Rabs s <= B) -> m <= B.
Proof.
  revert m. induction channel as [ | x rest IH ]; intros m Hm HB.
  - discriminate Hm.
  - cbn [abs_max] in Hm. destruct (abs_max rest) as [ m' | ] eqn:Er.
    + injection Hm as <-. apply Rmax_lub.
      * apply HB. left. reflexivity.
      * apply (IH m' eq_refl). intros s Hs. apply HB. right. exact Hs.
    + injection Hm as <-. apply HB. left. reflexivity.
Qed.

Lemma sample_loop_bounded (frames : nat) (sig : list R) (pos : Z) :
  (forall s, In s sig -> Rabs s <= 1) ->
  forall s, In s (sample_loop frames sig pos) -> Rabs s <= 1.
Proof.
  intro Hsig. revert pos.
  induction frames as [ | k IH ]; intros pos s Hs; cbn [sample_loop] in Hs.
  - destruct Hs.
  - destruct Hs as [ <- | Hs ]; [ | exact (IH _ _ Hs) ].
    destruct (nth_in_or_default
                (Z.to_nat (pos mod Z.of_nat (List.length sig))) sig 0)
      as [ Hin | -> ].
    + apply Hsig, Hin.
    + rewrite Rabs_R0. lra.
Qed.

Lemma mix_into_bounded (channel samples : list R) (gain B v : R) :
  (forall s, In s channel -> Rabs s <= B) ->
  (forall s, In s samples -> Rabs s <= 1) ->
  Rabs gain <= v ->
  forall s, In s (mix_into channel samples gain) -> Rabs s <= B + v.
Proof.
  intros Hc Hs Hg s Hin. unfold mix_into in Hin.
  apply in_map_iff in Hin. destruct Hin as ([c x] & <- & Hcx).
  cbn [fst snd].
  pose proof (Hc c (in_combine_l _ _ _ _ Hcx)) as Bc.
  pose proof (Hs x (in_combine_r _ _ _ _ Hcx)) as Bx.
  eapply Rle_trans; [ apply Rabs_triang | ].
  rewrite Rabs_mult.
  pose proof (Rabs_pos x). pose proof (Rabs_pos gain). nra.
Qed.

Lemma get_signature_bounded (sigs : Signatures) (name : string)
    (sig : list R) :
  Invariants.waveforms_bounded sigs ->
  get_signature sigs name = Some sig ->
  forall s, In s sig -> Rabs s <= 1.
Proof.
  intros Hb Hsig s Hs. unfold get_signature, Py.dict_get_default in Hsig.
  destruct (Py.dict_get sigs "default") as [ d | ] eqn:Ed;
    [ | discriminate Hsig ].
  destruct (Py.dict_get sigs name) as [ v | ] eqn:Ev;
    injection Hsig as <-.
  - exact (Hb _ _ _ (MixProps.dict_get_In _ _ _ Ev) Hs).
  - exact (Hb _ _ _ (MixProps.dict_get_In _ _ _ Ed) Hs).
Qed.

Lemma gain_le_volume (c v : R) : -1 <= c <= 1 -> Rabs (c * v) <= Rabs v.
Proof.
  intro Hc. rewrite Rabs_mult.
  assert (Rabs c <= 1) by (apply Rabs_le; lra).
  pose proof (Rabs_pos v). nra.
Qed.

Lemma mix_sources_bounded (frames : nat) (sigs : Signatures)
    (sources : list (Z * Source)) :
  Invariants.waveforms_bounded sigs ->
  forall left_channel right_channel B l r sources',
    (forall s, In s left_channel -> Rabs s <= B) ->
    (forall s, In s right_channel -> Rabs s <= B) ->
    mix_sources frames sigs sources left_channel right_channel
    = Some (l, r, sources') ->
    (forall s, In s l -> Rabs s <= B + Invariants.total_volume sources)
    /\ (forall s, In s r -> Rabs s <= B + Invariants.total_volume sources).
Proof.
  intro Hb.
  induction sources as [ | [obj_id source_data] rest IH ];
    intros lc rc B l r sources' Hl Hr H; cbn [mix_sources] in H.
  - injection H as <- <- _. unfold Invariants.total_volume. cbn [fold_right].
    rewrite Rplus_0_r. split; assumption.
  - destruct (get_signature sigs (signature source_data)) as [ sig | ] eqn:Es;
      [ | discriminate H ].
    destruct ((0 <? frames)%nat && (List.length sig =? 0)%nat);
      [ discriminate H | ].
    match type of H with
    | match ?m with _ => _ end = _ =>
        destruct m as [ [ [l' r'] rest' ] | ] eqn:Erest; [ | discriminate H ]
    end.
    injection H as <- <- _.
    pose proof (sample_loop_bounded frames sig (position source_data)
                  (get_signature_bounded _ _ _ Hb Es)) as Hsamples.
    assert (Htot : Invariants.total_volume ((obj_id, source_data) :: rest)
                   = Rabs (volume source_data)
                     + Invariants.total_volume rest) by reflexivity.
    rewrite Htot.
    destruct (IH _ _ (B + Rabs (volume source_data)) _ _ _
                (mix_into_bounded _ _ _ _ _ Hl Hsamples
                   (gain_le_volume _ _ (COS_bound _)))
                (mix_into_bounded _ _ _ _ _ Hr Hsamples
                   (gain_le_volume _ _ (SIN_bound _)))
                Erest) as [Bl Br].
    split; intros s Hs.
    + specialize (Bl s Hs). lra.
    + specialize (Br s Hs). lra.
Qed.

(** X28: when every sample of every waveform has magnitude at most 1 and the
    magnitudes of the volumes of the sources add up to at most 1, the
    callback never rescales: for a block of at least one frame it writes the
    plain sum of the panned sources, and it raises exactly when the mixing
    loop raises. *)
Theorem quiet_mix_is_not_rescaled (frames : nat) (sigs : Signatures)
    (sources : list (Z * Source)) :
  (0 < frames)%nat ->
  Invariants.waveforms_bounded sigs ->
  Invariants.total_volume sources <= 1 ->
  audio_callback frames sigs sources
  = mix_sources frames sigs sources (repeat 0.0 frames) (repeat 0.0 frames).
Proof.
  intros Hframes Hb Hvol. unfold audio_callback.
  destruct (mix_sources frames sigs sources (repeat 0.0 frames)
              (repeat 0.0 frames)) as [ [ [l0 r0] srcs ] | ] eqn:Emix;
    [ | reflexivity ].
  destruct (MixProps.mix_sources_length frames sigs sources _ _ _ _ _
              (repeat_length _ _) (repeat_length _ _) Emix) as [Hl0 Hr0].
  assert (Hzero : forall s, In s (repeat 0.0 frames) -> Rabs s <= 0).
  { intros s Hs. apply repeat_spec in Hs. subst s.
    replace 0.0 with 0 by lra. rewrite Rabs_R0. lra. }
  destruct (mix_sources_bounded frames sigs sources Hb _ _ 0 _ _ _
              Hzero Hzero Emix) as [Bl Br].
  destruct (MixProps.abs_max_some l0) as (ml & El);
    [ intros ->; cbn in Hl0; lia | ].
  destruct (MixProps.abs_max_some r0) as (mr & Er);
    [ intros ->; cbn in Hr0; lia | ].
  rewrite El, Er.
  pose proof (abs_max_le l0 ml _ El Bl) as Ml.
  pose proof (abs_max_le r0 mr _ Er Br) as Mr.
  destruct (Rlt_dec 1.0 (Rmax ml mr)) as [ Hbig | _ ]; [ | reflexivity ].
  exfalso. assert (Rmax ml mr <= 1) by (apply Rmax_lub; lra). lra.
Qed.

Lemma half_volume_mix_is_not_rescaled :
  Invariants.waveforms_bounded [("default"%string, [1; -1])]
  /\ audio_callback 2 [("default"%string, [1; -1])]
       [(0%Z, {| azimuth := 30; volume := 0.5;
                 signature := "cup"; position := 0 |});
        (1%Z, {| azimuth := - 30; volume := 0.5;
                 signature := "default"; position := 1 |})]
     = mix_sources 2 [("default"%string, [1; -1])]
         [(0%Z, {| azimuth := 30; volume := 0.5;
                   signature := "cup"; position := 0 |});
          (1%Z, {| azimuth := - 30; volume := 0.5;
                   signature := "default"; position := 1 |})]
         (repeat 0.0 2) (repeat 0.0 2).
Proof.
  assert (Hb : Invariants.waveforms_bounded [("default"%string, [1; -1])]).
  { intros name sig s [ Hin | [] ] Hs. injection Hin as _ <-.
    destruct Hs as [ <- | [ <- | [] ] ];
      unfold Rabs; destruct (Rcase_abs _); lra. }
  split; [ exact Hb | ].
  apply quiet_mix_is_not_rescaled; [ lia | exact Hb | ].
  unfold Invariants.total_volume. cbn [fold_right snd volume].
  rewrite (Rabs_right 0.5) by lra. lra.
Defined.

End PlaybackProps.
